(** * Protrust: code generation and verification engine

    A shallow embedding of the code generator, the bulk insert executor,
    the batch progress tracker / scheduler and the verification state
    machine of the Protrust repository, with the storage layer (the
    [codes], [batches] and [verifications] tables) as explicit state. *)

From Stdlib Require Import ZArith Lia List Bool String Ascii.
From Stdlib.Strings Require Import Byte.
From stdpp Require Import base list strings relations.

Local Open Scope string_scope.
Local Open Scope Z_scope.

(** ** JavaScript string helpers *)

Module Js.

(** [s[k]] on a string: a one-character string, or [undefined], which
    [+=] renders as the text "undefined". *)
Definition char_at (s : string) (k : nat) : string :=
  match String.get k s with
  | Some c => String c EmptyString
  | None => "undefined"
  end.

(** [records.slice(i, j)] on an array. *)
Definition slice {A} (i j : nat) (l : list A) : list A :=
  take (j - i) (drop i l).

(** The idiom
    [for (let i = 0; i < xs.length; i += size) out.push(xs.slice(i, i + size))]
    started at index [i]; [fuel] bounds the number of iterations. *)
Fixpoint slices_from {A} (fuel i size : nat) (xs : list A) : list (list A) :=
  match fuel with
  | O => []
  | S fuel' =>
      if (i <? length xs)%nat
      then slice i (i + size) xs :: slices_from fuel' (i + size) size xs
      else []
  end.

Definition slices {A} (size : nat) (xs : list A) : list (list A) :=
  slices_from (length xs) 0 size xs.

(** [set.add(x)] on a [Set], kept in insertion order as [Array.from]
    reads it back. *)
Definition set_add (x : string) (set : list string) : list string :=
  if bool_decide (x ∈ set) then set else set ++ [x].

(** The double quote character, as a string. *)
Definition quote : string := String (ascii_of_nat 34) EmptyString.

(** A text is held as the bytes of its UTF-8 encoding.

    White space that [trim] removes: the WhiteSpace and LineTerminator
    code points of ECMAScript, by their encoding. In one byte: TAB, LF,
    VT, FF, CR and the space. *)
Definition is_space (c : ascii) : bool :=
  let n := nat_of_ascii c in
  ((n =? 32) || (9 <=? n) && (n <=? 13))%nat.

(** In two bytes: U+00A0. *)
Definition is_space2 (a b : ascii) : bool :=
  ((nat_of_ascii a =? 194) && (nat_of_ascii b =? 160))%nat.

(** In three bytes: U+1680, U+2000 to U+200A, U+2028, U+2029, U+202F,
    U+205F, U+3000 and U+FEFF. *)
Definition is_space3 (a b c : ascii) : bool :=
  let x := nat_of_ascii a in
  let y := nat_of_ascii b in
  let z := nat_of_ascii c in
  ((x =? 225) && (y =? 154) && (z =? 128)
   || (x =? 226) && (y =? 128)
      && ((128 <=? z) && (z <=? 138) || (z =? 168) || (z =? 169) || (z =? 175))
   || (x =? 226) && (y =? 129) && (z =? 159)
   || (x =? 227) && (y =? 128) && (z =? 128)
   || (x =? 239) && (y =? 187) && (z =? 191))%nat.

(** The encoding of one code point of white space. *)
Definition white_space (w : list ascii) : bool :=
  match w with
  | [a] => is_space a
  | [a; b] => is_space2 a b
  | [a; b; c] => is_space3 a b c
  | _ => false
  end.

(** The white space taken off the front of a text; with [back], off the
    front of a text that is read backwards, where the bytes of a code
    point come last byte first. *)
Fixpoint strip (back : bool) (l : list ascii) : list ascii :=
  match l with
  | [] => []
  | a :: l1 =>
      if is_space a then strip back l1
      else
        match l1 with
        | [] => l
        | b :: l2 =>
            if (if back then is_space2 b a else is_space2 a b) then strip back l2
            else
              match l2 with
              | [] => l
              | c :: l3 =>
                  if (if back then is_space3 c b a else is_space3 a b c)
                  then strip back l3
                  else l
              end
        end
  end.

(** [s.trim()]: the white space taken off both ends. *)
Definition trim (s : string) : string :=
  string_of_list_ascii
    (rev (strip true (rev (strip false (list_ascii_of_string s))))).

Definition upper_char (c : ascii) : ascii :=
  let n := nat_of_ascii c in
  if ((97 <=? n) && (n <=? 122))%nat then ascii_of_nat (n - 32) else c.

(** [s.toUpperCase()] of a text whose letters are ASCII: the bytes of
    [a] to [z] are mapped, every other byte is kept. The case mapping of
    the letters beyond ASCII is not part of this development; what is
    proved of a text that goes through [toUpperCase] or [toLowerCase] is
    proved of ASCII text ([is_ascii]) wherever the mapping matters. *)
Fixpoint toUpperCase (s : string) : string :=
  match s with
  | EmptyString => EmptyString
  | String c rest => String (upper_char c) (toUpperCase rest)
  end.

(** [s.startsWith(p)]. *)
Definition startsWith (p s : string) : bool := String.prefix p s.

(** [s.split(',')[0]]: the text before the first comma. *)
Fixpoint before_comma (s : string) : string :=
  match s with
  | EmptyString => EmptyString
  | String c rest =>
      if bool_decide (c = ","%char) then EmptyString else String c (before_comma rest)
  end.

(** [s.includes(',')]. *)
Definition includes_comma (s : string) : bool :=
  bool_decide (","%char ∈ list_ascii_of_string s).

Definition lower_char (c : ascii) : ascii :=
  let n := nat_of_ascii c in
  if ((65 <=? n) && (n <=? 90))%nat then ascii_of_nat (n + 32) else c.

(** [s.toLowerCase()] of a text whose letters are ASCII. *)
Fixpoint toLowerCase (s : string) : string :=
  match s with
  | EmptyString => EmptyString
  | String c rest => String (lower_char c) (toLowerCase rest)
  end.

(** The text before the first '@'. *)
Fixpoint before_at (s : string) : string :=
  match s with
  | EmptyString => EmptyString
  | String c rest =>
      if bool_decide (c = "@"%char) then EmptyString else String c (before_at rest)
  end.

(** [s.split('@')[1]]: the text between the first '@' and the next
    one; [undefined] ([None]) when there is no '@'. *)
Fixpoint after_at (s : string) : option string :=
  match s with
  | EmptyString => None
  | String c rest =>
      if bool_decide (c = "@"%char) then Some (before_at rest) else after_at rest
  end.

(** [x || null] on an optional text: an absent and an empty one both
    give [null]. *)
Definition or_null (x : option string) : option string :=
  match x with
  | Some s => if bool_decide (s = "") then None else Some s
  | None => None
  end.

(** The text has no code point beyond ASCII. *)
Definition is_ascii (s : string) : bool :=
  forallb (fun c => (nat_of_ascii c <? 128)%nat) (list_ascii_of_string s).

(** The UTF-16 code units a byte stands for: none for a continuation
    byte, two for the first byte of a four-byte sequence, one for any
    other. *)
Definition units (c : ascii) : nat :=
  let n := nat_of_ascii c in
  if ((128 <=? n) && (n <? 192))%nat then 0%nat
  else if (240 <=? n)%nat then 2%nat else 1%nat.

(** [s.length]: the number of UTF-16 code units of the text. *)
Fixpoint length (s : string) : nat :=
  match s with
  | EmptyString => 0%nat
  | String c rest => (units c + length rest)%nat
  end.

End Js.

(** ** Code generator *)

Module Generator.

(** The alphabet literal shared by every generator of the repository. *)
Definition chars : string := "ABCDEFGHJKLMNPQRSTUVWXYZ23456789".

(** [chars[bytes[i] % modulus]]; an index past the buffer reads
    [undefined], whose remainder is [NaN] and whose lookup is
    [undefined] again. *)
Definition symbol (modulus : nat) (bytes : list byte) (i : nat) : string :=
  match bytes !! i with
  | Some b => Js.char_at chars (Byte.to_nat b mod modulus)
  | None => "undefined"
  end.

(** [for (let i = 0; i < length; i++) code += chars[bytes[i] % modulus]],
    with [n] iterations left. *)
Fixpoint assemble (modulus : nat) (bytes : list byte) (n i : nat)
    (code : string) : string :=
  match n with
  | O => code
  | S n' => assemble modulus bytes n' (S i) (code ++ symbol modulus bytes i)
  end.

(** [generateCode(length = 12)] of the background generator: the
    modulus is [chars.length]. [bytes] is [crypto.randomBytes(length)]. *)
Definition generateCode (bytes : list byte) : string :=
  assemble (String.length chars) bytes 12 0 "".

(** The body of the [while] loop of [generateCodes] in the batch
    creation and scheduled generation functions: the modulus is the
    literal 30. *)
Definition generateCodes_one (bytes : list byte) : string :=
  assemble 30 bytes 12 0 "".

(** [generateCodes(qty)]: [while (set.size < qty)] draw twelve bytes,
    build a code, add it to the set. [tape] is the sequence of buffers
    that [crypto.randomBytes(12)] returns; when it is used up before the
    set is full the call has not returned ([None]). *)
Fixpoint generateCodes_loop (tape : list (list byte)) (set : list string)
    (qty : Z) {struct tape} : option (list string) :=
  if Z.of_nat (length set) <? qty then
    match tape with
    | [] => None
    | bytes :: tape' =>
        generateCodes_loop tape' (Js.set_add (generateCodes_one bytes) set) qty
    end
  else Some set.

Definition generateCodes (tape : list (list byte)) (qty : Z)
    : option (list string) :=
  generateCodes_loop tape [] qty.

End Generator.

(** ** Persisted rows *)

Inductive code_status := active | verified.

Inductive batch_status := generating | complete.

Inductive attempt_result := invalid | duplicate | success.

#[global] Instance code_status_eq_dec : EqDecision code_status.
Proof. solve_decision. Defined.
#[global] Instance batch_status_eq_dec : EqDecision batch_status.
Proof. solve_decision. Defined.
#[global] Instance attempt_result_eq_dec : EqDecision attempt_result.
Proof. solve_decision. Defined.

(** A row of [codes]. [batch_id] and [manufacturer_id] are the UUIDs of
    the owning batch and issuer (naturals here). *)
Module CodeRow.
Record t := mk {
  code : string;
  batch_id : nat;
  manufacturer_id : nat;
  status : code_status;
  qr_code_url : string;
  verified_at : option string;
  verification_method : option string
}.
End CodeRow.

(** A row of [batches]. [id] is the UUID the store assigns, [batch_id]
    the display identifier. *)
Module BatchRow.
Record t := mk {
  id : nat;
  batch_id : string;
  manufacturer_id : nat;
  product_name : string;
  product_code : option string;
  product_category : string;
  quantity : Z;
  manufacturing_date : option string;
  expiring_date : option string;
  codes_generated : Z;
  status : batch_status
}.
End BatchRow.

(** The coarse location that the geolocation lookup resolves (its
    floating-point [lat] and [lon] are left out). *)
Module Location.
Record t := mk {
  city : string;
  region : string;
  state : string;
  country : string;
  countryCode : string;
  timezone : string
}.
End Location.

(** A row of [verifications]. *)
Module AttemptRow.
Record t := mk {
  code : string;
  method : string;
  result : attempt_result;
  ip_address : string;
  ip_location : option Location.t;
  manufacturer_id : option nat;
  batch_id : option nat
}.
End AttemptRow.

(** ** The durable store *)

Module Store.

Record t := mk {
  codes : list CodeRow.t;
  batches : list BatchRow.t;
  verifications : list AttemptRow.t
}.

Definition empty : t := mk [] [] [].

Definition with_codes (cs : list CodeRow.t) (st : t) : t :=
  mk cs (batches st) (verifications st).
Definition with_batches (bs : list BatchRow.t) (st : t) : t :=
  mk (codes st) bs (verifications st).
Definition with_verifications (vs : list AttemptRow.t) (st : t) : t :=
  mk (codes st) (batches st) vs.

Definition code_values (cs : list CodeRow.t) : list string :=
  map CodeRow.code cs.

(** The constraint [codes_code_unique UNIQUE (code)] of
    add-unique-constraint.sql, as the store checks it on an insert
    statement: no value of the statement is already stored and no value
    occurs twice in the statement. *)
Definition codes_code_unique (rows : list CodeRow.t) (tbl : list CodeRow.t) : bool :=
  bool_decide (NoDup (code_values rows))
  && forallb (fun r => negb (bool_decide (CodeRow.code r ∈ code_values tbl))) rows.

(** [supabase.from('codes').insert(rows)]: one statement, all rows or
    none. [fault] is a transient storage error. The result is the new
    store and whether the call returned an [error]. *)
Definition insert_codes (fault : bool) (rows : list CodeRow.t) (st : t) : t * bool :=
  if fault then (st, true)
  else if codes_code_unique rows (codes st)
       then (with_codes (codes st ++ rows) st, false)
       else (st, true).

(** [.from('codes').select(..).eq('code', c).single()]: the row when
    exactly one matches, an error otherwise. *)
Definition select_code_single (c : string) (st : t) : option CodeRow.t :=
  match List.filter (fun r => bool_decide (CodeRow.code r = c)) (codes st) with
  | [r] => Some r
  | _ => None
  end.

(** The joined [batches (...)] of the lookup. *)
Definition joined_batch (r : CodeRow.t) (st : t) : option BatchRow.t :=
  List.find (fun b => bool_decide (BatchRow.id b = CodeRow.batch_id r)) (batches st).

Definition mark_verified (now : string) (r : CodeRow.t) : CodeRow.t :=
  CodeRow.mk (CodeRow.code r) (CodeRow.batch_id r) (CodeRow.manufacturer_id r)
    verified (CodeRow.qr_code_url r) (Some now) (Some "qr").

(** The rows the conditional update selects:
    [.eq('code', c).eq('status', 'active')]. *)
Definition still_active (c : string) (r : CodeRow.t) : bool :=
  bool_decide (CodeRow.code r = c) && bool_decide (CodeRow.status r = active).

Definition affected_rows (c : string) (st : t) : nat :=
  length (List.filter (still_active c) (codes st)).

(** [.from('codes').update({status: 'verified', verified_at: now,
    verification_method: 'qr'}).eq('code', c).eq('status', 'active')]. *)
Definition update_code_verified (fault : bool) (c now : string) (st : t) : t * bool :=
  if fault then (st, true)
  else (with_codes
          (map (fun r => if still_active c r then mark_verified now r else r) (codes st))
          st, false).

(** [.from('verifications').insert([row])]; its result is never read. *)
Definition insert_verification (fault : bool) (row : AttemptRow.t) (st : t) : t :=
  if fault then st else with_verifications (verifications st ++ [row]) st.

(** [.from('batches').update({codes_generated, status}).eq('id', i)];
    its result is never read. *)
Definition update_batch_progress (fault : bool) (i : nat) (generated : Z)
    (s : batch_status) (st : t) : t :=
  if fault then st
  else with_batches
         (map (fun b =>
                 if bool_decide (BatchRow.id b = i)
                 then BatchRow.mk (BatchRow.id b) (BatchRow.batch_id b)
                        (BatchRow.manufacturer_id b) (BatchRow.product_name b)
                        (BatchRow.product_code b) (BatchRow.product_category b)
                        (BatchRow.quantity b) (BatchRow.manufacturing_date b)
                        (BatchRow.expiring_date b) generated s
                 else b)
              (batches st))
         st.

(** [.from('batches').update({ codes_generated }).eq('id', i)] of the
    background generator; its result is never read. *)
Definition update_batch_count (fault : bool) (i : nat) (generated : Z) (st : t) : t :=
  if fault then st
  else with_batches
         (map (fun b =>
                 if bool_decide (BatchRow.id b = i)
                 then BatchRow.mk (BatchRow.id b) (BatchRow.batch_id b)
                        (BatchRow.manufacturer_id b) (BatchRow.product_name b)
                        (BatchRow.product_code b) (BatchRow.product_category b)
                        (BatchRow.quantity b) (BatchRow.manufacturing_date b)
                        (BatchRow.expiring_date b) generated (BatchRow.status b)
                 else b)
              (batches st))
         st.

(** [.from('batches').select('id').eq('batch_id', s).maybeSingle()]. *)
Definition select_batch_maybe_single (s : string) (st : t) : option BatchRow.t :=
  match List.filter (fun b => bool_decide (BatchRow.batch_id b = s)) (batches st) with
  | [b] => Some b
  | _ => None
  end.

(** [.from('codes').select('code').in('code', values)]. *)
Definition select_codes_in (values : list string) (st : t) : list string :=
  List.filter (fun c => bool_decide (c ∈ values)) (code_values (codes st)).

(** The UUID the store gives to the next batch row. *)
Definition fresh_batch_id (st : t) : nat := length (batches st).

(** [.from('batches').insert([row]).select().single()]: the stored row
    with its [id], appended in creation order. *)
Definition insert_batch (row : BatchRow.t) (st : t) : t :=
  with_batches (batches st ++ [row]) st.

(** [.from('batches').select(..).eq('status', 'generating')
     .order('created_at', { ascending: true })]. *)
Definition select_generating (st : t) : list BatchRow.t :=
  List.filter (fun b => bool_decide (BatchRow.status b = generating)) (batches st).

(** [st'] is [st] with some of the rows of [rows], in their order,
    appended to [codes] and nothing else changed. *)
Definition extends (rows : list CodeRow.t) (st st' : t) : Prop :=
  batches st' = batches st
  /\ verifications st' = verifications st
  /\ exists extra : list CodeRow.t,
       codes st' = (codes st ++ extra)%list /\ extra `sublist_of` rows.

End Store.

(** ** Bulk insert executor (create-batch and scheduled generation) *)

Module Executor.

Definition CHUNK_SIZE : nat := 1000.
Definition CONCURRENCY : nat := 8.

Definition hex_digit (n : nat) : string := Js.char_at "0123456789ABCDEF" n.

(** The characters [encodeURIComponent] leaves as they are. *)
Definition unreserved (c : ascii) : bool :=
  let n := nat_of_ascii c in
  ((65 <=? n) && (n <=? 90) || (97 <=? n) && (n <=? 122)
   || (48 <=? n) && (n <=? 57))%nat
  || bool_decide (c ∈ list_ascii_of_string "-_.!~*'()").

(** [encodeURIComponent(s)], byte by byte over the UTF-8 text. *)
Fixpoint encodeURIComponent (s : string) : string :=
  match s with
  | EmptyString => ""
  | String c rest =>
      (if unreserved c then String c EmptyString
       else "%" ++ hex_digit (nat_of_ascii c / 16) ++ hex_digit (nat_of_ascii c mod 16))
      ++ encodeURIComponent rest
  end.

(** [buildRecords(codes, batchUUID, manufacturerId, siteUrl)]. *)
Definition buildRecords (codes : list string) (batchUUID manufacturerId : nat)
    (siteUrl : string) : list CodeRow.t :=
  map (fun code =>
         CodeRow.mk code batchUUID manufacturerId active
           ("https://api.qrserver.com/v1/create-qr-code/?size=300x300&data="
            ++ encodeURIComponent (siteUrl ++ "/verify?code=" ++ code))
           None None)
      codes.

(** The executor's running state: the store, the [inserted] counter,
    and, as a record of durability, the store as it stood right after
    each insert statement (oldest first). *)
Record progress := mk {
  store : Store.t;
  inserted : Z;
  written : list Store.t
}.

(** One [supabase.from('codes').insert(c)] of a [Promise.all] group
    and its [forEach] accounting:
    [if (!r.error) inserted += batch[idx].length]. *)
Definition insert_chunk (fault : bool) (c : list CodeRow.t) (p : progress) : progress :=
  let '(st', error) := Store.insert_codes fault c (store p) in
  mk st'
     (if error then inserted p else inserted p + Z.of_nat (length c))
     (written p ++ [st']).

(** [Promise.all(batch.map(c => insert(c)))] for the group that starts
    at chunk [i], the statements taken in index order; [idx] is the
    position inside the group. The [(i + idx)]-th statement of the call
    meets the transient fault [fault (i + idx)]. *)
Fixpoint insert_group (fault : nat -> bool) (i idx : nat)
    (batch : list (list CodeRow.t)) (p : progress) : progress :=
  match batch with
  | [] => p
  | c :: rest =>
      insert_group fault i (S idx) rest (insert_chunk (fault (i + idx)%nat) c p)
  end.

(** [for (let i = 0; i < chunks.length; i += CONCURRENCY)]. *)
Fixpoint insert_groups (fuel : nat) (fault : nat -> bool) (i : nat)
    (chunks : list (list CodeRow.t)) (p : progress) : progress :=
  match fuel with
  | O => p
  | S fuel' =>
      if (i <? length chunks)%nat
      then insert_groups fuel' fault (i + CONCURRENCY) chunks
             (insert_group fault i 0 (Js.slice i (i + CONCURRENCY) chunks) p)
      else p
  end.

(** The insert statements of a call as one sequence, the [k]-th
    statement meeting [fault k]. *)
Fixpoint run_chunks (fault : nat -> bool) (k : nat) (cs : list (list CodeRow.t))
    (p : progress) : progress :=
  match cs with
  | [] => p
  | c :: rest => run_chunks fault (S k) rest (insert_chunk (fault k) c p)
  end.

(** [insertCodes(records)]. *)
Definition insertCodes (fault : nat -> bool) (records : list CodeRow.t)
    (st : Store.t) : progress :=
  let chunks := Js.slices CHUNK_SIZE records in
  insert_groups (length chunks) fault 0 chunks (mk st 0 []).

End Executor.

(** ** Batch creation (the create-batch function of admin-users.js) *)

Module CreateBatch.

Definition SYNC_LIMIT : Z := 10000.

(** The [quantity] field of the body, by what [!quantity] and
    [parseInt(quantity)] make of it. *)
Inductive quantity_field :=
| Absent                 (* falsy: missing, null, 0 or the empty string *)
| NotANumber             (* truthy, and parseInt gives NaN *)
| Parsed (qty : Z).      (* truthy, and parseInt gives qty *)

#[global] Instance quantity_field_eq_dec : EqDecision quantity_field.
Proof. solve_decision. Defined.

(** The parsed JSON body. An absent text field is the empty string. *)
Record fields := mkFields {
  productName : string;
  productCategory : string;
  quantity : quantity_field;
  customBatchId : option string;
  productCode : option string;
  manufacturingDate : option string;
  expiringDate : option string
}.

(** The event. [decoded] is what [verifyToken(event.headers.authorization)]
    returns: the issuer's [userId], or [None] for [null]; [body] is
    [None] when [JSON.parse] throws. *)
Record request := mkRequest {
  httpMethod : string;
  decoded : option nat;
  body : option fields
}.

(** What the invocation meets outside the store: the site URL of the
    configuration, the generated identifier for a batch without a custom
    one, the random buffers, and the storage faults: of the look-up of a
    custom identifier ([exists_fault]), of the insert of the batch
    record ([batch_error]), of the code inserts and of the progress
    update. *)
Record env := mkEnv {
  siteUrl : string;
  auto_batch_id : string;
  exists_fault : bool;
  batch_error : bool;
  tape : list (list byte);
  insert_fault : nat -> bool;
  update_fault : bool
}.

Record summary := mkSummary {
  s_id : nat;
  s_batch_id : string;
  s_product_name : string;
  s_quantity : Z;
  s_codes_generated : Z;
  s_status : batch_status
}.

Inductive message :=
| AllGenerated
| RemainingLater (inserted remaining : Z).

Inductive payload :=
| Empty
| Error (error : string)
| Created (msg : message) (batch : summary).

Record response := respond {
  statusCode : Z;
  payload_of : payload
}.

(** [/^[A-Za-z0-9\-_]+$/.test(s)]. *)
Definition batch_id_char (c : ascii) : bool :=
  let n := nat_of_ascii c in
  ((65 <=? n) && (n <=? 90) || (97 <=? n) && (n <=? 122)
   || (48 <=? n) && (n <=? 57) || (n =? 45) || (n =? 95))%nat.

Definition batch_id_ok (s : string) : bool :=
  negb (bool_decide (s = "")) && forallb batch_id_char (list_ascii_of_string s).

(** The batch identifier step: the trimmed custom identifier when one is
    given, checked against the pattern and against the stored batches, or
    the generated one. Of the look-up only [data] is read: when it fails
    [exists] is [null] and the identifier goes through. *)
Definition choose_batch_id (e : env) (st : Store.t) (f : fields)
    : string + response :=
  match customBatchId f with
  | Some custom =>
      if bool_decide (custom = "") || bool_decide (Js.trim custom = "")
      then inl (auto_batch_id e)
      else
        let batchId := Js.trim custom in
        if negb (batch_id_ok batchId)
        then inr (respond 400
               (Error "Batch ID can only contain letters, numbers, dashes and underscores"))
        else match (if exists_fault e then None
                    else Store.select_batch_maybe_single batchId st) with
             | Some _ =>
                 inr (respond 400
                   (Error ("Batch ID " ++ Js.quote ++ batchId ++ Js.quote
                           ++ " already exists. Use a different ID or leave empty to auto-generate.")))
             | None => inl batchId
             end
  | None => inl (auto_batch_id e)
  end.

(** The durable states of an invocation, oldest first, and its
    response; [None] when the invocation has not returned. *)
Record outcome := mkOutcome {
  states : list Store.t;
  reply : option response
}.

(** The store an invocation leaves behind. *)
Definition final (st : Store.t) (o : outcome) : Store.t := List.last (states o) st.

(** The batch row the handler inserts: nothing generated yet, status
    [generating]; the optional fields are stored as [x || null]. *)
Definition new_batch (st : Store.t) (userId : nat) (f : fields) (qty : Z)
    (batchId : string) : BatchRow.t :=
  BatchRow.mk (Store.fresh_batch_id st) batchId userId (productName f)
    (Js.or_null (productCode f)) (productCategory f) qty
    (Js.or_null (manufacturingDate f)) (Js.or_null (expiringDate f)) 0 generating.

(** The handler from the creation of the batch record on: insert the
    batch, generate and insert up to [SYNC_LIMIT] codes, write the
    progress, respond. *)
Definition create (e : env) (st : Store.t) (userId : nat) (f : fields) (qty : Z)
    (batchId : string) : outcome :=
  if batch_error e
  then mkOutcome [] (Some (respond 500 (Error "Failed to create batch")))
  else
    let batch := new_batch st userId f qty batchId in
    let st1 := Store.insert_batch batch st in
    let initialBatch := Z.min qty SYNC_LIMIT in
    match Generator.generateCodes (tape e) initialBatch with
    | None => mkOutcome [st1] None
    | Some codes =>
        let records := Executor.buildRecords codes (BatchRow.id batch) userId (siteUrl e) in
        let p := Executor.insertCodes (insert_fault e) records st1 in
        let inserted := Executor.inserted p in
        let isComplete := inserted >=? qty in
        let st2 :=
          Store.update_batch_progress (update_fault e) (BatchRow.id batch) inserted
            (if isComplete then complete else generating) (Executor.store p) in
        mkOutcome ([st1] ++ Executor.written p ++ [st2])
          (Some (respond 201
             (if isComplete
              then Created AllGenerated
                     (mkSummary (BatchRow.id batch) batchId (productName f) qty
                        inserted complete)
              else Created (RemainingLater inserted (qty - inserted))
                     (mkSummary (BatchRow.id batch) batchId (productName f) qty
                        inserted generating))))
    end.

(** [exports.handler]. *)
Definition handler (e : env) (st : Store.t) (r : request) : outcome :=
  if bool_decide (httpMethod r = "OPTIONS") then mkOutcome [] (Some (respond 200 Empty))
  else if negb (bool_decide (httpMethod r = "POST"))
  then mkOutcome [] (Some (respond 405 (Error "Method not allowed")))
  else match decoded r with
  | None => mkOutcome [] (Some (respond 401 (Error "Unauthorized")))
  | Some userId =>
  match body r with
  | None => mkOutcome [] (Some (respond 500 (Error "Server error")))
  | Some f =>
  if bool_decide (productName f = "") || bool_decide (productCategory f = "")
     || bool_decide (quantity f = Absent)
  then mkOutcome [] (Some (respond 400
         (Error "Missing required fields: productName, productCategory, quantity")))
  else
  match quantity f with
  | Absent | NotANumber =>
      mkOutcome [] (Some (respond 400 (Error "Quantity must be between 1 and 100,000")))
  | Parsed qty =>
  if (qty <? 1) || (qty >? 100000)
  then mkOutcome [] (Some (respond 400 (Error "Quantity must be between 1 and 100,000")))
  else match choose_batch_id e st f with
  | inr resp => mkOutcome [] (Some resp)
  | inl batchId => create e st userId f qty batchId
  end
  end
  end
  end.

(** The requests that get as far as creating the batch record. *)
Definition accepted (e : env) (st : Store.t) (r : request) (userId : nat)
    (f : fields) (qty : Z) (batchId : string) : Prop :=
  httpMethod r = "POST" /\ decoded r = Some userId /\ body r = Some f
  /\ quantity f = Parsed qty /\ productName f <> "" /\ productCategory f <> ""
  /\ 1 <= qty <= 100000 /\ choose_batch_id e st f = inl batchId.

End CreateBatch.

(** ** Scheduled generation (the cron function of admin-delete-user.js) *)

Module Scheduler.

Definition CODES_PER_RUN : Z := 10000.

(** What the processing of one batch meets: the random buffers of its
    [generateCodes] call and the storage faults of its statements. *)
Record batch_env := mkBatchEnv {
  tape : list (list byte);
  insert_fault : nat -> bool;
  update_fault : bool
}.

(** What one invocation meets; [per_batch k] is for the [k]-th batch it
    processes. *)
Record env := mkEnv {
  siteUrl : string;
  fetch_error : bool;
  per_batch : nat -> batch_env
}.

Record result := mkResult {
  r_batch_id : string;
  r_generated : Z;
  r_total : Z;
  r_target : Z;
  r_complete : bool
}.

Inductive payload :=
| Error (error : string)
| NoBatches
| Processed (processed : nat) (totalGenerated : Z) (results : list result).

Record response := respond {
  statusCode : Z;
  payload_of : payload
}.

(** The loop state: the store, the durable states so far (oldest
    first), [totalGenerated] and [results]. *)
Record run := mkRun {
  store : Store.t;
  states : list Store.t;
  totalGenerated : Z;
  results : list result
}.

(** The body of [for (const batch of incompleteBatches)]; [batch] is the
    row as the invocation fetched it. [None] when [generateCodes] has
    not returned. *)
Definition process_batch (site : string) (be : batch_env) (batch : BatchRow.t)
    (r : run) : option run :=
  let remaining := BatchRow.quantity batch - BatchRow.codes_generated batch in
  let toGenerate := Z.min CODES_PER_RUN remaining in
  match Generator.generateCodes (tape be) toGenerate with
  | None => None
  | Some codes =>
      let records :=
        Executor.buildRecords codes (BatchRow.id batch)
          (BatchRow.manufacturer_id batch) site in
      let p := Executor.insertCodes (insert_fault be) records (store r) in
      let inserted := Executor.inserted p in
      let newTotal := BatchRow.codes_generated batch + inserted in
      let isComplete := newTotal >=? BatchRow.quantity batch in
      let st' :=
        Store.update_batch_progress (update_fault be) (BatchRow.id batch) newTotal
          (if isComplete then complete else generating) (Executor.store p) in
      Some (mkRun st'
              (states r ++ Executor.written p ++ [st'])
              (totalGenerated r + inserted)
              (results r ++ [mkResult (BatchRow.batch_id batch) inserted newTotal
                               (BatchRow.quantity batch) isComplete]))
  end.

(** The [for] loop from the [k]-th batch on. The second component tells
    whether the loop ran to its end. *)
Fixpoint process_batches (e : env) (k : nat) (todo : list BatchRow.t) (r : run)
    : run * bool :=
  match todo with
  | [] => (r, true)
  | batch :: rest =>
      match process_batch (siteUrl e) (per_batch e k) batch r with
      | None => (r, false)
      | Some r' => process_batches e (S k) rest r'
      end
  end.

(** The batches one invocation works on: those still short of their
    quantity, at most ten, oldest first. *)
Definition incompleteBatches (allBatches : list BatchRow.t) : list BatchRow.t :=
  take 10
    (List.filter (fun batch => BatchRow.codes_generated batch <? BatchRow.quantity batch)
       allBatches).

Record outcome := mkOutcome {
  o_states : list Store.t;
  reply : option response
}.

Definition final (st : Store.t) (o : outcome) : Store.t := List.last (o_states o) st.

(** [exports.handler]. *)
Definition handler (e : env) (st : Store.t) : outcome :=
  if fetch_error e
  then mkOutcome [] (Some (respond 500 (Error "Failed to fetch incomplete batches")))
  else
    let allBatches := Store.select_generating st in
    if bool_decide (length allBatches = 0%nat)
    then mkOutcome [] (Some (respond 200 NoBatches))
    else
      let todo := incompleteBatches allBatches in
      if bool_decide (length todo = 0%nat)
      then mkOutcome [] (Some (respond 200 NoBatches))
      else
        let '(r, finished) := process_batches e 0 todo (mkRun st [] 0 []) in
        mkOutcome (states r)
          (if finished
           then Some (respond 200 (Processed (length todo) (totalGenerated r) (results r)))
           else None).

End Scheduler.

(** ** Code verification (the verify function of verify-email.js) *)

Module Verify.

(** The [code] of the query string or of the JSON body. *)
Inductive code_input :=
| Unparsable              (* JSON.parse(event.body) throws *)
| Missing
| Given (code : string).

Record request := mkRequest {
  httpMethod : string;
  code : code_input;
  x_forwarded_for : option string;
  x_real_ip : option string
}.

(** What one call meets outside the store: the clock, the answer of the
    geolocation service for an address ([None] when the lookup fails),
    and the storage faults of its statements. *)
Record env := mkEnv {
  now : string;
  geo : string -> option Location.t;
  lookup_fault : bool;
  update_fault : bool;
  log_fault : bool
}.

Inductive product_info :=
| DuplicateInfo (productName productCode batchId manufacturingDate expiringDate
                 firstVerifiedAt : option string)
| SuccessInfo (productName productCode category batchId manufacturingDate
               expiringDate : option string) (verifiedAt : string).

Inductive payload :=
| Error (error : string)
| Outcome (success : bool) (status : string) (message : string)
    (productInfo : option product_info).

Record response := respond {
  statusCode : Z;
  payload_of : payload
}.

(** [a || b] on header values: an absent or empty one is falsy. *)
Definition or_else (a : option string) (b : string) : string :=
  match a with
  | Some s => if bool_decide (s = "") then b else s
  | None => b
  end.

(** [event.headers['x-forwarded-for'] || event.headers['x-real-ip'] || 'unknown']. *)
Definition ipAddress (r : request) : string :=
  or_else (x_forwarded_for r) (or_else (x_real_ip r) "unknown").

(** [getIpLocation(ipAddress)]. *)
Definition getIpLocation (e : env) (ip : string) : option Location.t :=
  let cleanIp :=
    if negb (bool_decide (ip = "")) && Js.includes_comma ip
    then Js.trim (Js.before_comma ip) else ip in
  if bool_decide (cleanIp = "") || bool_decide (cleanIp = "unknown")
     || bool_decide (cleanIp = "::1") || Js.startsWith "127." cleanIp
  then None
  else geo e cleanIp.

Definition attempt (e : env) (r : request) (cleanCode : string) (res : attempt_result)
    (manufacturer batch : option nat) : AttemptRow.t :=
  AttemptRow.mk cleanCode "qr" res (ipAddress r) (getIpLocation e (ipAddress r))
    manufacturer batch.

Definition invalid_message : string :=
  "✗ INVALID CODE - Not found in our system. Possible fake product!".
Definition duplicate_message : string :=
  "⚠ WARNING: This product code has already been verified. This may be a FAKE or reused product!".
Definition success_message : string :=
  "✓ AUTHENTIC PRODUCT - Successfully verified! This is a genuine product.".

Definition duplicate_response (codeRecord : CodeRow.t) (b : option BatchRow.t) : response :=
  respond 200
    (Outcome false "duplicate" duplicate_message
       (Some (DuplicateInfo
                (BatchRow.product_name <$> b)
                (b ≫= BatchRow.product_code)
                (BatchRow.batch_id <$> b)
                (b ≫= BatchRow.manufacturing_date)
                (b ≫= BatchRow.expiring_date)
                (CodeRow.verified_at codeRecord)))).

Definition success_response (e : env) (b : option BatchRow.t) : response :=
  respond 200
    (Outcome true "success" success_message
       (Some (SuccessInfo
                (BatchRow.product_name <$> b)
                (b ≫= BatchRow.product_code)
                (BatchRow.product_category <$> b)
                (BatchRow.batch_id <$> b)
                (b ≫= BatchRow.manufacturing_date)
                (b ≫= BatchRow.expiring_date)
                (now e)))).

(** Where a call stands between its storage statements. *)
Inductive phase :=
| Start
| Looked (cleanCode : string) (found : option (CodeRow.t * option BatchRow.t))
| Marked (cleanCode : string) (codeRecord : CodeRow.t) (b : option BatchRow.t)
    (updateError : bool)
| Done (resp : response).

(** Up to and including the lookup. *)
Definition lookup (e : env) (st : Store.t) (r : request) : phase :=
  if negb (bool_decide (httpMethod r = "GET")) && negb (bool_decide (httpMethod r = "POST"))
  then Done (respond 405 (Error "Method not allowed"))
  else match code r with
  | Unparsable =>
      Done (respond 500
        (Outcome false "error" "Verification system error. Please try again." None))
  | Missing => Done (respond 400 (Error "Verification code required"))
  | Given c =>
      if bool_decide (c = "")
      then Done (respond 400 (Error "Verification code required"))
      else
        let cleanCode := Js.toUpperCase (Js.trim c) in
        Looked cleanCode
          (if lookup_fault e then None
           else match Store.select_code_single cleanCode st with
                | Some codeRecord => Some (codeRecord, Store.joined_batch codeRecord st)
                | None => None
                end)
  end.

(** One storage statement of a call, with the code around it. After the
    lookup: an unknown code or an already verified one is logged and
    answered; an active one gets the conditional update. After the
    update: the attempt is logged as a success and answered so. *)
Definition step (e : env) (r : request) (st : Store.t) (ph : phase)
    : Store.t * phase :=
  match ph with
  | Start => (st, lookup e st r)
  | Looked cleanCode None =>
      (Store.insert_verification (log_fault e)
         (attempt e r cleanCode invalid None None) st,
       Done (respond 200 (Outcome false "invalid" invalid_message None)))
  | Looked cleanCode (Some (codeRecord, b)) =>
      if bool_decide (CodeRow.status codeRecord = verified)
      then (Store.insert_verification (log_fault e)
              (attempt e r cleanCode duplicate
                 (Some (CodeRow.manufacturer_id codeRecord))
                 (Some (CodeRow.batch_id codeRecord))) st,
            Done (duplicate_response codeRecord b))
      else
        let '(st', updateError) :=
          Store.update_code_verified (update_fault e) cleanCode (now e) st in
        (st', Marked cleanCode codeRecord b updateError)
  | Marked cleanCode codeRecord b _ =>
      (Store.insert_verification (log_fault e)
         (attempt e r cleanCode success
            (Some (CodeRow.manufacturer_id codeRecord))
            (Some (CodeRow.batch_id codeRecord))) st,
       Done (success_response e b))
  | Done resp => (st, Done resp)
  end.

(** A call run alone: lookup, then at most two more statements. *)
Definition handler (e : env) (st : Store.t) (r : request) : Store.t * phase :=
  let '(st1, p1) := step e r st Start in
  let '(st2, p2) := step e r st1 p1 in
  step e r st2 p2.

(** The outcome a finished call reports: the [status] of its body. *)
Definition status_of (ph : phase) : option string :=
  match ph with
  | Done (respond _ (Outcome _ s _ _)) => Some s
  | _ => None
  end.

(** *** Calls running side by side

    Each call is a thread with its own request, environment and phase;
    a schedule names, statement by statement, the thread that moves. *)
Record thread := mkThread {
  t_env : env;
  t_request : request;
  t_phase : phase
}.

Definition spawn (e : env) (r : request) : thread := mkThread e r Start.

Definition move (i : nat) (w : Store.t * list thread) : Store.t * list thread :=
  match w.2 !! i with
  | Some t =>
      let '(st', ph') := step (t_env t) (t_request t) w.1 (t_phase t) in
      (st', <[i := mkThread (t_env t) (t_request t) ph']> w.2)
  | None => w
  end.

Definition run (schedule : list nat) (w : Store.t * list thread) : Store.t * list thread :=
  fold_left (fun w i => move i w) schedule w.

(** The phases left to a call that has read [codeRecord] for
    [cleanCode]: about to update, about to log, or done with the success
    answer. *)
Definition after_read (e : env) (cleanCode : string) (codeRecord : CodeRow.t)
    (b : option BatchRow.t) (ph : phase) : Prop :=
  ph = Looked cleanCode (Some (codeRecord, b))
  \/ (exists updateError, ph = Marked cleanCode codeRecord b updateError)
  \/ ph = Done (success_response e b).

Definition logged (res : attempt_result) (c : string) (st : Store.t) : nat :=
  length (List.filter
            (fun a => bool_decide (AttemptRow.result a = res)
                      && bool_decide (AttemptRow.code a = c))
            (Store.verifications st)).

End Verify.

(** ** The verification workflow of the Express backend ([verifyCode])

    The document-store variant: codes, batches and users are documents
    with an [_id]; a code has four statuses and a scan counter. *)

Module Workflow.

Inductive status := active | verified | flagged | expired.

#[global] Instance status_eq_dec : EqDecision status.
Proof. solve_decision. Defined.

Record code_doc := mkCode {
  _id : nat;
  code : string;
  batchId : nat;
  manufacturerId : nat;
  code_status : status;
  verifiedAt : option Z;
  verificationMethod : option string;
  verificationCount : Z;
  lastVerificationAttempt : option Z
}.

Record batch_doc := mkBatch {
  b_id : nat;
  b_batchId : string;
  productName : string;
  codesVerified : Z;
  codesFlagged : Z
}.

Record user_doc := mkUser {
  u_id : nat;
  companyName : string
}.

Record metadata := mkMetadata {
  phone : option string;
  messageId : option string;
  ip : option string;
  userAgent : option string
}.

Record log_doc := mkLog {
  l_code : string;
  l_codeId : option nat;
  l_batchId : option nat;
  l_manufacturerId : option nat;
  l_method : string;
  l_result : string;
  l_responseMessage : string;
  l_timestamp : Z;
  l_senderPhone : option string;
  l_smsMessageId : option string;
  l_ipAddress : option string;
  l_userAgent : option string
}.

Record db := mkDb {
  codes : list code_doc;
  batches : list batch_doc;
  users : list user_doc;
  verifications : list log_doc
}.

Record env := mkEnv {
  now : Z;
  log_fault : bool
}.

Record result := mkResult {
  r_status : string;
  r_result : string;
  r_message : string;
  r_isAuthentic : bool;
  r_previousVerification : option (option Z * option string);
  r_product : option (string * string * option string);
  r_verifiedAt : option Z
}.

Inductive completion :=
| Returned (r : result)
| Thrown.                  (* a TypeError on a reference that populated to null *)

(** [logVerification(...)]: the log document with the fields of its
    method; a failing [create] is caught and dropped. *)
Definition logVerification (e : env) (c : string) (codeId : option nat) (method res : string)
    (m : metadata) (responseMessage : string) (batch manufacturer : option nat)
    (d : db) : db :=
  let sms := bool_decide (method = "sms") in
  let qr := negb sms && bool_decide (method = "qr") in
  let doc :=
    mkLog c codeId batch manufacturer method res responseMessage (now e)
      (if sms then phone m else None) (if sms then messageId m else None)
      (if qr then ip m else None) (if qr then userAgent m else None) in
  if log_fault e then d
  else mkDb (codes d) (batches d) (users d) (verifications d ++ [doc]).

(** [Code.findByIdAndUpdate(id, change)]. *)
Definition update_code (id : nat) (change : code_doc -> code_doc) (d : db) : db :=
  mkDb (map (fun c => if bool_decide (_id c = id) then change c else c) (codes d))
    (batches d) (users d) (verifications d).

(** [Batch.findByIdAndUpdate(id, { $inc: ... })]. *)
Definition update_batch (id : nat) (change : batch_doc -> batch_doc) (d : db) : db :=
  mkDb (codes d)
    (map (fun b => if bool_decide (b_id b = id) then change b else b) (batches d))
    (users d) (verifications d).

(** The repeat scan of a verified code: count it and flag the code. *)
Definition flag (e : env) (codeRecord c : code_doc) : code_doc :=
  mkCode (_id c) (code c) (batchId c) (manufacturerId c) flagged (verifiedAt c)
    (verificationMethod c) (verificationCount codeRecord + 1) (Some (now e)).

(** The first scan of an active code. *)
Definition mark (e : env) (method : string) (c : code_doc) : code_doc :=
  mkCode (_id c) (code c) (batchId c) (manufacturerId c) verified (Some (now e))
    (Some method) 1 (Some (now e)).

Definition invalid_result (msg : string) : result :=
  mkResult "error" "invalid" msg false None None None.

(** [verifyCode(code, method, metadata)]. [input] is [None] for a
    missing code. *)
Definition verifyCode (e : env) (d : db) (input : option string) (method : string)
    (m : metadata) : db * completion :=
  match input with
  | None =>
      (logVerification e "" None method "invalid" m "Invalid code format" None None d,
       Returned (invalid_result "Invalid code format"))
  | Some c =>
  if bool_decide (c = "") || (Js.length c <? 8)%nat
  then (logVerification e c None method "invalid" m "Invalid code format" None None d,
        Returned (invalid_result "Invalid code format"))
  else
  match List.find (fun r => bool_decide (code r = c)) (codes d) with
  | None =>
      let msg :=
        "Invalid code - not found in our system. Please contact the manufacturer." in
      (logVerification e c None method "invalid" m msg None None d,
       Returned (invalid_result msg))
  | Some codeRecord =>
  let batch := List.find (fun b => bool_decide (b_id b = batchId codeRecord)) (batches d) in
  let manufacturer :=
    List.find (fun u => bool_decide (u_id u = manufacturerId codeRecord)) (users d) in
  if bool_decide (code_status codeRecord = verified) then
    match batch with
    | None => (d, Thrown)
    | Some b =>
        let msg :=
          "WARNING: This product has already been verified. This may be a counterfeit or reused label." in
        let res :=
          mkResult "warning" "duplicate" msg false
            (Some (verifiedAt codeRecord, verificationMethod codeRecord))
            (Some (productName b, b_batchId b, None)) None in
        let d1 := update_code (_id codeRecord) (flag e codeRecord) d in
        let d2 :=
          update_batch (b_id b)
            (fun x => mkBatch (b_id x) (b_batchId x) (productName x) (codesVerified x)
                        (codesFlagged x + 1)) d1 in
        match manufacturer with
        | None => (d2, Thrown)
        | Some u =>
            (logVerification e c (Some (_id codeRecord)) method "duplicate" m msg
               (Some (b_id b)) (Some (u_id u)) d2,
             Returned res)
        end
    end
  else if bool_decide (code_status codeRecord = flagged) then
    match batch, manufacturer with
    | Some b, Some u =>
        let msg :=
          "WARNING: This code has been flagged due to multiple verification attempts. Possible counterfeit." in
        (logVerification e c (Some (_id codeRecord)) method "duplicate" m msg
           (Some (b_id b)) (Some (u_id u)) d,
         Returned (mkResult "warning" "duplicate" msg false None
                     (Some (productName b, b_batchId b, None)) None))
    | _, _ => (d, Thrown)
    end
  else
    let d1 := update_code (_id codeRecord) (mark e method) d in
    match batch with
    | None => (d1, Thrown)
    | Some b =>
        let d2 :=
          update_batch (b_id b)
            (fun x => mkBatch (b_id x) (b_batchId x) (productName x) (codesVerified x + 1)
                        (codesFlagged x)) d1 in
        match manufacturer with
        | None => (d2, Thrown)
        | Some u =>
            let msg := "✓ AUTHENTIC PRODUCT VERIFIED" in
            (logVerification e c (Some (_id codeRecord)) method "success" m msg
               (Some (b_id b)) (Some (u_id u)) d2,
             Returned (mkResult "success" "success" msg true None
                         (Some (productName b, b_batchId b, Some (companyName u)))
                         (Some (now e))))
        end
    end
  end
  end.

End Workflow.

(** ** The step-by-step workflow of the backend ([executeVerificationWorkflow])

    verificationWorkflow.js: the same verification over the document
    store, where the result of the conditional update is read. *)

Module VerificationWorkflow.

Record code_doc := mkCode {
  code : string;
  batch : nat;
  manufacturer : nat;
  status : Workflow.status;
  verifiedAt : option Z;
  verificationMethod : option string;
  verificationCount : Z
}.

Record batch_doc := mkBatch {
  b_id : nat;
  batchId : string;
  productName : string;
  manufacturingDate : option Z
}.

Record user_doc := mkUser {
  u_id : nat;
  companyName : string
}.

Record metadata := mkMetadata {
  phoneNumber : option string;
  ipAddress : option string;
  userAgent : option string;
  location : option string
}.

Record log_doc := mkLog {
  l_code : option string;
  l_method : string;
  l_result : string;
  l_phoneNumber : option string;
  l_ipAddress : option string;
  l_userAgent : option string;
  l_location : option string;
  l_timestamp : Z
}.

Record db := mkDb {
  codes : list code_doc;
  batches : list batch_doc;
  users : list user_doc;
  verifications : list log_doc
}.

Record env := mkEnv {
  now : Z;
  lookup_fault : bool;
  update_fault : bool;
  log_fault : bool
}.

Inductive product_info :=
| DuplicateInfo (productName manufacturer : option string) (firstVerifiedAt : option Z)
| FlaggedInfo (productName manufacturer : option string)
| SuccessInfo (productName manufacturer batchId : option string)
    (manufacturingDate : option Z).

(** What [checkCodeStatus] returns. *)
Record check := mkCheck {
  c_status : string;
  c_message : string;
  shouldUpdate : bool;
  productInfo : option product_info
}.

Record result := mkResult {
  success : bool;
  r_status : string;
  r_message : string;
  r_productInfo : option product_info;
  verificationTime : option Z
}.

(** [validateCodeFormat(code)]: the trimmed, upper-cased code, or the
    error. *)
Definition validateCodeFormat (input : option string) : string + string :=
  match input with
  | None => inr "Code is required"
  | Some code =>
      if bool_decide (code = "") then inr "Code is required"
      else
        let trimmedCode := Js.toUpperCase (Js.trim code) in
        if (Js.length trimmedCode <? 8)%nat || (16 <? Js.length trimmedCode)%nat
        then inr "Invalid code format"
        else inl trimmedCode
  end.

(** [lookupCode(code)], with [batch] and [manufacturer] populated. *)
Definition lookupCode (d : db) (c : string)
    : option (code_doc * option batch_doc * option user_doc) :=
  match List.find (fun r => bool_decide (code r = c)) (codes d) with
  | Some r =>
      Some (r,
            List.find (fun b => bool_decide (b_id b = batch r)) (batches d),
            List.find (fun u => bool_decide (u_id u = manufacturer r)) (users d))
  | None => None
  end.

(** [checkCodeStatus(codeRecord)]. *)
Definition checkCodeStatus
    (codeRecord : option (code_doc * option batch_doc * option user_doc)) : check :=
  match codeRecord with
  | None =>
      mkCheck "invalid" "Invalid code - not found in our system. Contact manufacturer."
        false None
  | Some (r, b, u) =>
      if bool_decide (status r = Workflow.verified) then
        mkCheck "duplicate"
          "WARNING: This product was already verified. Possible fake or reused item."
          false
          (Some (DuplicateInfo (productName <$> b) (companyName <$> u) (verifiedAt r)))
      else if bool_decide (status r = Workflow.flagged) then
        mkCheck "flagged" "This code has been flagged. Contact manufacturer immediately."
          false
          (Some (FlaggedInfo (productName <$> b) (companyName <$> u)))
      else
        mkCheck "success" "Authentic product verified successfully!" true
          (Some (SuccessInfo (productName <$> b) (companyName <$> u) (batchId <$> b)
                   (b ≫= manufacturingDate)))
  end.

(** [Code.findOneAndUpdate({ code, status: 'active' }, change)]: the
    first matching document is changed; the flag tells whether there was
    one. *)
Fixpoint update_first_active (c : string) (change : code_doc -> code_doc)
    (l : list code_doc) : list code_doc * bool :=
  match l with
  | [] => ([], false)
  | r :: rest =>
      if bool_decide (code r = c) && bool_decide (status r = Workflow.active)
      then (change r :: rest, true)
      else let '(rest', found) := update_first_active c change rest in
           (r :: rest', found)
  end.

(** [markCodeAsVerified(code, method)]: [updateResult !== null]. *)
Definition markCodeAsVerified (e : env) (d : db) (c method : string) : db * bool :=
  let '(codes', updated) :=
    update_first_active c
      (fun r => mkCode (code r) (batch r) (manufacturer r) Workflow.verified
                  (Some (now e)) (Some method) (verificationCount r + 1))
      (codes d) in
  (mkDb codes' (batches d) (users d) (verifications d), updated).

(** [logVerification(code, method, result, metadata)]; a failing
    [create] is caught and dropped. *)
Definition logVerification (e : env) (c : option string) (method res : string)
    (m : metadata) (d : db) : db :=
  if log_fault e then d
  else mkDb (codes d) (batches d) (users d)
         (verifications d
          ++ [mkLog c method res (Js.or_null (phoneNumber m)) (Js.or_null (ipAddress m))
                (Js.or_null (userAgent m)) (Js.or_null (location m)) (now e)]).

(** Where a call stands after steps 1 to 3. *)
Inductive examined :=
| Malformed (error : string)
| LookupFailed
| Checked (c : string) (statusCheck : check).

(** Steps 1 to 3: validate, look up, check. *)
Definition examine (e : env) (d : db) (input : option string) : examined :=
  match validateCodeFormat input with
  | inr error => Malformed error
  | inl c =>
      if lookup_fault e then LookupFailed
      else Checked c (checkCodeStatus (lookupCode d c))
  end.

Definition system_error : result :=
  mkResult false "error" "System error during verification. Please try again." None None.

(** Steps 4 and 5 and the return, on the store as it is by then. *)
Definition conclude (e : env) (d : db) (input : option string) (method : string)
    (m : metadata) (x : examined) : db * result :=
  match x with
  | Malformed error =>
      (logVerification e input method "error" m d,
       mkResult false "error" error None None)
  | LookupFailed => (logVerification e input method "error" m d, system_error)
  | Checked c statusCheck =>
      if shouldUpdate statusCheck then
        if update_fault e
        then (logVerification e input method "error" m d, system_error)
        else
          let '(d1, updated) := markCodeAsVerified e d c method in
          let statusCheck' :=
            if updated then statusCheck
            else mkCheck "duplicate" "Code was just verified by another request" false
                   (productInfo statusCheck) in
          (logVerification e (Some c) method (c_status statusCheck') m d1,
           mkResult (bool_decide (c_status statusCheck' = "success"))
             (c_status statusCheck') (c_message statusCheck')
             (productInfo statusCheck') (Some (now e)))
      else
        (logVerification e (Some c) method (c_status statusCheck) m d,
         mkResult (bool_decide (c_status statusCheck = "success"))
           (c_status statusCheck) (c_message statusCheck)
           (productInfo statusCheck) (Some (now e)))
  end.

(** [executeVerificationWorkflow(inputCode, method, metadata)]. *)
Definition executeVerificationWorkflow (e : env) (d : db) (input : option string)
    (method : string) (m : metadata) : db * result :=
  conclude e d input method m (examine e d input).

End VerificationWorkflow.

(** ** Background generation ([generateCodesInBackground])

    The generator of the earlier create-batch function: codes are drawn
    one at a time, checked against the stored codes, and written in
    sub-chunks, the batch's count being updated after each written one. *)

Module Background.

Definition chunkSize : Z := 5000.
Definition insertChunkSize : nat := 500.

(** The faults are indexed by the loop variables of the statement:
    [offset] of the outer loop and [i] of the inner one. *)
Record env := mkEnv {
  siteUrl : string;
  tape : list (list byte);
  select_fault : Z -> bool;
  insert_fault : Z -> nat -> bool;
  update_fault : Z -> nat -> bool
}.

(** The loop state: the store, [totalGenerated], the random buffers
    still to come, and the store as it stood each time the inner loop
    moved on from a sub-chunk (oldest first). *)
Record run := mkRun {
  store : Store.t;
  totalGenerated : Z;
  rest : list (list byte);
  boundaries : list Store.t
}.

(** [while (codesSet.size < currentChunkSize && attempts < maxAttempts)],
    with [left] attempts to go. *)
Fixpoint fill_set (left : nat) (tp : list (list byte)) (codesSet : list string)
    (currentChunkSize : Z) : option (list string * list (list byte)) :=
  match left with
  | O => Some (codesSet, tp)
  | S left' =>
      if Z.of_nat (length codesSet) <? currentChunkSize then
        match tp with
        | [] => None
        | bytes :: tp' =>
            fill_set left' tp' (Js.set_add (Generator.generateCode bytes) codesSet)
              currentChunkSize
        end
      else Some (codesSet, tp)
  end.

(** [while (finalCodes.length < currentChunkSize)]: replacements for the
    codes that were found in the store. *)
Fixpoint replacements (tp : list (list byte)) (finalCodes existing : list string)
    (currentChunkSize : Z) {struct tp} : option (list string * list (list byte)) :=
  if Z.of_nat (length finalCodes) <? currentChunkSize then
    match tp with
    | [] => None
    | bytes :: tp' =>
        let code := Generator.generateCode bytes in
        replacements tp'
          (if negb (bool_decide (code ∈ finalCodes)) && negb (bool_decide (code ∈ existing))
           then finalCodes ++ [code] else finalCodes)
          existing currentChunkSize
    end
  else Some (finalCodes, tp).

(** The body of the inner loop: insert the sub-chunk at [i] and, when
    that went through, add its length to [totalGenerated] and write the
    count to the batch. *)
Definition insert_step (e : env) (batch : nat) (offset : Z) (i : nat)
    (codeRecords : list CodeRow.t) (r : run) : run :=
  let insertChunk := Js.slice i (i + insertChunkSize) codeRecords in
  let '(st1, insertError) :=
    Store.insert_codes (insert_fault e offset i) insertChunk (store r) in
  if insertError then mkRun st1 (totalGenerated r) (rest r) (boundaries r ++ [st1])
  else
    let total := totalGenerated r + Z.of_nat (length insertChunk) in
    let st2 := Store.update_batch_count (update_fault e offset i) batch total st1 in
    mkRun st2 total (rest r) (boundaries r ++ [st2]).

(** [for (let i = 0; i < codeRecords.length; i += insertChunkSize)]. *)
Fixpoint insert_loop (fuel : nat) (e : env) (batch : nat) (offset : Z) (i : nat)
    (codeRecords : list CodeRow.t) (r : run) : run :=
  match fuel with
  | O => r
  | S fuel' =>
      if (i <? length codeRecords)%nat
      then insert_loop fuel' e batch offset (i + insertChunkSize) codeRecords
             (insert_step e batch offset i codeRecords r)
      else r
  end.

(** The body of the outer loop for the chunk at [offset]. [None] when a
    generation loop has not returned. *)
Definition chunk (e : env) (batch : BatchRow.t) (quantity : Z) (userId : nat)
    (offset : Z) (r : run) : option run :=
  let currentChunkSize := Z.min chunkSize (quantity - offset) in
  let maxAttempts := currentChunkSize * 3 in
  match fill_set (Z.to_nat maxAttempts) (rest r) [] currentChunkSize with
  | None => None
  | Some (codesArray, tp1) =>
      let existingCodes :=
        if select_fault e offset then []
        else Store.select_codes_in codesArray (store r) in
      let kept :=
        List.filter (fun code => negb (bool_decide (code ∈ existingCodes))) codesArray in
      match replacements tp1 kept existingCodes currentChunkSize with
      | None => None
      | Some (finalCodes, tp2) =>
          let codeRecords :=
            Executor.buildRecords finalCodes (BatchRow.id batch) userId (siteUrl e) in
          Some (insert_loop (length codeRecords) e (BatchRow.id batch) offset 0 codeRecords
                  (mkRun (store r) (totalGenerated r) tp2 (boundaries r)))
      end
  end.

(** [for (let offset = 0; offset < quantity; offset += chunkSize)]. The
    second component tells whether the loop ran to its end. *)
Fixpoint chunks (fuel : nat) (e : env) (batch : BatchRow.t) (quantity : Z)
    (userId : nat) (offset : Z) (r : run) : run * bool :=
  match fuel with
  | O => (r, true)
  | S fuel' =>
      if offset <? quantity then
        match chunk e batch quantity userId offset r with
        | None => (r, false)
        | Some r' => chunks fuel' e batch quantity userId (offset + chunkSize) r'
        end
      else (r, true)
  end.

(** [generateCodesInBackground(batch, quantity, userId)]. *)
Definition generateCodesInBackground (e : env) (st : Store.t) (batch : BatchRow.t)
    (quantity : Z) (userId : nat) : run * bool :=
  chunks (Z.to_nat quantity) e batch quantity userId 0 (mkRun st 0 (tape e) []).

End Background.

(** ** The system as a whole *)

Module System.

(** One durable step of the deployed functions: a state an invocation
    of batch creation or of the scheduled generation leaves behind
    (after any of its writes, so that an interrupted invocation is
    covered), or one storage statement of a verification call in
    whatever phase it is. *)
Inductive transition : Store.t -> Store.t -> Prop :=
| create_batch e r st st' :
    st' ∈ CreateBatch.states (CreateBatch.handler e st r) -> transition st st'
| scheduled e st st' :
    st' ∈ Scheduler.o_states (Scheduler.handler e st) -> transition st st'
| verification e r ph st :
    transition st (Verify.step e r st ph).1.

Definition reachable (st : Store.t) : Prop := rtc transition Store.empty st.

(** The same with the background generator writing to the store too. *)
Inductive write : Store.t -> Store.t -> Prop :=
| deployed st st' : transition st st' -> write st st'
| background e batch quantity userId st st' :
    st' ∈ Background.boundaries
            (Background.generateCodesInBackground e st batch quantity userId).1 ->
    write st st'.

(** The scheduler run once per environment of [es], each run to its end. *)
Definition ticks (es : list Scheduler.env) (st : Store.t) : Store.t :=
  fold_left (fun st e => Scheduler.final st (Scheduler.handler e st)) es st.

(** The rows of [codes] that belong to batch [i]. *)
Definition codes_of_batch (i : nat) (st : Store.t) : list CodeRow.t :=
  List.filter (fun r => bool_decide (CodeRow.batch_id r = i)) (Store.codes st).

(** The invariants of the batch table: identifiers are the positions,
    and every batch has generated at most its quantity and is complete
    exactly when it has generated all of it. *)
Definition batch_ok (b : BatchRow.t) : Prop :=
  BatchRow.codes_generated b <= BatchRow.quantity b
  /\ (BatchRow.status b = complete <-> BatchRow.codes_generated b = BatchRow.quantity b).

Definition ids_ok (st : Store.t) : Prop :=
  map BatchRow.id (Store.batches st) = seq 0 (length (Store.batches st)).

Definition codes_distinct (st : Store.t) : Prop :=
  NoDup (Store.code_values (Store.codes st)).

Definition invariant (st : Store.t) : Prop :=
  ids_ok st /\ codes_distinct st /\ Forall batch_ok (Store.batches st).

(** How a batch row may differ after a step: same identity and
    quantity, a count that has not gone down, and no change at all once
    complete. *)
Definition batch_step (b b' : BatchRow.t) : Prop :=
  BatchRow.id b' = BatchRow.id b
  /\ BatchRow.quantity b' = BatchRow.quantity b
  /\ BatchRow.codes_generated b <= BatchRow.codes_generated b'
  /\ (BatchRow.status b = complete -> b' = b).

(** How a code row may differ after a step: not at all, or an active
    row marked verified. *)
Definition code_step (r r' : CodeRow.t) : Prop :=
  r' = r \/ (CodeRow.status r = active /\ exists now, r' = Store.mark_verified now r).

Definition advances (st st' : Store.t) : Prop :=
  (forall i b, Store.batches st !! i = Some b ->
               exists b', Store.batches st' !! i = Some b' /\ batch_step b b')
  /\ (forall i r, Store.codes st !! i = Some r ->
                  exists r', Store.codes st' !! i = Some r' /\ code_step r r').

(** Batch [c] and its codes are the same in both stores. *)
Definition keeps (c : nat) (st st' : Store.t) : Prop :=
  Store.batches st' !! c = Store.batches st !! c
  /\ codes_of_batch c st' = codes_of_batch c st.

(** A state the executor passes through: the store it started from
    with rows of [rows] appended, the code values distinct if they were. *)
Definition grown (rows : list CodeRow.t) (st st' : Store.t) : Prop :=
  Store.extends rows st st'
  /\ (codes_distinct st -> codes_distinct st').

End System.

(** ** Accounts: the [users] table and the functions around it *)

(** A row of [users]. [id] is the UUID of the account (a natural here),
    [password] the stored hash, [verification_token_expires] the instant
    in milliseconds. *)
Module UserRow.
Record t := mk {
  id : nat;
  email : string;
  password : string;
  company_name : string;
  company_domain : string;
  role : string;
  email_verified : bool;
  verification_token : option string;
  verification_token_expires : option Z;
  is_approved : bool
}.
End UserRow.

Module Users.

(** The table, in creation order. *)
Abbreviation t := (list UserRow.t) (only parsing).

(** [.select(..).eq(..).single()]: the row when exactly one matches,
    an error otherwise. *)
Definition single (p : UserRow.t -> bool) (users : t) : option UserRow.t :=
  match List.filter p users with
  | [u] => Some u
  | _ => None
  end.

Definition by_id (i : nat) (u : UserRow.t) : bool := bool_decide (UserRow.id u = i).

Definition by_email (s : string) (u : UserRow.t) : bool :=
  bool_decide (UserRow.email u = s).

Definition by_token (s : string) (u : UserRow.t) : bool :=
  bool_decide (UserRow.verification_token u = Some s).

(** [.update(change).eq('id', i)]. *)
Definition update_by_id (i : nat) (change : UserRow.t -> UserRow.t) (users : t) : t :=
  map (fun u => if by_id i u then change u else u) users.

(** [.delete().eq('id', i)]. *)
Definition delete_by_id (i : nat) (users : t) : t :=
  List.filter (fun u => negb (by_id i u)) users.

(** [.insert([row])]: the primary key refuses an [id] that is taken. *)
Definition insert (row : UserRow.t) (users : t) : option t :=
  if bool_decide (UserRow.id row ∈ map UserRow.id users) then None
  else Some (users ++ [row])%list.

(** The role check both administrator functions start with:
    [.select('role').eq('id', userId).single()], then
    [user && user.role === 'admin']. *)
Definition is_admin (users : t) (userId : nat) : bool :=
  match single (by_id userId) users with
  | Some user => bool_decide (UserRow.role user = "admin")
  | None => false
  end.

End Users.

(** *** Registration (register.js) *)

Module Register.

Definition FREE_EMAIL_PROVIDERS : list string :=
  ["gmail.com"; "yahoo.com"; "hotmail.com"; "outlook.com"; "live.com";
   "aol.com"; "icloud.com"; "mail.com"; "protonmail.com"].

(** The parsed body; an absent field is the empty string. *)
Record fields := mkFields {
  email : string;
  password : string;
  companyName : string;
  companyDomain : string
}.

(** [body] is [None] when [JSON.parse] throws. *)
Record request := mkRequest {
  httpMethod : string;
  body : option fields
}.

(** What the invocation meets: the hash [bcrypt.hash] gives, the token
    [generateVerificationToken()] draws, the instant [tokenExpiry] holds
    after [setHours(getHours() + 24)], the identifier the store assigns,
    a storage fault of the insert, and whether the mail went out. *)
Record env := mkEnv {
  hash : string -> string;
  verificationToken : string;
  tokenExpiry : Z;
  new_id : nat;
  insert_fault : bool;
  emailSent : bool
}.

Inductive payload :=
| Error (error : string)
| Registered (email companyName : string) (emailSent : bool).

Record response := respond {
  statusCode : Z;
  payload_of : payload
}.

(** [exports.handler]. *)
Definition handler (e : env) (users : Users.t) (r : request) : Users.t * response :=
  if negb (bool_decide (httpMethod r = "POST"))
  then (users, respond 405 (Error "Method not allowed"))
  else match body r with
  | None => (users, respond 500 (Error "Server error during registration"))
  | Some f =>
  if bool_decide (email f = "") || bool_decide (password f = "")
     || bool_decide (companyName f = "") || bool_decide (companyDomain f = "")
  then (users, respond 400 (Error "All fields are required"))
  else
  let emailDomain := Js.toLowerCase <$> Js.after_at (email f) in
  if match emailDomain with
     | Some d => bool_decide (d ∈ FREE_EMAIL_PROVIDERS)
     | None => false
     end
  then (users,
        respond 400 (Error "Free email providers not allowed. Use your company email."))
  else if negb (bool_decide (emailDomain = Some (Js.toLowerCase (companyDomain f))))
  then (users, respond 400 (Error "Email domain must match company domain"))
  else match Users.single (Users.by_email (Js.toLowerCase (email f))) users with
  | Some _ => (users, respond 400 (Error "Email already registered"))
  | None =>
      let row :=
        UserRow.mk (new_id e) (Js.toLowerCase (email f)) (hash e (password f))
          (companyName f) (Js.toLowerCase (companyDomain f)) "manufacturer" false
          (Some (verificationToken e)) (Some (tokenExpiry e)) false in
      match (if insert_fault e then None else Users.insert row users) with
      | None => (users, respond 500 (Error "Registration failed"))
      | Some users' =>
          (users',
           respond 201
             (Registered (UserRow.email row) (UserRow.company_name row) (emailSent e)))
      end
  end
  end.

End Register.

(** *** Email verification (the first function of verify-email.js) *)

Module VerifyEmail.

(** [token] is [event.queryStringParameters?.token]. *)
Record request := mkRequest {
  httpMethod : string;
  token : option string
}.

Record env := mkEnv {
  now : Z;
  fetch_error : bool;
  update_error : bool
}.

Inductive payload :=
| Error (error : string)
| Expired (error : string)
| AlreadyVerified (message : string)
| Verified (message : string) (email : string).

Record response := respond {
  statusCode : Z;
  payload_of : payload
}.

(** The update of the handler:
    [{ email_verified: true, verification_token: null,
       verification_token_expires: null }]. *)
Definition verified (u : UserRow.t) : UserRow.t :=
  UserRow.mk (UserRow.id u) (UserRow.email u) (UserRow.password u)
    (UserRow.company_name u) (UserRow.company_domain u) (UserRow.role u)
    true None None (UserRow.is_approved u).

(** [new Date(user.verification_token_expires)]: a null column reads as
    the epoch. *)
Definition tokenExpiry (u : UserRow.t) : Z :=
  default 0 (UserRow.verification_token_expires u).

(** [exports.handler]. *)
Definition handler (e : env) (users : Users.t) (r : request) : Users.t * response :=
  if negb (bool_decide (httpMethod r = "GET"))
  then (users, respond 405 (Error "Method not allowed"))
  else match token r with
  | None => (users, respond 400 (Error "Verification token is required"))
  | Some tk =>
  if bool_decide (tk = "")
  then (users, respond 400 (Error "Verification token is required"))
  else
  match (if fetch_error e then None else Users.single (Users.by_token tk) users) with
  | None => (users, respond 400 (Error "Invalid or expired verification token"))
  | Some user =>
      if UserRow.email_verified user
      then (users, respond 200 (AlreadyVerified "Email already verified. You can now login."))
      else if now e >? tokenExpiry user
      then (users,
            respond 400
              (Expired
                 "Verification token has expired. Please request a new verification email."))
      else if update_error e
      then (users, respond 500 (Error "Failed to verify email"))
      else (Users.update_by_id (UserRow.id user) verified users,
            respond 200
              (Verified "Email verified successfully! You can now login."
                 (UserRow.email user)))
  end
  end.

End VerifyEmail.

(** *** A new verification link (resend-verification.js) *)

Module ResendVerification.

(** [body] is [None] when [JSON.parse] throws; [Some ""] stands for a
    body without [email]. *)
Record request := mkRequest {
  httpMethod : string;
  body : option string
}.

Record env := mkEnv {
  verificationToken : string;
  tokenExpiry : Z;
  fetch_error : bool;
  update_error : bool;
  emailSent : bool
}.

Inductive payload :=
| Error (error : string)
| Sent (message : string).

Record response := respond {
  statusCode : Z;
  payload_of : payload
}.

(** The update of the handler: a new token and a new expiry. *)
Definition renewed (e : env) (u : UserRow.t) : UserRow.t :=
  UserRow.mk (UserRow.id u) (UserRow.email u) (UserRow.password u)
    (UserRow.company_name u) (UserRow.company_domain u) (UserRow.role u)
    (UserRow.email_verified u) (Some (verificationToken e)) (Some (tokenExpiry e))
    (UserRow.is_approved u).

(** [exports.handler]. *)
Definition handler (e : env) (users : Users.t) (r : request) : Users.t * response :=
  if negb (bool_decide (httpMethod r = "POST"))
  then (users, respond 405 (Error "Method not allowed"))
  else match body r with
  | None => (users, respond 500 (Error "Server error"))
  | Some email =>
  if bool_decide (email = "")
  then (users, respond 400 (Error "Email is required"))
  else
  match (if fetch_error e then None
         else Users.single (Users.by_email (Js.toLowerCase email)) users) with
  | None =>
      (users,
       respond 200
         (Sent "If an account exists with this email, a verification link has been sent."))
  | Some user =>
      if UserRow.email_verified user
      then (users, respond 400 (Error "Email is already verified. You can login now."))
      else if update_error e
      then (users, respond 500 (Error "Failed to generate verification link"))
      else
        let users' := Users.update_by_id (UserRow.id user) (renewed e) users in
        if negb (emailSent e)
        then (users',
              respond 500
                (Error "Failed to send verification email. Please try again later."))
        else (users', respond 200 (Sent "Verification email sent! Please check your inbox."))
  end
  end.

End ResendVerification.

(** *** Login (the third function of admin-users.js) *)

Module Login.

(** The parsed body; an absent field is the empty string. *)
Record credentials := mkCredentials {
  email : string;
  password : string
}.

Record request := mkRequest {
  httpMethod : string;
  body : option credentials
}.

(** [compare password hash] is [bcrypt.compare(password, user.password)]. *)
Record env := mkEnv {
  compare : string -> string -> bool;
  fetch_error : bool
}.

(** What [jwt.sign] signs. *)
Record claims := mkClaims {
  userId : nat;
  c_email : string;
  c_role : string
}.

Record profile := mkProfile {
  p_id : nat;
  p_email : string;
  companyName : string;
  p_company_domain : string;
  p_role : string;
  p_is_approved : bool
}.

Inductive payload :=
| Empty
| Error (error : string)
| EmailNotVerified (error : string) (email : string)
| LoggedIn (token : claims) (user : profile).

Record response := respond {
  statusCode : Z;
  payload_of : payload
}.

(** [exports.handler]; it reads [users] and writes nothing. *)
Definition handler (e : env) (users : Users.t) (r : request) : response :=
  if bool_decide (httpMethod r = "OPTIONS") then respond 200 Empty
  else if negb (bool_decide (httpMethod r = "POST"))
  then respond 405 (Error "Method not allowed")
  else match body r with
  | None => respond 500 (Error "Server error during login")
  | Some c =>
  if bool_decide (email c = "") || bool_decide (password c = "")
  then respond 400 (Error "Email and password required")
  else
  match (if fetch_error e then None
         else Users.single (Users.by_email (Js.toLowerCase (email c))) users) with
  | None => respond 401 (Error "Invalid credentials")
  | Some user =>
      if negb (compare e (password c) (UserRow.password user))
      then respond 401 (Error "Invalid credentials")
      else if negb (UserRow.email_verified user)
      then respond 403
             (EmailNotVerified
                "Please verify your email before logging in. Check your inbox for the verification link."
                (UserRow.email user))
      else if negb (UserRow.is_approved user)
      then respond 403 (Error "Account pending admin approval")
      else respond 200
             (LoggedIn
                (mkClaims (UserRow.id user) (UserRow.email user) (UserRow.role user))
                (mkProfile (UserRow.id user) (UserRow.email user)
                   (UserRow.company_name user) (UserRow.company_domain user)
                   (UserRow.role user) (UserRow.is_approved user)))
  end
  end.

End Login.

(** *** The administrator's list of accounts (the first function of
    admin-users.js) *)

Module AdminUsers.

(** [decoded] is the [userId] of the token [verifyToken] accepts. *)
Record request := mkRequest {
  httpMethod : string;
  decoded : option nat
}.

Record env := mkEnv {
  pending_error : bool;
  all_error : bool
}.

Inductive payload :=
| Error (error : string)
| Listing (pendingUsers allUsers : list UserRow.t).

Record response := respond {
  statusCode : Z;
  payload_of : payload
}.

(** [exports.handler]; [.order('created_at', { ascending: false })]
    reads the table newest first. *)
Definition handler (e : env) (users : Users.t) (r : request) : response :=
  if negb (bool_decide (httpMethod r = "GET"))
  then respond 405 (Error "Method not allowed")
  else match decoded r with
  | None => respond 401 (Error "Unauthorized")
  | Some userId =>
      if negb (Users.is_admin users userId)
      then respond 403 (Error "Access denied. Admin only.")
      else
        let pendingUsers :=
          if pending_error e then []
          else rev (List.filter
                      (fun u => negb (UserRow.is_approved u)
                                && bool_decide (UserRow.role u = "manufacturer"))
                      users) in
        let allUsers := if all_error e then [] else rev users in
        respond 200 (Listing pendingUsers allUsers)
  end.

End AdminUsers.

(** *** Deleting an account (the first function of admin-delete-user.js) *)

Module AdminDeleteUser.

(** [body] is [None] when [JSON.parse] throws, [Some None] when the
    body has no [userId]. *)
Record request := mkRequest {
  httpMethod : string;
  decoded : option nat;
  body : option (option nat)
}.

Record env := mkEnv {
  delete_error : bool
}.

Inductive payload :=
| Error (error : string)
| Deleted (message : string).

Record response := respond {
  statusCode : Z;
  payload_of : payload
}.

(** [exports.handler]. *)
Definition handler (e : env) (users : Users.t) (r : request) : Users.t * response :=
  if negb (bool_decide (httpMethod r = "DELETE"))
  then (users, respond 405 (Error "Method not allowed"))
  else match decoded r with
  | None => (users, respond 401 (Error "Unauthorized"))
  | Some adminId =>
      if negb (Users.is_admin users adminId)
      then (users, respond 403 (Error "Access denied. Admin only."))
      else match body r with
      | None => (users, respond 500 (Error "Server error"))
      | Some None => (users, respond 400 (Error "User ID required"))
      | Some (Some userId) =>
          if delete_error e
          then (users, respond 500 (Error "Failed to delete user"))
          else (Users.delete_by_id userId users,
                respond 200 (Deleted "User deleted successfully"))
      end
  end.

End AdminDeleteUser.

(** ** Code generation of the Express backend ([generateCodesForBatch])

    The generator that sits beside [verifyCode]: codes are drawn one at
    a time, each looked up before it is stored. *)

Module BatchGeneration.

(** A batch document, by the fields this service reads and writes. *)
Record batch_doc := mkBatch {
  b_id : nat;
  batchId : string;
  codesGenerated : Z
}.

Record db := mkDb {
  codes : list Workflow.code_doc;
  batches : list batch_doc
}.

(** What one call meets: the random buffers, and, for the [i]-th pass of
    the loop, whether [generateUniqueCode], [generateQRCode] or
    [Code.create] throws, with the message of the error. A failing
    [generateUniqueCode] is one whose first lookup throws. *)
Record env := mkEnv {
  tape : list (list byte);
  unique_fault : nat -> bool;
  qr_fault : nat -> bool;
  create_fault : nat -> bool;
  message : nat -> string
}.

Record result := mkResult {
  success : bool;
  r_batchId : string;
  totalRequested : nat;
  totalGenerated : nat;
  r_codes : list (string * string);
  errors : option (list (nat * string))
}.

Inductive completion :=
| Returned (r : result)
| Thrown (error : string).

(** [generateUniqueCode(12)]: twelve random bytes, the code built from
    them as in [generateCode], [Code.findOne({ code })], and the same
    again while the code exists. [None] when the buffers are used up
    before a free code was drawn. *)
Fixpoint generateUniqueCode (tp : list (list byte)) (stored : list string)
    : option (string * list (list byte)) :=
  match tp with
  | [] => None
  | bytes :: tp' =>
      let code := Generator.generateCode bytes in
      if bool_decide (code ∈ stored) then generateUniqueCode tp' stored
      else Some (code, tp')
  end.

(** The path [generateQRCode(code, batchId)] returns. *)
Definition generateQRCode (code batchId : string) : string :=
  "/public/qrcodes/" ++ batchId ++ "/" ++ code ++ ".png".

(** The [_id] of the next document. *)
Definition fresh_id (cs : list Workflow.code_doc) : nat :=
  S (foldr Nat.max 0%nat (map Workflow._id cs)).

(** [Code.create({ code, batchId, manufacturerId, qrCodeUrl, status: 'active' })],
    the other fields at their defaults. *)
Definition create (code : string) (batch manufacturer : nat)
    (cs : list Workflow.code_doc) : list Workflow.code_doc :=
  (cs ++ [Workflow.mkCode (fresh_id cs) code batch manufacturer Workflow.active None None 0
            None])%list.

(** The loop state: the store, the buffers still to come,
    [generatedCodes] and [errors]. *)
Record run := mkRun {
  store : db;
  rest : list (list byte);
  generatedCodes : list (string * string);
  errs : list (nat * string)
}.

(** The body of [for (let i = 0; i < quantity; i++)]: a pass that
    throws is caught and recorded under the index [i + 1]. [None] when
    [generateUniqueCode] has not returned. *)
Definition pass (e : env) (batch : batch_doc) (batchId manufacturerId : nat) (i : nat)
    (r : run) : option run :=
  let failed (tp : list (list byte)) :=
    mkRun (store r) tp (generatedCodes r) (errs r ++ [(S i, message e i)])%list in
  match rest r with
  | [] => None
  | _ :: tp0 =>
      if unique_fault e i then Some (failed tp0)
      else
        match generateUniqueCode (rest r) (map Workflow.code (codes (store r))) with
        | None => None
        | Some (code, tp) =>
            if qr_fault e i then Some (failed tp)
            else
              let qrCodeUrl := generateQRCode code (BatchGeneration.batchId batch) in
              if create_fault e i then Some (failed tp)
              else
                Some (mkRun
                        (mkDb (create code batchId manufacturerId (codes (store r)))
                           (batches (store r)))
                        tp
                        (generatedCodes r ++ [(code, qrCodeUrl)])%list
                        (errs r))
        end
  end.

Fixpoint passes (e : env) (batch : batch_doc) (batchId manufacturerId : nat)
    (n i : nat) (r : run) : option run :=
  match n with
  | O => Some r
  | S n' =>
      match pass e batch batchId manufacturerId i r with
      | None => None
      | Some r' => passes e batch batchId manufacturerId n' (S i) r'
      end
  end.

(** [Batch.findByIdAndUpdate(batchId, { codesGenerated })]. *)
Definition update_batch (id : nat) (generated : Z) (d : db) : db :=
  mkDb (codes d)
    (map (fun b => if bool_decide (b_id b = id)
                   then mkBatch (b_id b) (BatchGeneration.batchId b) generated
                   else b)
       (batches d)).

(** [generateCodesForBatch({ batchId, manufacturerId, quantity })]. *)
Definition generateCodesForBatch (e : env) (d : db) (batchId manufacturerId quantity : nat)
    : option (db * completion) :=
  match List.find (fun b => bool_decide (b_id b = batchId)) (batches d) with
  | None => Some (d, Thrown "Batch not found")
  | Some batch =>
      match passes e batch batchId manufacturerId quantity 0 (mkRun d (tape e) [] []) with
      | None => None
      | Some r =>
          Some (update_batch batchId (Z.of_nat (length (generatedCodes r))) (store r),
                Returned
                  (mkResult true (BatchGeneration.batchId batch) quantity
                     (length (generatedCodes r)) (generatedCodes r)
                     (if bool_decide (errs r = []) then None else Some (errs r))))
      end
  end.

End BatchGeneration.

(** ** Concrete inputs *)

Module Examples.

Definition byte_of (n : nat) : byte :=
  match Byte.of_nat n with
  | Some b => b
  | None => x00
  end.

(** The [k]-th random buffer of a tape whose codes are all different:
    the digits of [k] in base 30, then zeros. *)
Definition draw (k : nat) : list byte :=
  [byte_of (k mod 30); byte_of (k / 30 mod 30); byte_of (k / 900)] ++ repeat x00 9.

Definition tape (n : nat) : list (list byte) := map draw (seq 0 n).

Definition site : string := "https://qualitychek.netlify.app".

Definition no_fault : nat -> bool := fun _ => false.
Definition every_fault : nat -> bool := fun _ => true.

(** A create-batch request for [qty] codes of one product. *)
Definition request (qty : Z) : CreateBatch.request :=
  CreateBatch.mkRequest "POST" (Some 7%nat)
    (Some (CreateBatch.mkFields "Soap" "Care" (CreateBatch.Parsed qty) None None None None)).

Definition fields_of (qty : Z) : CreateBatch.fields :=
  CreateBatch.mkFields "Soap" "Care" (CreateBatch.Parsed qty) None None None None.

(** An invocation whose storage works, with [n] random buffers. *)
Definition create_env (n : nat) : CreateBatch.env :=
  CreateBatch.mkEnv site "BN20240101ABC123" false false (tape n) no_fault false.

(** An invocation all of whose code inserts fail. *)
Definition failing_env (n : nat) : CreateBatch.env :=
  CreateBatch.mkEnv site "BN20240102DEF456" false false (tape n) every_fault false.

Definition tick_env (n : nat) : Scheduler.env :=
  Scheduler.mkEnv site false (fun _ => Scheduler.mkBatchEnv (tape n) no_fault false).

(** The store after a batch of two codes was created in one go. *)
Definition store_complete : Store.t :=
  Eval vm_compute in
    CreateBatch.final Store.empty
      (CreateBatch.handler (create_env 2) Store.empty (request 2)).

(** The store after the creation of a batch of two codes none of whose
    inserts went through. *)
Definition store_pending : Store.t :=
  Eval vm_compute in
    CreateBatch.final Store.empty
      (CreateBatch.handler (failing_env 2) Store.empty (request 2)).

(** ... and after the scheduler has caught up. *)
Definition store_caught_up : Store.t :=
  Eval vm_compute in
    Scheduler.final store_pending (Scheduler.handler (tick_env 2) store_pending).

(** A scheduler run whose random buffers start at the [a]-th of the
    tape. *)
Definition tick_env_from (a n : nat) : Scheduler.env :=
  Scheduler.mkEnv site false
    (fun _ => Scheduler.mkBatchEnv (map draw (seq a n)) no_fault false).

(** [store_complete] after the creation of a second batch of two codes
    none of whose inserts went through: one complete batch, one that is
    still to be generated. *)
Definition store_mixed : Store.t :=
  Eval vm_compute in
    CreateBatch.final store_complete
      (CreateBatch.handler (failing_env 2) store_complete (request 2)).

(** The batch row of [store_pending]. *)
Definition pending_batch : BatchRow.t :=
  Eval vm_compute in
    nth 0 (Store.batches store_pending)
      (CreateBatch.new_batch Store.empty 0 (fields_of 0) 0 "").

(** The store after the creation of a batch of 501 codes none of whose
    inserts went through, and its batch row. *)
Definition store_queued : Store.t :=
  Eval vm_compute in
    CreateBatch.final Store.empty
      (CreateBatch.handler (failing_env 501) Store.empty (request 501)).

Definition queued_batch : BatchRow.t :=
  Eval vm_compute in
    nth 0 (Store.batches store_queued)
      (CreateBatch.new_batch Store.empty 0 (fields_of 0) 0 "").

(** A background generation whose storage works, with [n] random
    buffers. *)
Definition background_env (n : nat) : Background.env :=
  Background.mkEnv site (tape n) (fun _ => false) (fun _ _ => false) (fun _ _ => false).

(** A verification call at a fixed time, from a fixed address, with no
    geolocation answer; [update_fails] is the fault of its update. *)
Definition verify_env (update_fails : bool) : Verify.env :=
  Verify.mkEnv "2024-01-01T00:00:00.000Z" (fun _ => None) false update_fails false.

Definition scan (c : string) : Verify.request :=
  Verify.mkRequest "GET" (Verify.Given c) (Some "203.0.113.7") None.

(** U+00A0 (no-break space) and U+2003 (em space), as they are encoded. *)
Definition nbsp : string := String (ascii_of_nat 194) (String (ascii_of_nat 160) "").
Definition em_space : string :=
  String (ascii_of_nat 226) (String (ascii_of_nat 128) (String (ascii_of_nat 131) "")).

(** The first code of [store_complete] as it is stored: active. *)
Definition fresh_record : CodeRow.t :=
  Eval vm_compute in
    nth 0 (Store.codes store_complete) (CodeRow.mk "" 0 0 active "" None None).

(** [store_complete] after that code was scanned once. *)
Definition store_scanned : Store.t :=
  Eval vm_compute in
    (Verify.handler (verify_env false) store_complete (scan "AAAAAAAAAAAA")).1.

(** A document store of the Express backend holding one code that has
    been verified once. *)
Definition workflow_db : Workflow.db :=
  Workflow.mkDb
    [Workflow.mkCode 1 "AAAAAAAAAAAA" 10 20 Workflow.verified (Some 1000) (Some "qr") 1
       (Some 1000)]
    [Workflow.mkBatch 10 "BN20240101ABC123" "Soap" 1 0]
    [Workflow.mkUser 20 "Acme"]
    [].

Definition workflow_env : Workflow.env := Workflow.mkEnv 2000 false.

Definition browser : Workflow.metadata :=
  Workflow.mkMetadata None None (Some "203.0.113.7") (Some "Mozilla/5.0").

(** A document store of the step-by-step workflow holding one active
    code. *)
Definition backend_db : VerificationWorkflow.db :=
  VerificationWorkflow.mkDb
    [VerificationWorkflow.mkCode "AAAAAAAAAAAA" 10 20 Workflow.active None None 0]
    [VerificationWorkflow.mkBatch 10 "BN20240101ABC123" "Soap" None]
    [VerificationWorkflow.mkUser 20 "Acme"]
    [].

Definition backend_env : VerificationWorkflow.env :=
  VerificationWorkflow.mkEnv 2000 false false false.

Definition backend_browser : VerificationWorkflow.metadata :=
  VerificationWorkflow.mkMetadata None (Some "203.0.113.7") (Some "Mozilla/5.0") None.

(** The codes [generateCodes(3)] builds from the first three buffers of
    the tape. *)
Definition three_codes : list string :=
  Eval vm_compute in default [] (Generator.generateCodes (tape 3) 3).

(** ... and from the first two. *)
Definition two_codes : list string :=
  Eval vm_compute in default [] (Generator.generateCodes (tape 2) 2).

(** The store after [n] batches of one code each were created, none of
    whose inserts went through: [n] batches waiting for the scheduler. *)
Fixpoint backlog (n : nat) : Store.t :=
  match n with
  | O => Store.empty
  | S n' =>
      CreateBatch.final (backlog n')
        (CreateBatch.handler (failing_env 1) (backlog n') (request 1))
  end.

(** Accounts: a stand-in for bcrypt, an administrator, and a company
    that registers. *)
Definition hash_of (password : string) : string := "$2a$10$" ++ password.

Definition check (password hash : string) : bool :=
  bool_decide (hash = hash_of password).

Definition admin_row : UserRow.t :=
  UserRow.mk 1 "root@qualitychek.io" (hash_of "s3cret") "QualityChek" "qualitychek.io"
    "admin" true None None true.

Definition register_env : Register.env :=
  Register.mkEnv hash_of "9f86d081884c7d659a2feaa0c55ad015" 86400000 2 false true.

Definition signup : Register.request :=
  Register.mkRequest "POST"
    (Some (Register.mkFields "Ada@Acme.com" "pa55word" "Acme" "ACME.com")).

(** The table after the registration. *)
Definition users_registered : Users.t :=
  Eval vm_compute in (Register.handler register_env [admin_row] signup).1.

(** The new account as it is stored. *)
Definition ada_row : UserRow.t :=
  Eval vm_compute in nth 1 users_registered admin_row.

Definition click (token : string) : VerifyEmail.request :=
  VerifyEmail.mkRequest "GET" (Some token).

Definition verify_email_env (now : Z) : VerifyEmail.env :=
  VerifyEmail.mkEnv now false false.



(** The Express generator: a store with one batch and no code, and a
    call for three codes whose second QR image cannot be written. *)
Definition generation_db : BatchGeneration.db :=
  BatchGeneration.mkDb [] [BatchGeneration.mkBatch 10 "BN20240101ABC123" 0].

Definition generation_env : BatchGeneration.env :=
  BatchGeneration.mkEnv (tape 3) (fun _ => false) (fun i => bool_decide (i = 1%nat))
    (fun _ => false) (fun _ => "EACCES: permission denied").

End Examples.

(** * Properties *)

Local Open Scope list_scope.

(** ** Generator *)

Section GeneratorFacts.

Import Generator.

Lemma chars_of_append (s t : string) :
  list_ascii_of_string (s ++ t)%string = list_ascii_of_string s ++ list_ascii_of_string t.
Proof. induction s as [|c s IH]; simpl; [done | by rewrite IH]. Qed.

Lemma length_append (s t : string) :
  String.length (s ++ t)%string = (String.length s + String.length t)%nat.
Proof. induction s as [|c s IH]; simpl; [done | by rewrite IH]. Qed.

(** Within the buffer every symbol is one character of the alphabet. *)
Lemma symbol_in_alphabet (m : nat) (bytes : list byte) (i : nat) :
  (0 < m <= 32)%nat -> (i < length bytes)%nat ->
  exists c, symbol m bytes i = String c EmptyString /\ c ∈ list_ascii_of_string chars.
Proof.
  intros Hm Hi. unfold symbol.
  destruct (lookup_lt_is_Some_2 bytes i Hi) as [b ->].
  assert (Hk : (Byte.to_nat b mod m < 32)%nat).
  { pose proof (Nat.mod_upper_bound (Byte.to_nat b) m). lia. }
  revert Hk. generalize (Byte.to_nat b mod m)%nat as k. intros k Hk.
  do 32 (destruct k as [|k];
         [eexists; split; [reflexivity | by apply (bool_decide_unpack _)] |]).
  lia.
Qed.

Lemma assemble_length (m : nat) (bytes : list byte) (n i : nat) (code : string) :
  (0 < m <= 32)%nat -> (i + n <= length bytes)%nat ->
  String.length (assemble m bytes n i code) = (String.length code + n)%nat.
Proof.
  intros Hm. revert i code. induction n as [|n IH]; intros i code Hn; simpl; [lia |].
  rewrite IH by lia. rewrite length_append.
  destruct (symbol_in_alphabet m bytes i Hm) as (c & -> & _); [lia |]. simpl. lia.
Qed.

Lemma assemble_chars (m : nat) (bytes : list byte) (n i : nat) (code : string) (c : ascii) :
  c ∈ list_ascii_of_string (assemble m bytes n i code) ->
  c ∈ list_ascii_of_string code
  \/ exists j, c ∈ list_ascii_of_string (symbol m bytes j).
Proof.
  revert i code. induction n as [|n IH]; intros i code; simpl; [by left |].
  intros [Hc | Hc]%IH; [| by right].
  rewrite chars_of_append in Hc. apply elem_of_app in Hc as [Hc | Hc]; [by left |].
  right. by exists i.
Qed.

(** With twelve random bytes both generators give twelve characters. *)
Lemma generateCode_length (bytes : list byte) :
  length bytes = 12%nat -> String.length (generateCode bytes) = 12%nat.
Proof.
  intros H. unfold generateCode. rewrite assemble_length; [done | vm_compute; lia | lia].
Qed.

Lemma generateCodes_one_length (bytes : list byte) :
  length bytes = 12%nat -> String.length (generateCodes_one bytes) = 12%nat.
Proof.
  intros H. unfold generateCodes_one. rewrite assemble_length; [done | lia | lia].
Qed.

(** The background generator reaches the whole alphabet: its modulus is
    the alphabet's length. *)
Lemma generateCode_reaches_every_symbol (k : nat) :
  (k < 32)%nat ->
  exists b : byte, symbol (String.length chars) [b] 0 = Js.char_at chars k.
Proof.
  intros Hk.
  destruct (Byte.of_nat k) as [b|] eqn:Hb.
  - exists b. apply Byte.to_of_nat in Hb. unfold symbol.
    change ([b] !! 0%nat) with (Some b). cbv beta iota. rewrite Hb.
    change (String.length chars) with 32%nat. by rewrite Nat.mod_small.
  - apply Byte.of_nat_None_iff in Hb. lia.
Qed.

(** C5 (as the code has it): the [generateCodes] of batch creation and
    of the scheduled generation takes each byte modulo 30, not modulo
    the alphabet's 32 symbols, so no byte value maps to the symbols 8
    and 9: neither ever occurs in a code it builds. *)
Theorem generateCodes_never_yields_8_or_9 (bytes : list byte) :
  ("8"%char ∉ list_ascii_of_string (generateCodes_one bytes))
  /\ ("9"%char ∉ list_ascii_of_string (generateCodes_one bytes)).
Proof.
  assert (Hs : forall j c, c ∈ list_ascii_of_string (symbol 30 bytes j) ->
                           c <> "8"%char /\ c <> "9"%char).
  { intros j c. unfold symbol. destruct (bytes !! j) as [b|].
    - assert (Hk : (Byte.to_nat b mod 30 < 30)%nat)
        by (apply Nat.mod_upper_bound; lia).
      revert Hk. generalize (Byte.to_nat b mod 30)%nat as k. intros k Hk.
      do 30 (destruct k as [|k];
             [vm_compute; intros Hc%list_elem_of_singleton; rewrite Hc;
              split; discriminate |]).
      lia.
    - intros Hc. split; intros Heq; rewrite Heq in Hc; revert Hc;
        by apply (bool_decide_unpack (_ ∉ _)). }
  split; intros [Hc | [j Hc]]%assemble_chars.
  - by apply elem_of_nil in Hc.
  - by destruct (Hs j _ Hc).
  - by apply elem_of_nil in Hc.
  - by destruct (Hs j _ Hc).
Qed.

End GeneratorFacts.

(** ** Storage statements *)

Section StoreFacts.

Import Store.

Lemma extends_refl rows st : extends rows st st.
Proof.
  repeat split. exists []. split; [by rewrite app_nil_r | apply sublist_nil_l].
Qed.

Lemma extends_trans rows1 rows2 st1 st2 st3 :
  extends rows1 st1 st2 -> extends rows2 st2 st3 -> extends (rows1 ++ rows2) st1 st3.
Proof.
  intros (Hb1 & Hv1 & x1 & Hc1 & Hs1) (Hb2 & Hv2 & x2 & Hc2 & Hs2).
  split; [congruence |]. split; [congruence |].
  exists (x1 ++ x2). split; [by rewrite Hc2, Hc1, app_assoc | by apply sublist_app].
Qed.

Lemma extends_weaken rows rows' st st' :
  rows `sublist_of` rows' -> extends rows st st' -> extends rows' st st'.
Proof.
  intros Hs (Hb & Hv & x & Hc & Hx). repeat split; [done..|].
  exists x. split; [done | by etrans].
Qed.

Lemma extends_length rows st st' :
  extends rows st st' ->
  (length (codes st) <= length (codes st') <= length (codes st) + length rows)%nat.
Proof.
  intros (_ & _ & x & -> & Hx%sublist_length). rewrite length_app. lia.
Qed.

(** What the unique constraint lets through keeps the values distinct. *)
Lemma codes_code_unique_NoDup rows tbl :
  codes_code_unique rows tbl = true ->
  NoDup (code_values tbl) -> NoDup (code_values (tbl ++ rows)).
Proof.
  unfold codes_code_unique, code_values.
  intros [Hrows%bool_decide_eq_true Hnew]%andb_true_iff Htbl.
  rewrite map_app. apply NoDup_app. split; [done |]. split; [| done].
  intros v Hv Hin. apply list_elem_of_fmap in Hin as (r & -> & Hr).
  rewrite forallb_forall in Hnew. apply list_elem_of_In in Hr.
  specialize (Hnew r Hr). apply negb_true_iff, bool_decide_eq_false in Hnew. done.
Qed.

(** An insert statement appends all of its rows or none. *)
Lemma insert_codes_spec fault rows st :
  let '(st', error) := insert_codes fault rows st in
  extends rows st st'
  /\ (if error then st' = st else codes st' = codes st ++ rows)
  /\ (NoDup (code_values (codes st)) -> NoDup (code_values (codes st'))).
Proof.
  unfold insert_codes. destruct fault.
  { split; [apply extends_refl | done]. }
  destruct (codes_code_unique rows (codes st)) eqn:Hu.
  - split; [| split; [done |]].
    + repeat split. exists rows. done.
    + by apply codes_code_unique_NoDup.
  - split; [apply extends_refl | done].
Qed.

End StoreFacts.

(** ** Bulk insert executor *)

Section ExecutorFacts.

Import Executor System.

Lemma slices_from_concat {A} (size fuel i : nat) (xs : list A) :
  (0 < size)%nat -> (length xs - i <= fuel * size)%nat ->
  concat (Js.slices_from fuel i size xs) = drop i xs.
Proof.
  intros Hsize. revert i. induction fuel as [|fuel IH]; intros i Hfuel; simpl.
  - symmetry. apply drop_ge. lia.
  - destruct (i <? length xs)%nat eqn:Hi.
    + simpl. rewrite IH by lia. unfold Js.slice.
      replace (i + size - i)%nat with size by lia.
      rewrite <- (drop_drop xs size i). apply take_drop.
    + apply Nat.ltb_ge in Hi. symmetry. by apply drop_ge.
Qed.

(** The chunks of [records], put end to end, are [records]. *)
Lemma slices_concat {A} (size : nat) (xs : list A) :
  (0 < size)%nat -> concat (Js.slices size xs) = xs.
Proof.
  intros Hsize. unfold Js.slices. rewrite slices_from_concat; [done | done | nia].
Qed.

Lemma insert_group_run fault i idx batch p :
  insert_group fault i idx batch p = run_chunks fault (i + idx) batch p.
Proof.
  revert idx p. induction batch as [|c rest IH]; intros idx p; simpl; [done |].
  rewrite IH. by replace (i + S idx)%nat with (S (i + idx)) by lia.
Qed.

Lemma run_chunks_app fault k cs1 cs2 p :
  run_chunks fault k (cs1 ++ cs2) p
  = run_chunks fault (k + length cs1) cs2 (run_chunks fault k cs1 p).
Proof.
  revert k p. induction cs1 as [|c cs1 IH]; intros k p; simpl.
  - by rewrite Nat.add_0_r.
  - rewrite IH. by replace (S k + length cs1)%nat with (k + S (length cs1))%nat by lia.
Qed.

(** The groups of [CONCURRENCY] statements run through the chunks in
    order. *)
Lemma insert_groups_run fuel fault i chunks p :
  (length chunks - i <= fuel * CONCURRENCY)%nat ->
  insert_groups fuel fault i chunks p = run_chunks fault i (drop i chunks) p.
Proof.
  revert i p. induction fuel as [|fuel IH]; intros i p Hfuel; simpl.
  - rewrite drop_ge by lia. done.
  - destruct (i <? length chunks)%nat eqn:Hi.
    + apply Nat.ltb_lt in Hi. rewrite IH by (unfold CONCURRENCY in *; lia).
      rewrite insert_group_run, Nat.add_0_r.
      rewrite <- (take_drop CONCURRENCY (drop i chunks)) at 1.
      rewrite run_chunks_app, drop_drop. unfold Js.slice.
      replace (i + CONCURRENCY - i)%nat with CONCURRENCY by lia.
      rewrite length_take, length_drop.
      destruct (decide (CONCURRENCY <= length chunks - i)%nat) as [Hle | Hgt].
      * by rewrite Nat.min_l by done.
      * rewrite Nat.min_r by lia.
        rewrite !drop_ge by lia. done.
    + apply Nat.ltb_ge in Hi. by rewrite drop_ge.
Qed.

Lemma insertCodes_run fault records st :
  insertCodes fault records st
  = run_chunks fault 0 (Js.slices CHUNK_SIZE records) (mk st 0 []).
Proof.
  unfold insertCodes. rewrite insert_groups_run; [done |].
  unfold CONCURRENCY. lia.
Qed.

Lemma grown_trans rows1 rows2 st1 st2 st3 :
  grown rows1 st1 st2 -> grown rows2 st2 st3 -> grown (rows1 ++ rows2) st1 st3.
Proof.
  intros [He1 Hd1] [He2 Hd2]. split; [by eapply extends_trans | auto].
Qed.

Lemma grown_weaken rows rows' st st' :
  rows `sublist_of` rows' -> grown rows st st' -> grown rows' st st'.
Proof. intros Hs [He Hd]. split; [by eapply extends_weaken | done]. Qed.

Lemma insert_chunk_spec fault c p :
  let p' := insert_chunk fault c p in
  grown c (store p) (store p')
  /\ inserted p'
     = inserted p + Z.of_nat (length (Store.codes (store p'))
                              - length (Store.codes (store p)))
  /\ written p' = written p ++ [store p']
  /\ (fault = true -> store p' = store p).
Proof.
  unfold insert_chunk. pose proof (insert_codes_spec fault c (store p)) as H.
  destruct (Store.insert_codes fault c (store p)) as [st' error] eqn:Hins.
  destruct H as (He & Herr & Hd). simpl.
  split; [by split |]. split; [| split; [done |]].
  - destruct error.
    + rewrite Herr. rewrite Nat.sub_diag. simpl. lia.
    + rewrite Herr, length_app. f_equal. f_equal. lia.
  - intros ->. unfold Store.insert_codes in Hins. by inversion Hins.
Qed.

Lemma run_chunks_spec fault k cs p :
  let p' := run_chunks fault k cs p in
  grown (concat cs) (store p) (store p')
  /\ inserted p'
     = inserted p + Z.of_nat (length (Store.codes (store p'))
                              - length (Store.codes (store p)))
  /\ exists ws, written p' = written p ++ ws
                /\ Forall (grown (concat cs) (store p)) ws.
Proof.
  revert k p. induction cs as [|c rest IH]; intros k p; simpl.
  - split; [split; [apply extends_refl | done] |]. split.
    + rewrite Nat.sub_diag. simpl. lia.
    + exists []. by rewrite app_nil_r.
  - destruct (insert_chunk_spec (fault k) c p) as (Hg1 & Hn1 & Hw1 & _).
    destruct (IH (S k) (insert_chunk (fault k) c p)) as (Hg2 & Hn2 & ws & Hw2 & Hws).
    split; [by eapply grown_trans |]. split.
    + rewrite Hn2, Hn1.
      destruct Hg1 as [?%extends_length _], Hg2 as [?%extends_length _]. lia.
    + exists (store (insert_chunk (fault k) c p) :: ws). split.
      * by rewrite Hw2, Hw1, <- app_assoc.
      * constructor.
        -- eapply grown_weaken; [| exact Hg1]. by apply sublist_inserts_r.
        -- eapply Forall_impl; [exact Hws |]. intros w Hw. by eapply grown_trans.
Qed.

Lemma run_chunks_all_fail fault k cs p :
  (forall j, fault j = true) ->
  store (run_chunks fault k cs p) = store p
  /\ inserted (run_chunks fault k cs p) = inserted p.
Proof.
  intros Hf. revert k p. induction cs as [|c rest IH]; intros k p; simpl; [done |].
  destruct (IH (S k) (insert_chunk (fault k) c p)) as [-> ->].
  unfold insert_chunk, Store.insert_codes. by rewrite Hf.
Qed.

(** [insertCodes]: the store grows by rows of [records], [inserted] is
    the number of rows added, and every state in between is such a
    growth of the first one. *)
Lemma insertCodes_spec fault records st :
  let p := insertCodes fault records st in
  grown records st (store p)
  /\ inserted p
     = Z.of_nat (length (Store.codes (store p)) - length (Store.codes st))
  /\ 0 <= inserted p <= Z.of_nat (length records)
  /\ Forall (grown records st) (written p).
Proof.
  rewrite insertCodes_run.
  destruct (run_chunks_spec fault 0 (Js.slices CHUNK_SIZE records) (mk st 0 []))
    as (Hg & Hn & ws & Hw & Hws).
  rewrite slices_concat in Hg, Hws by (unfold CHUNK_SIZE; lia). simpl in *.
  split; [done |]. split; [done |]. split; [| by rewrite Hw].
  rewrite Hn. destruct Hg as [?%extends_length _]. lia.
Qed.

Lemma insertCodes_all_fail fault records st :
  (forall j, fault j = true) ->
  store (insertCodes fault records st) = st
  /\ inserted (insertCodes fault records st) = 0.
Proof. intros Hf. rewrite insertCodes_run. by apply run_chunks_all_fail. Qed.

Lemma buildRecords_length codes batchUUID manufacturerId siteUrl :
  length (buildRecords codes batchUUID manufacturerId siteUrl) = length codes.
Proof. unfold buildRecords. by rewrite length_map. Qed.

Lemma buildRecords_batch codes batchUUID manufacturerId siteUrl :
  Forall (fun r => CodeRow.batch_id r = batchUUID)
    (buildRecords codes batchUUID manufacturerId siteUrl).
Proof. unfold buildRecords. apply Forall_forall. by intros r (c & -> & _)%list_elem_of_fmap. Qed.

End ExecutorFacts.

(** ** Invariants of the store *)

Section SystemFacts.

Import System.

Lemma batch_step_refl b : batch_step b b.
Proof. unfold batch_step. split; [done |]. split; [done |]. split; [lia | done]. Qed.

Lemma batch_step_trans b1 b2 b3 : batch_step b1 b2 -> batch_step b2 b3 -> batch_step b1 b3.
Proof.
  intros (Hi1 & Hq1 & Hc1 & Hs1) (Hi2 & Hq2 & Hc2 & Hs2).
  split; [congruence |]. split; [congruence |]. split; [lia |].
  intros Hs. rewrite (Hs1 Hs) in *. auto.
Qed.

Lemma code_step_trans r1 r2 r3 : code_step r1 r2 -> code_step r2 r3 -> code_step r1 r3.
Proof.
  intros [-> | (Ha & now1 & ->)] [-> | (Hb & now2 & ->)]; [by left | right | right | done];
    eauto.
Qed.

Lemma advances_refl st : advances st st.
Proof.
  split; intros i x Hx; exists x; (split; [done |]);
    [apply batch_step_refl | by left].
Qed.

Lemma advances_trans st1 st2 st3 : advances st1 st2 -> advances st2 st3 -> advances st1 st3.
Proof.
  intros [Hb1 Hc1] [Hb2 Hc2]. split.
  - intros i b Hb. destruct (Hb1 i b Hb) as (b' & Hb' & Hs1).
    destruct (Hb2 i b' Hb') as (b'' & Hb'' & Hs2).
    exists b''. split; [done | by eapply batch_step_trans].
  - intros i r Hr. destruct (Hc1 i r Hr) as (r' & Hr' & Hs1).
    destruct (Hc2 i r' Hr') as (r'' & Hr'' & Hs2).
    exists r''. split; [done | by eapply code_step_trans].
Qed.

Lemma keeps_refl c st : keeps c st st.
Proof. done. Qed.

Lemma keeps_trans c st1 st2 st3 : keeps c st1 st2 -> keeps c st2 st3 -> keeps c st1 st3.
Proof. intros [H1 H2] [H3 H4]. split; congruence. Qed.

Lemma ids_ok_lookup st i b :
  ids_ok st -> Store.batches st !! i = Some b -> BatchRow.id b = i.
Proof.
  unfold ids_ok. intros Hids Hb.
  assert (H : map BatchRow.id (Store.batches st) !! i = Some (BatchRow.id b))
    by (by rewrite list_lookup_fmap, Hb).
  rewrite Hids in H. apply lookup_seq in H. lia.
Qed.

Lemma ids_ok_elem st b :
  ids_ok st -> b ∈ Store.batches st -> Store.batches st !! BatchRow.id b = Some b.
Proof.
  intros Hids (i & Hi)%list_elem_of_lookup. by rewrite (ids_ok_lookup st i b).
Qed.

Lemma ids_ok_NoDup st : ids_ok st -> NoDup (map BatchRow.id (Store.batches st)).
Proof. unfold ids_ok. intros ->. apply NoDup_seq. Qed.

(** Growth of [codes] leaves every stored row and the batch table as
    they are. *)
Lemma grown_advances rows st w : grown rows st w -> advances st w.
Proof.
  intros [(Hb & _ & extra & Hc & _) _]. split.
  - intros i b Hi. exists b. rewrite Hb. split; [done | apply batch_step_refl].
  - intros i r Hi. exists r. rewrite Hc. split; [| by left].
    by apply lookup_app_l_Some.
Qed.

Lemma grown_invariant rows st w : grown rows st w -> invariant st -> invariant w.
Proof.
  intros [(Hb & _ & _) Hd] (Hids & Hdist & Hok). unfold invariant, ids_ok.
  rewrite Hb. auto.
Qed.

Lemma filter_nothing {A} (f : A -> bool) (l : list A) :
  Forall (fun x => f x = false) l -> List.filter f l = [].
Proof.
  induction 1 as [|x l Hx _ IH]; simpl; [done |]. by rewrite Hx.
Qed.

Lemma grown_keeps rows st w c :
  grown rows st w -> Forall (fun r => CodeRow.batch_id r <> c) rows -> keeps c st w.
Proof.
  intros [(Hb & _ & extra & Hc & Hsub) _] Hrows. split; [by rewrite Hb |].
  unfold codes_of_batch. rewrite Hc, List.filter_app.
  rewrite (filter_nothing _ extra); [by rewrite app_nil_r |].
  apply Forall_forall. intros r Hr. apply bool_decide_eq_false.
  rewrite Forall_forall in Hrows. apply Hrows. by eapply sublist_subseteq.
Qed.

Lemma set_add_length x set : (length (Js.set_add x set) <= S (length set))%nat.
Proof.
  unfold Js.set_add. case_bool_decide; [lia |]. rewrite length_app. simpl. lia.
Qed.

(** When [generateCodes] returns, it returns exactly [qty] codes. *)
Lemma generateCodes_loop_length tape set qty codes :
  Generator.generateCodes_loop tape set qty = Some codes ->
  Z.of_nat (length set) <= Z.max 0 qty ->
  Z.of_nat (length codes) = Z.max 0 qty.
Proof.
  revert set. induction tape as [|bytes tape IH]; intros set; simpl;
    destruct (Z.of_nat (length set) <? qty) eqn:Hlt; try done.
  - intros [= <-] Hle. apply Z.ltb_ge in Hlt. lia.
  - intros Hloop Hle. apply Z.ltb_lt in Hlt. apply (IH _ Hloop).
    pose proof (set_add_length (Generator.generateCodes_one bytes) set). lia.
  - intros [= <-] Hle. apply Z.ltb_ge in Hlt. lia.
Qed.

Lemma set_add_NoDup x set : NoDup set -> NoDup (Js.set_add x set).
Proof.
  intros Hnd. unfold Js.set_add. case_bool_decide as Hin; [done |].
  apply NoDup_app. split; [done |]. split; [| apply NoDup_singleton].
  intros y Hy ->%list_elem_of_singleton. done.
Qed.

(** ... and the codes are pairwise different. *)
Lemma generateCodes_NoDup tape qty codes :
  Generator.generateCodes tape qty = Some codes -> NoDup codes.
Proof.
  unfold Generator.generateCodes. assert (Hnil : NoDup (@nil string)) by constructor.
  revert Hnil. generalize (@nil string) as set.
  induction tape as [|bytes tape IH]; intros set Hset; simpl;
    destruct (Z.of_nat (length set) <? qty); try done.
  - by intros [= <-].
  - intros Hloop. eapply IH; [| exact Hloop]. by apply set_add_NoDup.
  - by intros [= <-].
Qed.

Lemma generateCodes_length tape qty codes :
  Generator.generateCodes tape qty = Some codes ->
  Z.of_nat (length codes) = Z.max 0 qty.
Proof. intros H. apply (generateCodes_loop_length _ _ _ _ H). simpl. lia. Qed.

(** The progress update of a batch that is still generating. *)
Lemma update_batch_progress_spec fault i g s st b :
  invariant st -> Store.batches st !! i = Some b ->
  BatchRow.status b = generating ->
  BatchRow.codes_generated b <= g <= BatchRow.quantity b ->
  (s = complete <-> g = BatchRow.quantity b) ->
  let st' := Store.update_batch_progress fault i g s st in
  invariant st' /\ advances st st' /\ (forall j, j <> i -> keeps j st st')
  /\ Store.codes st' = Store.codes st.
Proof.
  intros (Hids & Hdist & Hok) Hb Hgen Hg Hs. unfold Store.update_batch_progress.
  destruct fault; simpl.
  { split; [done |]. split; [apply advances_refl | done]. }
  set (f := fun x : BatchRow.t => if bool_decide (BatchRow.id x = i) then _ else x).
  assert (Hsame : forall x, x ∈ Store.batches st -> BatchRow.id x = i -> x = b).
  { intros x Hx Hi. apply (ids_ok_elem st x Hids) in Hx. rewrite Hi in Hx. congruence. }
  assert (Hid : forall x, BatchRow.id (f x) = BatchRow.id x).
  { intros x. unfold f. by case_bool_decide. }
  split; [split; [| split; [done |]] | split; [split | split; [| done]]].
  - unfold ids_ok in *. simpl. rewrite length_map, <- Hids, map_map.
    apply map_ext. apply Hid.
  - simpl. apply Forall_fmap, Forall_forall. intros x Hx. unfold f, compose.
    case_bool_decide as Hi.
    + rewrite (Hsame x Hx Hi) in *. unfold batch_ok. simpl. split; [lia | done].
    + rewrite Forall_forall in Hok. auto.
  - intros j x Hx. simpl. exists (f x). rewrite list_lookup_fmap, Hx. split; [done |].
    unfold f. case_bool_decide as Hi; [| apply batch_step_refl].
    rewrite (Hsame x (list_elem_of_lookup_2 _ _ _ Hx) Hi) in *.
    unfold batch_step. simpl. split; [done |]. split; [done |]. split; [lia |].
    congruence.
  - intros j r Hr. exists r. split; [done | by left].
  - intros j Hj. split; [| done]. simpl. rewrite list_lookup_fmap.
    destruct (Store.batches st !! j) as [x|] eqn:Hx; [| done]. simpl. f_equal.
    unfold f. case_bool_decide as Hi; [| done].
    rewrite (ids_ok_lookup st j x Hids Hx) in Hi. done.
Qed.

(** The insertion of a new batch row. *)
Lemma insert_batch_spec st row :
  invariant st -> BatchRow.id row = Store.fresh_batch_id st -> batch_ok row ->
  let st' := Store.insert_batch row st in
  invariant st' /\ advances st st'
  /\ Store.batches st' !! BatchRow.id row = Some row
  /\ Store.codes st' = Store.codes st.
Proof.
  intros (Hids & Hdist & Hok) Hid Hrow. unfold Store.insert_batch, Store.fresh_batch_id in *.
  simpl. split; [split; [| split; [done |]] | split; [split | split; [| done]]].
  - unfold ids_ok in *. simpl. rewrite map_app, length_app, seq_app, Hids. simpl.
    by rewrite Hid.
  - simpl. apply Forall_app. split; [done | by constructor].
  - intros j x Hx. exists x. simpl. split; [by apply lookup_app_l_Some |].
    apply batch_step_refl.
  - intros j r Hr. exists r. split; [done | by left].
  - simpl. rewrite Hid. by rewrite list_lookup_middle.
Qed.

End SystemFacts.

(** ** Batch creation *)

Section CreateBatchFacts.

Import CreateBatch System.

Lemma handler_accepted e st r userId f qty batchId :
  accepted e st r userId f qty batchId ->
  handler e st r = create e st userId f qty batchId.
Proof.
  intros (Hm & Hd & Hb & Hq & Hn & Hc & Hr & Hid). unfold handler.
  rewrite Hm, Hd, Hb, Hq, Hid. simpl.
  rewrite !bool_decide_eq_false_2 by done. simpl.
  destruct (qty <? 1) eqn:H1; [apply Z.ltb_lt in H1; lia |].
  destruct (qty >? 100000) eqn:H2; [| done].
  rewrite Z.gtb_ltb in H2. apply Z.ltb_lt in H2. lia.
Qed.

(** A request that is turned away writes nothing. *)
Lemma handler_states e st r :
  states (handler e st r) = []
  \/ exists userId f qty batchId, accepted e st r userId f qty batchId.
Proof.
  unfold handler.
  case_bool_decide as Hopt; [by left |].
  case_bool_decide as Hpost; simpl; [| by left].
  destruct (decoded r) as [userId|] eqn:Hd; [| by left].
  destruct (body r) as [f|] eqn:Hb; [| by left].
  case_bool_decide as Hn; simpl; [by left |].
  case_bool_decide as Hc; simpl; [by left |].
  case_bool_decide as Ha; simpl; [by left |].
  destruct (quantity f) as [| | qty] eqn:Hq; [by left | by left |].
  destruct (qty <? 1) eqn:H1; simpl; [by left |].
  destruct (qty >? 100000) eqn:H2; simpl; [by left |].
  destruct (choose_batch_id e st f) as [batchId | resp] eqn:Hid; [| by left].
  right. exists userId, f, qty, batchId. unfold accepted.
  apply Z.ltb_ge in H1. rewrite Z.gtb_ltb in H2. apply Z.ltb_ge in H2.
  repeat split; done.
Qed.

Lemma new_batch_ok st userId f qty batchId :
  1 <= qty -> batch_ok (new_batch st userId f qty batchId).
Proof.
  intros Hq. unfold batch_ok, new_batch. simpl. split; [lia |]. split; [done | lia].
Qed.

(** Every state the creation of a batch leaves behind keeps the
    invariants, and no earlier row has gone backwards. *)
Lemma create_states e st userId f qty batchId st' :
  invariant st -> 1 <= qty ->
  st' ∈ states (create e st userId f qty batchId) ->
  invariant st' /\ advances st st'.
Proof.
  intros Hinv Hq. unfold create.
  destruct (batch_error e); [by intros ?%elem_of_nil |].
  set (batch := new_batch st userId f qty batchId).
  destruct (insert_batch_spec st batch Hinv eq_refl (new_batch_ok _ _ _ _ _ Hq))
    as (Hinv1 & Hadv1 & Hrow1 & Hcodes1).
  set (st1 := Store.insert_batch batch st) in *.
  destruct (Generator.generateCodes (tape e) (Z.min qty SYNC_LIMIT)) as [codes|] eqn:Hgen.
  2:{ simpl. by intros ->%list_elem_of_singleton. }
  set (records := Executor.buildRecords codes (BatchRow.id batch) userId (siteUrl e)).
  destruct (insertCodes_spec (insert_fault e) records st1) as (Hg & Hn & Hbound & Hws).
  set (p := Executor.insertCodes (insert_fault e) records st1) in *.
  simpl. intros [-> | [Hw | ->%list_elem_of_singleton]%elem_of_app]%elem_of_cons.
  - done.
  - rewrite Forall_forall in Hws. specialize (Hws _ Hw).
    split; [by eapply grown_invariant |].
    eapply advances_trans; [exact Hadv1 | by eapply grown_advances].
  - assert (Hlen : Z.of_nat (length records) <= qty).
    { unfold records. rewrite buildRecords_length, (generateCodes_length _ _ _ Hgen).
      unfold SYNC_LIMIT. lia. }
    assert (Hrow : Store.batches (Executor.store p) !! BatchRow.id batch = Some batch).
    { destruct Hg as [(-> & _) _]. done. }
    destruct (update_batch_progress_spec (update_fault e) (BatchRow.id batch)
                (Executor.inserted p)
                (if Executor.inserted p >=? qty then complete else generating)
                (Executor.store p) batch) as (Hinv2 & Hadv2 & _).
    + by eapply grown_invariant.
    + done.
    + done.
    + simpl. lia.
    + simpl. destruct (Executor.inserted p >=? qty) eqn:Hge.
      * rewrite Z.geb_leb in Hge. apply Z.leb_le in Hge. split; [lia | done].
      * rewrite Z.geb_leb in Hge. apply Z.leb_gt in Hge. split; [done | lia].
    + split; [done |].
      eapply advances_trans; [exact Hadv1 |].
      eapply advances_trans; [by eapply grown_advances | done].
Qed.

Lemma handler_states_invariant e st r st' :
  invariant st -> st' ∈ states (handler e st r) ->
  invariant st' /\ advances st st'.
Proof.
  intros Hinv Hst'. destruct (handler_states e st r) as [Hnone | Hacc].
  - rewrite Hnone in Hst'. by apply elem_of_nil in Hst'.
  - destruct Hacc as (userId & f & qty & batchId & Hacc).
    rewrite (handler_accepted _ _ _ _ _ _ _ Hacc) in Hst'.
    destruct Hacc as (_ & _ & _ & _ & _ & _ & [Hq _] & _).
    by eapply create_states.
Qed.

End CreateBatchFacts.

(** ** Scheduled generation *)

Section SchedulerFacts.

Import Scheduler System.

(** What a state written while batch [i] is processed is to the store
    [st] the processing started from. *)
Let good (i : nat) (st w : Store.t) : Prop :=
  invariant w /\ advances st w /\ (forall j, j <> i -> keeps j st w).

Lemma process_batch_spec site be batch r r' :
  invariant (store r) ->
  Store.batches (store r) !! BatchRow.id batch = Some batch ->
  BatchRow.status batch = generating ->
  BatchRow.codes_generated batch < BatchRow.quantity batch ->
  process_batch site be batch r = Some r' ->
  good (BatchRow.id batch) (store r) (store r')
  /\ exists ws, states r' = states r ++ ws
                /\ Forall (good (BatchRow.id batch) (store r)) ws.
Proof.
  intros Hinv Hrow Hgen Hlt. unfold process_batch.
  destruct (Generator.generateCodes _ _) as [codes|] eqn:Hcodes; [| done].
  set (records := Executor.buildRecords codes _ _ _).
  destruct (insertCodes_spec (insert_fault be) records (store r)) as (Hg & Hn & Hbound & Hws).
  set (p := Executor.insertCodes (insert_fault be) records (store r)) in *.
  intros [= <-]. simpl.
  assert (Hrows : forall j, j <> BatchRow.id batch ->
                            Forall (fun x => CodeRow.batch_id x <> j) records).
  { intros j Hj. eapply Forall_impl; [apply buildRecords_batch |].
    simpl. intros x ->. done. }
  assert (Hgood : forall w, grown records (store r) w -> good (BatchRow.id batch) (store r) w).
  { intros w Hw. split; [by eapply grown_invariant |].
    split; [by eapply grown_advances |]. intros j Hj. eapply grown_keeps; eauto. }
  assert (Hlen : Z.of_nat (length records)
                 <= BatchRow.quantity batch - BatchRow.codes_generated batch).
  { unfold records. rewrite buildRecords_length, (generateCodes_length _ _ _ Hcodes).
    unfold CODES_PER_RUN. lia. }
  set (newTotal := BatchRow.codes_generated batch + Executor.inserted p).
  destruct (update_batch_progress_spec (update_fault be) (BatchRow.id batch) newTotal
              (if newTotal >=? BatchRow.quantity batch then complete else generating)
              (Executor.store p) batch) as (Hinv2 & Hadv2 & Hkeep2 & _).
  { by eapply grown_invariant. }
  { destruct Hg as [(-> & _) _]. done. }
  { done. }
  { unfold newTotal. lia. }
  { unfold newTotal. destruct (_ >=? _) eqn:Hge; rewrite Z.geb_leb in Hge.
    - apply Z.leb_le in Hge. split; [lia | done].
    - apply Z.leb_gt in Hge. split; [done | lia]. }
  assert (Hlast : good (BatchRow.id batch) (store r)
                    (Store.update_batch_progress (update_fault be) (BatchRow.id batch)
                       newTotal
                       (if newTotal >=? BatchRow.quantity batch then complete else generating)
                       (Executor.store p))).
  { destruct (Hgood _ Hg) as (_ & Hadv1 & Hkeep1). split; [done |].
    split; [by eapply advances_trans |].
    intros j Hj. eapply keeps_trans; [by apply Hkeep1 | by apply Hkeep2]. }
  split; [done |]. eexists. split; [done |].
  apply Forall_app. split; [| by constructor].
  eapply Forall_impl; [exact Hws | done].
Qed.

(** The snapshot rows the loop still has to process are the rows the
    store holds for them. *)
Let current (st : Store.t) (s : BatchRow.t) : Prop :=
  Store.batches st !! BatchRow.id s = Some s
  /\ BatchRow.status s = generating
  /\ BatchRow.codes_generated s < BatchRow.quantity s.

Let untouched (todo : list BatchRow.t) (st w : Store.t) : Prop :=
  invariant w /\ advances st w
  /\ (forall j, Forall (fun s => BatchRow.id s <> j) todo -> keeps j st w).

Lemma process_batches_spec e k todo r r' fin :
  invariant (store r) ->
  NoDup (map BatchRow.id todo) ->
  Forall (current (store r)) todo ->
  process_batches e k todo r = (r', fin) ->
  exists ws, states r' = states r ++ ws /\ Forall (untouched todo (store r)) ws.
Proof.
  revert k r. induction todo as [|batch rest IH]; intros k r Hinv Hnd Hcur; simpl.
  { intros [= <- <-]. exists []. by rewrite app_nil_r. }
  destruct (process_batch _ _ batch r) as [r1|] eqn:Hp.
  2:{ intros [= <- <-]. exists []. by rewrite app_nil_r. }
  apply Forall_cons in Hcur as [(Hrow & Hgen & Hlt) Hcur].
  apply NoDup_cons in Hnd as [Hfresh Hnd].
  destruct (process_batch_spec _ _ _ _ _ Hinv Hrow Hgen Hlt Hp)
    as ((Hinv1 & Hadv1 & Hkeep1) & ws1 & Hst1 & Hws1).
  intros Hloop.
  assert (Hcur1 : Forall (current (store r1)) rest).
  { rewrite Forall_forall in Hcur |- *. intros s Hs.
    destruct (Hcur s Hs) as (Hs1 & Hs2 & Hs3). split; [| done].
    destruct (Hkeep1 (BatchRow.id s)) as [-> _]; [| done].
    intros Heq. apply Hfresh. rewrite <- Heq. apply list_elem_of_fmap. eauto. }
  destruct (IH (S k) r1 Hinv1 Hnd Hcur1 Hloop) as (ws2 & Hst2 & Hws2).
  exists (ws1 ++ ws2). split; [by rewrite Hst2, Hst1, <- app_assoc |].
  apply Forall_app. split.
  - eapply Forall_impl; [exact Hws1 |]. intros w (Hi & Ha & Hk).
    split; [done |]. split; [done |].
    intros j [Hj _]%Forall_cons. by apply Hk.
  - eapply Forall_impl; [exact Hws2 |]. intros w (Hi & Ha & Hk).
    split; [done |]. split; [by eapply advances_trans |].
    intros j [Hj Hrest]%Forall_cons.
    eapply keeps_trans; [by apply Hkeep1 | by apply Hk].
Qed.

Lemma filter_sublist {A} (f : A -> bool) (l : list A) : List.filter f l `sublist_of` l.
Proof.
  induction l as [|x l IH]; simpl; [done |].
  destruct (f x); [by apply sublist_skip | by apply sublist_cons].
Qed.

Lemma incompleteBatches_sublist st :
  incompleteBatches (Store.select_generating st) `sublist_of` Store.batches st.
Proof.
  unfold incompleteBatches, Store.select_generating.
  etrans; [apply sublist_take |]. etrans; apply filter_sublist.
Qed.

Lemma incompleteBatches_current st s :
  invariant st -> s ∈ incompleteBatches (Store.select_generating st) -> current st s.
Proof.
  intros (Hids & _) Hs. split.
  - apply ids_ok_elem; [done |]. eapply sublist_subseteq; [apply incompleteBatches_sublist | done].
  - unfold incompleteBatches, Store.select_generating in Hs.
    apply (sublist_subseteq _ _ (sublist_take _ _)) in Hs.
    apply list_elem_of_In, filter_In in Hs as [Hs Hlt].
    apply filter_In in Hs as [_ Hgen].
    apply bool_decide_eq_true in Hgen. apply Z.ltb_lt in Hlt. done.
Qed.

(** Every state a scheduler run leaves behind keeps the invariants,
    lets no row go backwards, and leaves every complete batch and its
    codes as they were. *)
Lemma handler_states_spec e st w :
  invariant st -> w ∈ o_states (handler e st) ->
  invariant w /\ advances st w
  /\ (forall c b, Store.batches st !! c = Some b -> BatchRow.status b = complete ->
                  keeps c st w).
Proof.
  intros Hinv. unfold handler.
  destruct (fetch_error e); [by intros ?%elem_of_nil |].
  case_bool_decide; [by intros ?%elem_of_nil |].
  case_bool_decide; [by intros ?%elem_of_nil |].
  set (todo := incompleteBatches (Store.select_generating st)).
  destruct (process_batches e 0 todo (mkRun st [] 0 [])) as [r fin] eqn:Hloop.
  simpl. intros Hw.
  assert (Hnd : NoDup (map BatchRow.id todo)).
  { apply (sublist_NoDup _ (map BatchRow.id (Store.batches st))).
    - apply ids_ok_NoDup, Hinv.
    - apply fmap_sublist, incompleteBatches_sublist. }
  assert (Hcur : Forall (current st) todo).
  { apply Forall_forall. intros s Hs. by apply incompleteBatches_current. }
  destruct (process_batches_spec e 0 todo (mkRun st [] 0 []) r fin Hinv Hnd Hcur Hloop)
    as (ws & Hst & Hws).
  simpl in Hst. rewrite Hst in Hw. rewrite Forall_forall in Hws.
    destruct (Hws w Hw) as (Hi & Ha & Hk). split; [done |]. split; [done |].
    intros c b Hb Hc. apply Hk. apply Forall_forall. intros s Hs Heq.
    destruct (incompleteBatches_current st s Hinv Hs) as (Hrow & Hgen & _).
    rewrite Heq, Hb in Hrow. injection Hrow as ->. congruence.
Qed.

End SchedulerFacts.

(** ** Code verification *)

Section VerifyFacts.

Import Verify System.

Lemma insert_verification_tables fault row st :
  Store.codes (Store.insert_verification fault row st) = Store.codes st
  /\ Store.batches (Store.insert_verification fault row st) = Store.batches st.
Proof. unfold Store.insert_verification. by destruct fault. Qed.

Lemma mark_verified_code now r : CodeRow.code (Store.mark_verified now r) = CodeRow.code r.
Proof. done. Qed.

(** The conditional update changes active rows only, and only their
    status, time and method. *)
Lemma update_code_verified_spec fault c now st :
  let st' := (Store.update_code_verified fault c now st).1 in
  Store.batches st' = Store.batches st
  /\ Store.code_values (Store.codes st') = Store.code_values (Store.codes st)
  /\ (forall i r, Store.codes st !! i = Some r ->
                  exists r', Store.codes st' !! i = Some r' /\ code_step r r').
Proof.
  unfold Store.update_code_verified. destruct fault; simpl.
  { split; [done |]. split; [done |]. intros i r Hr. exists r. split; [done | by left]. }
  split; [done |]. split.
  - unfold Store.code_values. rewrite map_map. apply map_ext.
    intros r. by destruct (Store.still_active c r).
  - intros i r Hr. rewrite list_lookup_fmap, Hr. simpl.
    destruct (Store.still_active c r) eqn:Hact; eexists; (split; [done |]); [| by left].
    right. unfold Store.still_active in Hact.
    apply andb_true_iff in Hact as [_ Hact%bool_decide_eq_true]. eauto.
Qed.

Lemma same_tables_invariant st st' :
  Store.batches st' = Store.batches st ->
  Store.code_values (Store.codes st') = Store.code_values (Store.codes st) ->
  invariant st -> invariant st'.
Proof.
  intros Hb Hc (Hids & Hdist & Hok). unfold invariant, ids_ok, codes_distinct.
  rewrite Hb, Hc. done.
Qed.

Lemma same_tables_advances st st' :
  Store.batches st' = Store.batches st -> Store.codes st' = Store.codes st ->
  advances st st'.
Proof.
  intros Hb Hc. split; intros i x Hx; exists x; rewrite ?Hb, ?Hc;
    (split; [done |]); [apply batch_step_refl | by left].
Qed.

(** What any statement of any call does to the two tables. *)
Lemma step_tables e r st ph :
  let st' := (step e r st ph).1 in
  Store.batches st' = Store.batches st
  /\ Store.code_values (Store.codes st') = Store.code_values (Store.codes st)
  /\ advances st st'.
Proof.
  assert (Hlog : forall fault row,
             let st' := Store.insert_verification fault row st in
             Store.batches st' = Store.batches st
             /\ Store.code_values (Store.codes st') = Store.code_values (Store.codes st)
             /\ advances st st').
  { intros fault row. destruct (insert_verification_tables fault row st) as [Hc Hb].
    simpl. split; [done |]. split; [by rewrite Hc |]. by apply same_tables_advances. }
  destruct ph as [| cleanCode [[codeRecord b] |] | cleanCode codeRecord b err | resp]; simpl.
  - split; [done |]. split; [done | apply advances_refl].
  - case_bool_decide as Hver; simpl; [apply Hlog |].
    pose proof (update_code_verified_spec (update_fault e) cleanCode (now e) st) as Hupd.
    destruct (Store.update_code_verified _ _ _ _) as [st' err]. simpl in *.
    destruct Hupd as (Hb & Hv & Hc). split; [done |]. split; [done |].
    split; [| done]. intros i x Hx. exists x. rewrite Hb. split; [done | apply batch_step_refl].
  - apply Hlog.
  - apply Hlog.
  - split; [done |]. split; [done | apply advances_refl].
Qed.

Lemma step_invariant e r st ph :
  invariant st -> invariant (step e r st ph).1 /\ advances st (step e r st ph).1.
Proof.
  intros Hinv. destruct (step_tables e r st ph) as (Hb & Hc & Ha).
  split; [by eapply same_tables_invariant | done].
Qed.

End VerifyFacts.

(** ** The deployed functions together *)

Section Reachability.

Import System.

Lemma empty_invariant : invariant Store.empty.
Proof. split; [done |]. split; [constructor | constructor]. Qed.

Lemma transition_invariant st st' :
  invariant st -> transition st st' -> invariant st' /\ advances st st'.
Proof.
  intros Hinv Hstep. destruct Hstep as [e r st st' Hin | e st st' Hin | e r ph st].
  - exact (handler_states_invariant e st r st' Hinv Hin).
  - destruct (handler_states_spec e st st' Hinv Hin) as (Hi & Ha & _). done.
  - by apply step_invariant.
Qed.

Lemma transitions_invariant st st' :
  invariant st -> rtc transition st st' -> invariant st' /\ advances st st'.
Proof.
  intros Hinv Hrtc. induction Hrtc as [st | st1 st2 st3 Hstep _ IH].
  - split; [done | apply advances_refl].
  - destruct (transition_invariant _ _ Hinv Hstep) as [Hinv2 Hadv2].
    destruct (IH Hinv2) as [Hinv3 Hadv3].
    split; [done | by eapply advances_trans].
Qed.

Lemma reachable_invariant st : reachable st -> invariant st.
Proof. intros H. by destruct (transitions_invariant _ _ empty_invariant H). Qed.

Lemma last_cases {A} (l : list A) (d : A) : List.last l d = d \/ List.last l d ∈ l.
Proof.
  induction l as [|x l IH]; [by left |]. right.
  destruct l as [|y l]; [simpl; by left |].
  change (List.last (x :: y :: l) d) with (List.last (y :: l) d).
  destruct IH as [Heq | Hin]; [| by right].
  right. clear Heq. revert y. induction l as [|z l IHl]; intros y; [simpl; by left |].
  change (List.last (y :: z :: l) d) with (List.last (z :: l) d). right. apply IHl.
Qed.

(** A scheduler run, taken to its end, on a store that keeps the
    invariants. *)
Lemma tick_final e st :
  invariant st ->
  let st' := Scheduler.final st (Scheduler.handler e st) in
  invariant st'
  /\ (forall c b, Store.batches st !! c = Some b -> BatchRow.status b = complete ->
                  keeps c st st').
Proof.
  intros Hinv. simpl. unfold Scheduler.final.
  destruct (last_cases (Scheduler.o_states (Scheduler.handler e st)) st) as [-> | Hin].
  - done.
  - destruct (handler_states_spec e st _ Hinv Hin) as (Hi & _ & Hk). done.
Qed.

End Reachability.

(** ** Progress of a batch *)

Section Progress.

Import System.

(** C7: across any sequence of batch creations, scheduler runs and
    verification statements, interrupted or not, the persisted
    [codes_generated] of a batch never goes down and never exceeds its
    [quantity], and the batch is [complete] exactly when the two are
    equal. *)
Theorem progress_monotone_and_bounded (st st' : Store.t) (i : nat) (b : BatchRow.t) :
  reachable st -> rtc transition st st' ->
  Store.batches st !! i = Some b ->
  exists b', Store.batches st' !! i = Some b'
             /\ BatchRow.quantity b' = BatchRow.quantity b
             /\ BatchRow.codes_generated b <= BatchRow.codes_generated b'
             /\ BatchRow.codes_generated b' <= BatchRow.quantity b'
             /\ (BatchRow.status b' = complete
                 <-> BatchRow.codes_generated b' = BatchRow.quantity b').
Proof.
  intros Hreach Hsteps Hb. apply reachable_invariant in Hreach.
  destruct (transitions_invariant _ _ Hreach Hsteps) as [(_ & _ & Hok) [Hadv _]].
  destruct (Hadv i b Hb) as (b' & Hb' & _ & Hq & Hmono & _).
  exists b'. split; [done |]. split; [done |]. split; [done |].
  rewrite Forall_forall in Hok. apply Hok. by eapply list_elem_of_lookup_2.
Qed.

Lemma progress_monotone_and_bounded_witness :
  reachable Examples.store_pending
  /\ rtc transition Examples.store_pending Examples.store_caught_up
  /\ (BatchRow.codes_generated <$> Store.batches Examples.store_pending !! 0%nat) = Some 0
  /\ exists b', Store.batches Examples.store_caught_up !! 0%nat = Some b'
                /\ BatchRow.codes_generated b' = 2
                /\ BatchRow.status b' = complete.
Proof.
  assert (Hreach : reachable Examples.store_pending).
  { apply rtc_once.
    apply (create_batch (Examples.failing_env 2) (Examples.request 2)).
    apply (list_elem_of_lookup_2 _ 1). vm_compute. reflexivity. }
  assert (Hsteps : rtc transition Examples.store_pending Examples.store_caught_up).
  { apply rtc_once. apply (scheduled (Examples.tick_env 2)).
    apply (list_elem_of_lookup_2 _ 1). vm_compute. reflexivity. }
  split; [done |]. split; [done |]. split; [reflexivity |].
  destruct (Store.batches Examples.store_pending !! 0%nat) as [b|] eqn:Hb;
    [| discriminate].
  destruct (progress_monotone_and_bounded _ _ 0%nat b Hreach Hsteps Hb)
    as (b' & Hb' & _).
  exists b'. split; [done |].
  vm_compute in Hb'. injection Hb' as <-. split; reflexivity.
Defined.

(** C8: once a batch is complete, further scheduler runs, however
    many, leave its row (count and status included) as it is and insert
    no code for it. *)
Theorem scheduler_idempotent_after_complete (st : Store.t) (es : list Scheduler.env)
    (c : nat) (b : BatchRow.t) :
  reachable st ->
  Store.batches st !! c = Some b -> BatchRow.status b = complete ->
  Store.batches (ticks es st) !! c = Some b
  /\ codes_of_batch c (ticks es st) = codes_of_batch c st.
Proof.
  intros Hreach. apply reachable_invariant in Hreach. revert st Hreach.
  induction es as [|e es IH]; intros st Hinv Hb Hc; simpl; [done |].
  destruct (tick_final e st Hinv) as [Hinv' Hkeep].
  destruct (Hkeep c b Hb Hc) as [Hrow Hcodes].
  destruct (IH _ Hinv') as [Hrow' Hcodes']; [by rewrite Hrow | done |].
  split; [done | by rewrite Hcodes'].
Qed.

Lemma scheduler_idempotent_after_complete_witness :
  let es := [Examples.tick_env_from 2 2; Examples.tick_env 5] in
  reachable Examples.store_mixed
  /\ (BatchRow.status <$> Store.batches Examples.store_mixed !! 0%nat) = Some complete
  /\ (BatchRow.codes_generated <$> Store.batches Examples.store_mixed !! 1%nat) = Some 0
  /\ (BatchRow.codes_generated <$> Store.batches (ticks es Examples.store_mixed) !! 1%nat)
     = Some 2
  /\ Store.batches (ticks es Examples.store_mixed) !! 0%nat
     = Store.batches Examples.store_mixed !! 0%nat
  /\ codes_of_batch 0 (ticks es Examples.store_mixed)
     = codes_of_batch 0 Examples.store_mixed.
Proof.
  cbv zeta.
  assert (Hreach : reachable Examples.store_mixed).
  { apply (rtc_l _ _ Examples.store_complete).
    - apply (create_batch (Examples.create_env 2) (Examples.request 2)).
      apply (list_elem_of_lookup_2 _ 2). vm_compute. reflexivity.
    - apply rtc_once.
      apply (create_batch (Examples.failing_env 2) (Examples.request 2)).
      apply (list_elem_of_lookup_2 _ 1). vm_compute. reflexivity. }
  split; [done |]. split; [reflexivity |]. split; [reflexivity |].
  split; [vm_compute; reflexivity |].
  destruct (Store.batches Examples.store_mixed !! 0%nat) as [b|] eqn:Hb.
  - assert (Hc : BatchRow.status b = complete).
    { vm_compute in Hb. by injection Hb as <-. }
    destruct (scheduler_idempotent_after_complete _
                [Examples.tick_env_from 2 2; Examples.tick_env 5] 0%nat b Hreach Hb Hc)
      as [Hrow Hcodes].
    split; [done | done].
  - vm_compute in Hb. discriminate.
Defined.

End Progress.

(** ** Background generation *)

Section BackgroundFacts.

Import Background System.

(** A property of the store, the running total and the recorded
    boundaries that every sub-chunk step keeps is kept by the whole
    generation. *)
Variable I : Store.t -> Z -> list Store.t -> Prop.
Variable e : env.
Variable batch : BatchRow.t.

Let holds (r : run) : Prop := I (store r) (totalGenerated r) (boundaries r).

Hypothesis step_keeps :
  forall offset i codeRecords r,
    holds r -> holds (insert_step e (BatchRow.id batch) offset i codeRecords r).

Lemma insert_loop_keeps fuel offset i codeRecords r :
  holds r -> holds (insert_loop fuel e (BatchRow.id batch) offset i codeRecords r).
Proof.
  revert i r. induction fuel as [|fuel IH]; intros i r Hr; simpl; [done |].
  destruct (i <? length codeRecords)%nat; [| done]. apply IH, step_keeps, Hr.
Qed.

Lemma chunk_keeps quantity userId offset r r' :
  holds r -> chunk e batch quantity userId offset r = Some r' -> holds r'.
Proof.
  intros Hr. unfold chunk.
  destruct (fill_set _ _ _ _) as [[codesArray tp1]|]; [| done].
  destruct (replacements _ _ _ _) as [[finalCodes tp2]|]; [| done].
  intros [= <-]. by apply insert_loop_keeps.
Qed.

Lemma chunks_keeps fuel quantity userId offset r :
  holds r -> holds (chunks fuel e batch quantity userId offset r).1.
Proof.
  revert offset r. induction fuel as [|fuel IH]; intros offset r Hr; simpl; [done |].
  destruct (offset <? quantity); [| done].
  destruct (chunk e batch quantity userId offset r) as [r'|] eqn:Hc; [| done].
  apply IH. by eapply chunk_keeps.
Qed.

Lemma generateCodesInBackground_keeps st quantity userId :
  I st 0 [] -> holds (generateCodesInBackground e st batch quantity userId).1.
Proof. intros H0. unfold generateCodesInBackground. by apply chunks_keeps. Qed.

End BackgroundFacts.

Section BackgroundProgress.

Import Background System.

Lemma update_batch_count_codes fault i g st :
  Store.codes (Store.update_batch_count fault i g st) = Store.codes st.
Proof. unfold Store.update_batch_count. by destruct fault. Qed.

Lemma update_batch_count_ids fault i g st :
  ids_ok st -> ids_ok (Store.update_batch_count fault i g st).
Proof.
  unfold Store.update_batch_count, ids_ok. destruct fault; [done |]. simpl.
  intros Hids. rewrite length_map, <- Hids, map_map. apply map_ext.
  intros x. by case_bool_decide.
Qed.

Lemma update_batch_count_row i g st b :
  ids_ok st -> Store.batches st !! i = Some b ->
  exists b', Store.batches (Store.update_batch_count false i g st) !! i = Some b'
             /\ BatchRow.codes_generated b' = g.
Proof.
  intros Hids Hb. unfold Store.update_batch_count. simpl.
  rewrite list_lookup_fmap, Hb. simpl.
  rewrite bool_decide_eq_true_2 by (by eapply ids_ok_lookup). eauto.
Qed.

(** The background generator keeps the code values distinct, in every
    state it writes. *)
Lemma background_distinct e st batch quantity userId w :
  codes_distinct st ->
  w ∈ boundaries (generateCodesInBackground e st batch quantity userId).1 ->
  codes_distinct w.
Proof.
  intros Hd Hw.
  pose (I := fun (s : Store.t) (_ : Z) (bs : list Store.t) =>
               codes_distinct s /\ Forall codes_distinct bs).
  assert (H : I (store (generateCodesInBackground e st batch quantity userId).1)
                (totalGenerated (generateCodesInBackground e st batch quantity userId).1)
                (boundaries (generateCodesInBackground e st batch quantity userId).1)).
  { apply (generateCodesInBackground_keeps I); [| by split].
    intros offset i codeRecords r [Hs Hbs]. unfold insert_step.
    pose proof (insert_codes_spec (insert_fault e offset i)
                  (Js.slice i (i + insertChunkSize) codeRecords) (store r)) as Hins.
    destruct (Store.insert_codes _ _ _) as [st1 err]. destruct Hins as (_ & _ & Hnd).
    assert (Hd1 : codes_distinct st1) by (by apply Hnd).
    destruct err; simpl.
    - split; [done |]. apply Forall_app. split; [done | by constructor].
    - assert (Hd2 : forall f g, codes_distinct
                              (Store.update_batch_count f (BatchRow.id batch) g st1)).
      { intros f g. unfold codes_distinct. by rewrite update_batch_count_codes. }
      split; [done |]. apply Forall_app. split; [done | by constructor]. }
  destruct H as [_ Hall]. rewrite Forall_forall in Hall. by apply Hall.
Qed.

(** Absent a failed progress update, at every sub-chunk boundary the
    count stored for the batch is the number of rows the run has written
    so far. *)
Lemma background_count_at_boundaries e st batch quantity userId b0 w :
  ids_ok st ->
  Store.batches st !! BatchRow.id batch = Some b0 ->
  BatchRow.codes_generated b0 = 0 ->
  (forall offset i, update_fault e offset i = false) ->
  w ∈ boundaries (generateCodesInBackground e st batch quantity userId).1 ->
  exists b', Store.batches w !! BatchRow.id batch = Some b'
             /\ BatchRow.codes_generated b'
                = Z.of_nat (length (Store.codes w) - length (Store.codes st)).
Proof.
  intros Hids Hb0 Hzero Hupd Hw.
  pose (counted := fun (s : Store.t) =>
          exists b', Store.batches s !! BatchRow.id batch = Some b'
                     /\ BatchRow.codes_generated b'
                        = Z.of_nat (length (Store.codes s) - length (Store.codes st))).
  pose (I := fun (s : Store.t) (total : Z) (bs : list Store.t) =>
               ids_ok s /\ (length (Store.codes st) <= length (Store.codes s))%nat
               /\ total = Z.of_nat (length (Store.codes s) - length (Store.codes st))
               /\ counted s /\ Forall counted bs).
  assert (H : I (store (generateCodesInBackground e st batch quantity userId).1)
                (totalGenerated (generateCodesInBackground e st batch quantity userId).1)
                (boundaries (generateCodesInBackground e st batch quantity userId).1)).
  { apply (generateCodesInBackground_keeps I).
    - intros offset i codeRecords r (Hi & Hlen & Htot & Hc & Hbs). unfold insert_step.
      pose proof (insert_codes_spec (insert_fault e offset i)
                    (Js.slice i (i + insertChunkSize) codeRecords) (store r)) as Hins.
      destruct (Store.insert_codes _ _ _) as [st1 err].
      destruct Hins as ((Hbat & _) & Herr & _).
      destruct err; simpl.
      + subst st1. split; [done |]. split; [done |]. split; [done |]. split; [done |].
        apply Forall_app. split; [done | by constructor].
      + rewrite Hupd.
        assert (Hi1 : ids_ok st1) by (unfold ids_ok; by rewrite Hbat).
        destruct Hc as (b1 & Hb1 & _). rewrite <- Hbat in Hb1.
        destruct (update_batch_count_row (BatchRow.id batch)
                    (totalGenerated r
                     + Z.of_nat (length (Js.slice i (i + insertChunkSize) codeRecords)))
                    st1 b1 Hi1 Hb1) as (b2 & Hb2 & Hg2).
        assert (Hcodes : Store.codes
                           (Store.update_batch_count false (BatchRow.id batch)
                              (totalGenerated r
                               + Z.of_nat (length (Js.slice i (i + insertChunkSize)
                                                     codeRecords))) st1)
                         = Store.codes (store r)
                             ++ Js.slice i (i + insertChunkSize) codeRecords).
        { by rewrite update_batch_count_codes. }
        assert (Hnew : counted
                         (Store.update_batch_count false (BatchRow.id batch)
                            (totalGenerated r
                             + Z.of_nat (length (Js.slice i (i + insertChunkSize)
                                                   codeRecords))) st1)).
        { exists b2. split; [done |]. rewrite Hg2, Hcodes, length_app, Htot. lia. }
        split; [by apply update_batch_count_ids |].
        split; [rewrite Hcodes, length_app; lia |].
        split; [rewrite Hcodes, length_app, Htot; lia |].
        split; [done |].
        apply Forall_app. split; [done | by constructor].
    - split; [done |]. split; [done |]. split; [by rewrite Nat.sub_diag |].
      split; [| constructor].
      exists b0. split; [done |]. by rewrite Nat.sub_diag. }
  destruct H as (_ & _ & _ & _ & Hall). rewrite Forall_forall in Hall. by apply Hall.
Qed.

End BackgroundProgress.

(** ** Global uniqueness of code values *)

Section Uniqueness.

Import System.

Lemma update_batch_progress_codes fault i g s st :
  Store.codes (Store.update_batch_progress fault i g s st) = Store.codes st.
Proof. unfold Store.update_batch_progress. by destruct fault. Qed.

Lemma create_distinct e st r w :
  codes_distinct st -> w ∈ CreateBatch.states (CreateBatch.handler e st r) ->
  codes_distinct w.
Proof.
  intros Hd. destruct (handler_states e st r) as [-> | (userId & f & qty & batchId & Hacc)].
  { by intros ?%elem_of_nil. }
  rewrite (handler_accepted _ _ _ _ _ _ _ Hacc). unfold CreateBatch.create.
  destruct (CreateBatch.batch_error e); [by intros ?%elem_of_nil |].
  destruct (Generator.generateCodes _ _) as [codes|].
  2:{ simpl. by intros ->%list_elem_of_singleton. }
  match goal with
  | |- context [Executor.insertCodes ?fl ?rs ?s1] =>
      destruct (insertCodes_spec fl rs s1) as ([_ Hg] & _ & _ & Hws)
  end.
  simpl. intros [-> | [Hw | ->%list_elem_of_singleton]%elem_of_app]%elem_of_cons.
  - done.
  - rewrite Forall_forall in Hws. destruct (Hws _ Hw) as [_ Hgw]. by apply Hgw.
  - unfold codes_distinct. rewrite update_batch_progress_codes. by apply Hg.
Qed.

Lemma process_batch_distinct site be batch r r' :
  codes_distinct (Scheduler.store r) -> Forall codes_distinct (Scheduler.states r) ->
  Scheduler.process_batch site be batch r = Some r' ->
  codes_distinct (Scheduler.store r') /\ Forall codes_distinct (Scheduler.states r').
Proof.
  intros Hd Hall. unfold Scheduler.process_batch.
  destruct (Generator.generateCodes _ _) as [codes|]; [| done].
  match goal with
  | |- context [Executor.insertCodes ?fl ?rs ?s1] =>
      destruct (insertCodes_spec fl rs s1) as ([_ Hg] & _ & _ & Hws)
  end.
  intros [= <-]. simpl.
  assert (Hlast : forall f i g s p,
             codes_distinct (Executor.store p) ->
             codes_distinct (Store.update_batch_progress f i g s (Executor.store p))).
  { intros f i g s p Hp. unfold codes_distinct. by rewrite update_batch_progress_codes. }
  split; [by apply Hlast, Hg |].
  apply Forall_app. split; [done |]. apply Forall_app. split.
  - eapply Forall_impl; [exact Hws |]. intros w [_ Hw]. by apply Hw.
  - constructor; [by apply Hlast, Hg | constructor].
Qed.

Lemma process_batches_distinct e k todo r :
  codes_distinct (Scheduler.store r) -> Forall codes_distinct (Scheduler.states r) ->
  Forall codes_distinct (Scheduler.states (Scheduler.process_batches e k todo r).1).
Proof.
  revert k r. induction todo as [|batch rest IH]; intros k r Hd Hall; simpl; [done |].
  destruct (Scheduler.process_batch _ _ batch r) as [r1|] eqn:Hp; [| done].
  destruct (process_batch_distinct _ _ _ _ _ Hd Hall Hp). by apply IH.
Qed.

Lemma scheduled_distinct e st w :
  codes_distinct st -> w ∈ Scheduler.o_states (Scheduler.handler e st) ->
  codes_distinct w.
Proof.
  intros Hd. unfold Scheduler.handler.
  destruct (Scheduler.fetch_error e); [by intros ?%elem_of_nil |].
  case_bool_decide; [by intros ?%elem_of_nil |].
  case_bool_decide; [by intros ?%elem_of_nil |].
  pose proof (process_batches_distinct e 0
                (Scheduler.incompleteBatches (Store.select_generating st))
                (Scheduler.mkRun st [] 0 []) Hd (List.Forall_nil _)) as Hall.
  destruct (Scheduler.process_batches _ _ _ _) as [r fin]. simpl in *.
  rewrite Forall_forall in Hall. apply Hall.
Qed.

Lemma write_distinct st st' : codes_distinct st -> write st st' -> codes_distinct st'.
Proof.
  intros Hd Hw. destruct Hw as [st st' Ht | e batch quantity userId st st' Hin].
  - destruct Ht as [e r st st' Hin | e st st' Hin | e r ph st].
    + by eapply create_distinct.
    + by eapply scheduled_distinct.
    + destruct (step_tables e r st ph) as (_ & Hv & _).
      unfold codes_distinct. by rewrite Hv.
  - by eapply background_distinct.
Qed.

(** C4: in every state that batch creations, scheduler runs,
    verifications and background generations can lead to, in any order
    and interrupted anywhere, no two code rows have the same value. The
    store's unique constraint is what guarantees it. *)
Theorem code_values_globally_unique (st : Store.t) :
  rtc write Store.empty st -> NoDup (Store.code_values (Store.codes st)).
Proof.
  intros Hrtc. change (codes_distinct st).
  assert (H0 : codes_distinct Store.empty) by constructor.
  revert H0. induction Hrtc as [st | st1 st2 st3 Hstep _ IH]; [done |].
  intros Hd. apply IH. by eapply write_distinct.
Qed.

Lemma code_values_globally_unique_witness :
  rtc write Store.empty Examples.store_caught_up
  /\ NoDup (Store.code_values (Store.codes Examples.store_caught_up)).
Proof.
  assert (Hrtc : rtc write Store.empty Examples.store_caught_up).
  { apply (rtc_l _ _ Examples.store_pending).
    - apply deployed, (create_batch (Examples.failing_env 2) (Examples.request 2)).
      apply (list_elem_of_lookup_2 _ 1). vm_compute. reflexivity.
    - apply rtc_once, deployed, (scheduled (Examples.tick_env 2)).
      apply (list_elem_of_lookup_2 _ 1). vm_compute. reflexivity. }
  split; [done | by apply code_values_globally_unique].
Defined.

End Uniqueness.

(** ** Durability of the progress count *)

Section ProgressDurability.

Import System.

Lemma update_batch_progress_row i g s st b :
  ids_ok st -> Store.batches st !! i = Some b ->
  exists b', Store.batches (Store.update_batch_progress false i g s st) !! i = Some b'
             /\ BatchRow.codes_generated b' = g /\ BatchRow.status b' = s.
Proof.
  intros Hids Hb. unfold Store.update_batch_progress. simpl.
  rewrite list_lookup_fmap, Hb. simpl.
  rewrite bool_decide_eq_true_2 by (by eapply ids_ok_lookup). eauto.
Qed.

Lemma update_batch_progress_batch_ids fault i g s st :
  map BatchRow.batch_id (Store.batches (Store.update_batch_progress fault i g s st))
  = map BatchRow.batch_id (Store.batches st).
Proof.
  unfold Store.update_batch_progress. destruct fault; [done |]. simpl.
  rewrite map_map. apply map_ext. intros b. by case_bool_decide.
Qed.

(** The progress update of the batch row that was appended last. *)
Lemma update_batch_progress_last st w row g s :
  ids_ok st -> BatchRow.id row = Store.fresh_batch_id st ->
  Store.batches w = Store.batches st ++ [row] ->
  Store.batches (Store.update_batch_progress false (BatchRow.id row) g s w)
  = Store.batches st
    ++ [BatchRow.mk (BatchRow.id row) (BatchRow.batch_id row) (BatchRow.manufacturer_id row)
          (BatchRow.product_name row) (BatchRow.product_code row)
          (BatchRow.product_category row) (BatchRow.quantity row)
          (BatchRow.manufacturing_date row) (BatchRow.expiring_date row) g s].
Proof.
  intros Hids Hid Hw. unfold Store.update_batch_progress. simpl.
  rewrite Hw, map_app. simpl. rewrite bool_decide_eq_true_2 by done. f_equal.
  rewrite <- (map_id (Store.batches st)) at 2. apply map_ext_in.
  intros b Hb%list_elem_of_In. apply list_elem_of_lookup in Hb as (i & Hi).
  rewrite bool_decide_eq_false_2; [done |].
  rewrite (ids_ok_lookup st i b Hids Hi), Hid. unfold Store.fresh_batch_id.
  apply lookup_lt_Some in Hi. lia.
Qed.

Lemma buildRecords_values codes batchUUID manufacturerId siteUrl :
  Store.code_values (Executor.buildRecords codes batchUUID manufacturerId siteUrl) = codes.
Proof.
  unfold Store.code_values, Executor.buildRecords. rewrite map_map. simpl. apply map_id.
Qed.

Lemma select_batch_maybe_single_found s l :
  NoDup (map BatchRow.batch_id l) -> s ∈ map BatchRow.batch_id l ->
  exists b, List.filter (fun b => bool_decide (BatchRow.batch_id b = s)) l = [b].
Proof.
  induction l as [|x l IH]; simpl; [by intros _ ?%elem_of_nil |].
  intros [Hx Hnd]%NoDup_cons Hin. case_bool_decide as Heq.
  - exists x. f_equal. apply filter_nothing, Forall_forall. intros y Hy.
    apply bool_decide_eq_false. intros Hs. apply Hx. rewrite Heq, <- Hs.
    apply list_elem_of_fmap. eauto.
  - apply elem_of_cons in Hin as [Hin | Hin]; [done |]. by apply IH.
Qed.

(** While [insertCodes] writes its chunks the batch table is not
    touched. *)
Lemma insertCodes_leaves_batches fault records st :
  Store.batches (Executor.store (Executor.insertCodes fault records st)) = Store.batches st
  /\ forall w, w ∈ Executor.written (Executor.insertCodes fault records st) ->
               Store.batches w = Store.batches st.
Proof.
  destruct (insertCodes_spec fault records st) as ([(Hb & _) _] & _ & _ & Hws).
  split; [done |]. intros w Hw. rewrite Forall_forall in Hws.
  by destruct (Hws w Hw) as [(Hbw & _) _].
Qed.

(** Batch creation writes the count once, after the last chunk: the
    number of rows it inserted. *)
Lemma create_final_count e st userId f qty batchId codes :
  ids_ok st ->
  CreateBatch.batch_error e = false -> CreateBatch.update_fault e = false ->
  Generator.generateCodes (CreateBatch.tape e) (Z.min qty CreateBatch.SYNC_LIMIT)
    = Some codes ->
  let o := CreateBatch.create e st userId f qty batchId in
  exists b', Store.batches (CreateBatch.final st o) !! Store.fresh_batch_id st = Some b'
             /\ BatchRow.codes_generated b'
                = Z.of_nat (length (Store.codes (CreateBatch.final st o))
                            - length (Store.codes st)).
Proof.
  intros Hids Hbe Hupd Hgen. unfold CreateBatch.create, CreateBatch.final.
  rewrite Hbe, Hgen, Hupd. cbn [CreateBatch.states].
  match goal with
  | |- context [Executor.insertCodes ?fl ?rs ?s1] =>
      destruct (insertCodes_spec fl rs s1) as ([(Hb & _) _] & Hn & _ & _);
      set (p := Executor.insertCodes fl rs s1) in *
  end.
  rewrite app_assoc, last_last.
  set (batch := CreateBatch.new_batch st userId f qty batchId) in *.
  assert (Hrow : Store.batches (Executor.store p) !! Store.fresh_batch_id st = Some batch).
  { rewrite Hb. simpl. unfold Store.fresh_batch_id. by rewrite list_lookup_middle. }
  assert (Hids' : ids_ok (Executor.store p)).
  { unfold ids_ok in *. rewrite Hb. simpl.
    rewrite map_app, length_app, seq_app, Hids. done. }
  destruct (update_batch_progress_row (Store.fresh_batch_id st) (Executor.inserted p)
              (if Executor.inserted p >=? qty then complete else generating)
              (Executor.store p) batch Hids' Hrow) as (b' & Hb' & Hg & _).
  exists b'. split; [done |].
  rewrite Hg, update_batch_progress_codes, Hn. done.
Qed.

(** The scheduler does the same for each batch it processes: previous
    count plus the rows inserted. *)
Lemma process_batch_final_count site be batch r r' :
  ids_ok (Scheduler.store r) ->
  Store.batches (Scheduler.store r) !! BatchRow.id batch = Some batch ->
  Scheduler.update_fault be = false ->
  Scheduler.process_batch site be batch r = Some r' ->
  exists b', Store.batches (Scheduler.store r') !! BatchRow.id batch = Some b'
             /\ BatchRow.codes_generated b'
                = BatchRow.codes_generated batch
                  + Z.of_nat (length (Store.codes (Scheduler.store r'))
                              - length (Store.codes (Scheduler.store r))).
Proof.
  intros Hids Hrow Hupd. unfold Scheduler.process_batch.
  destruct (Generator.generateCodes _ _) as [codes|]; [| done].
  match goal with
  | |- context [Executor.insertCodes ?fl ?rs ?s1] =>
      destruct (insertCodes_spec fl rs s1) as ([(Hb & _) _] & Hn & _ & _);
      set (p := Executor.insertCodes fl rs s1) in *
  end.
  intros [= <-]. simpl. rewrite Hupd.
  assert (Hids' : ids_ok (Executor.store p)) by (unfold ids_ok; by rewrite Hb).
  rewrite <- Hb in Hrow.
  destruct (update_batch_progress_row (BatchRow.id batch)
              (BatchRow.codes_generated batch + Executor.inserted p)
              (if BatchRow.codes_generated batch + Executor.inserted p
                  >=? BatchRow.quantity batch then complete else generating)
              (Executor.store p) batch Hids' Hrow) as (b' & Hb' & Hg & _).
  exists b'. split; [done |]. by rewrite Hg, update_batch_progress_codes, Hn.
Qed.

(** C6 (as the code has it): the background generator writes the
    running total to the batch after each sub-chunk it has inserted, so
    that, no progress update failing, at every sub-chunk boundary the
    stored count is the number of rows written so far. [insertCodes] of
    batch creation and scheduled generation does not: it leaves the
    batch table alone while it writes its chunks. Batch creation writes
    the batch row, then the chunks, then the count, once, as the number
    of rows inserted; in every state between, the batch row is as it was
    created. The scheduled run does the same for each batch it
    processes: its states are those of the chunk writes, in which the
    batch row is as the run fetched it, and then one progress write, of
    the previous count plus the rows inserted. *)
Theorem count_written_per_chunk_only_in_background
    (e : Background.env) (st : Store.t) (batch b0 : BatchRow.t) (quantity : Z)
    (userId : nat)
    (ce : CreateBatch.env) (cst : Store.t) (cuser : nat) (cf : CreateBatch.fields)
    (cqty : Z) (cbatchId : string) (codes : list string)
    (site : string) (be : Scheduler.batch_env) (sbatch : BatchRow.t)
    (sr sr' : Scheduler.run) :
  ids_ok st ->
  Store.batches st !! BatchRow.id batch = Some b0 ->
  BatchRow.codes_generated b0 = 0 ->
  (forall offset i, Background.update_fault e offset i = false) ->
  ids_ok cst ->
  CreateBatch.batch_error ce = false -> CreateBatch.update_fault ce = false ->
  Generator.generateCodes (CreateBatch.tape ce) (Z.min cqty CreateBatch.SYNC_LIMIT)
    = Some codes ->
  ids_ok (Scheduler.store sr) ->
  Store.batches (Scheduler.store sr) !! BatchRow.id sbatch = Some sbatch ->
  Scheduler.update_fault be = false ->
  Scheduler.process_batch site be sbatch sr = Some sr' ->
  let o := CreateBatch.create ce cst cuser cf cqty cbatchId in
  let p := Executor.insertCodes (CreateBatch.insert_fault ce)
             (Executor.buildRecords codes (Store.fresh_batch_id cst) cuser
                (CreateBatch.siteUrl ce))
             (Store.insert_batch (CreateBatch.new_batch cst cuser cf cqty cbatchId) cst) in
  (forall w,
      w ∈ Background.boundaries
            (Background.generateCodesInBackground e st batch quantity userId).1 ->
      exists b', Store.batches w !! BatchRow.id batch = Some b'
                 /\ BatchRow.codes_generated b'
                    = Z.of_nat (length (Store.codes w) - length (Store.codes st)))
  /\ CreateBatch.states o
     = [Store.insert_batch (CreateBatch.new_batch cst cuser cf cqty cbatchId) cst]
       ++ Executor.written p
       ++ [CreateBatch.final cst o]
  /\ (forall w, w ∈ Executor.written p ->
                Store.batches w !! Store.fresh_batch_id cst
                = Some (CreateBatch.new_batch cst cuser cf cqty cbatchId))
  /\ (exists b', Store.batches (CreateBatch.final cst o) !! Store.fresh_batch_id cst = Some b'
                 /\ BatchRow.codes_generated b'
                    = Z.of_nat (length (Store.codes (CreateBatch.final cst o))
                                - length (Store.codes cst)))
  /\ exists scodes,
       Generator.generateCodes (Scheduler.tape be)
         (Z.min Scheduler.CODES_PER_RUN
            (BatchRow.quantity sbatch - BatchRow.codes_generated sbatch))
       = Some scodes
       /\ let sp := Executor.insertCodes (Scheduler.insert_fault be)
                      (Executor.buildRecords scodes (BatchRow.id sbatch)
                         (BatchRow.manufacturer_id sbatch) site)
                      (Scheduler.store sr) in
          Scheduler.states sr'
          = Scheduler.states sr ++ Executor.written sp ++ [Scheduler.store sr']
          /\ (forall w, w ∈ Executor.written sp ->
                        Store.batches w !! BatchRow.id sbatch = Some sbatch)
          /\ exists b', Store.batches (Scheduler.store sr') !! BatchRow.id sbatch = Some b'
                        /\ BatchRow.codes_generated b'
                           = BatchRow.codes_generated sbatch
                             + Z.of_nat (length (Store.codes (Scheduler.store sr'))
                                         - length (Store.codes (Scheduler.store sr))).
Proof.
  intros Hids Hb0 Hzero Hupd Hcids Hbe Hcupd Hgen Hsids Hsrow Hsupd Hpb o p.
  split; [| split; [| split; [| split]]].
  - intros w Hw. by eapply background_count_at_boundaries.
  - unfold o, CreateBatch.final, CreateBatch.create. rewrite Hbe, Hgen.
    cbn [CreateBatch.states]. by rewrite app_assoc, last_last, <- app_assoc.
  - intros w Hw.
    destruct (insertCodes_leaves_batches (CreateBatch.insert_fault ce)
                (Executor.buildRecords codes (Store.fresh_batch_id cst) cuser
                   (CreateBatch.siteUrl ce))
                (Store.insert_batch (CreateBatch.new_batch cst cuser cf cqty cbatchId) cst))
      as [_ Hws].
    rewrite (Hws w Hw). simpl. unfold Store.fresh_batch_id. by rewrite list_lookup_middle.
  - by eapply create_final_count.
  - destruct (process_batch_final_count site be sbatch sr sr' Hsids Hsrow Hsupd Hpb)
      as (b' & Hb' & Hcount).
    unfold Scheduler.process_batch in Hpb.
    destruct (Generator.generateCodes (Scheduler.tape be) _) as [scodes|]; [| done].
    exists scodes. split; [done |]. cbv zeta.
    destruct (insertCodes_leaves_batches (Scheduler.insert_fault be)
                (Executor.buildRecords scodes (BatchRow.id sbatch)
                   (BatchRow.manufacturer_id sbatch) site)
                (Scheduler.store sr)) as [_ Hws].
    injection Hpb as <-. cbn [Scheduler.states Scheduler.store] in *.
    split; [done |]. split; [| by exists b'].
    intros w Hw. by rewrite (Hws w Hw).
Qed.

Lemma count_written_per_chunk_only_in_background_witness :
  let st := Examples.store_queued in
  let batch := Examples.queued_batch in
  let run :=
    (Background.generateCodesInBackground (Examples.background_env 501) st batch 501 7).1 in
  let o := CreateBatch.create (Examples.create_env 2) Store.empty 7
             (Examples.fields_of 2) 2 "BN20240101ABC123" in
  let tick :=
    Scheduler.process_batch Examples.site
      (Scheduler.per_batch (Examples.tick_env 2) 0) Examples.pending_batch
      (Scheduler.mkRun Examples.store_pending [] 0 []) in
  BatchRow.quantity batch = 501
  /\ map (fun w => (length (Store.codes w),
                    BatchRow.codes_generated <$> Store.batches w !! 0%nat))
       (Background.boundaries run)
     = [(500%nat, Some 500); (501%nat, Some 501)]
  /\ Forall (fun w => exists b',
                 Store.batches w !! 0%nat = Some b'
                 /\ BatchRow.codes_generated b' = Z.of_nat (length (Store.codes w)))
       (Background.boundaries run)
  /\ length (CreateBatch.states o) = 3%nat
  /\ (BatchRow.codes_generated <$> Store.batches (CreateBatch.final Store.empty o) !! 0%nat)
     = Some 2
  /\ exists sr',
       tick = Some sr'
       /\ map (fun w => (length (Store.codes w),
                         BatchRow.codes_generated <$> Store.batches w !! 0%nat))
            (Scheduler.states sr')
          = [(2%nat, Some 0); (2%nat, Some 2)].
Proof.
  intros st batch run o tick.
  assert (Hgen : Generator.generateCodes (CreateBatch.tape (Examples.create_env 2))
                   (Z.min 2 CreateBatch.SYNC_LIMIT)
                 = Some ["AAAAAAAAAAAA"; "BAAAAAAAAAAA"]%string)
    by (vm_compute; reflexivity).
  destruct tick as [sr'|] eqn:Htick; [| by vm_compute in Htick].
  destruct (count_written_per_chunk_only_in_background
              (Examples.background_env 501) st batch batch 501 7
              (Examples.create_env 2) Store.empty 7 (Examples.fields_of 2) 2
              "BN20240101ABC123" _
              Examples.site (Scheduler.per_batch (Examples.tick_env 2) 0)
              Examples.pending_batch (Scheduler.mkRun Examples.store_pending [] 0 []) sr'
              eq_refl eq_refl eq_refl (fun _ _ => eq_refl) eq_refl eq_refl eq_refl Hgen
              eq_refl eq_refl eq_refl Htick)
    as (Hbg & Hstates & _ & (b' & Hb' & Hcount) & _).
  split; [reflexivity |]. split; [vm_compute; reflexivity |]. split; [| split; [| split]].
  - apply Forall_forall. intros w Hw. destruct (Hbg w Hw) as (b1 & Hb1 & Hc1).
    exists b1. split; [exact Hb1 |]. rewrite Hc1. f_equal.
    change (length (Store.codes st)) with 0%nat. lia.
  - fold o in Hstates. rewrite Hstates. vm_compute. reflexivity.
  - fold o in Hb'. change (Store.fresh_batch_id Store.empty) with 0%nat in Hb'.
    rewrite Hb'. simpl. f_equal. rewrite Hcount. vm_compute. reflexivity.
  - exists sr'. split; [reflexivity |].
    vm_compute in Htick. injection Htick as <-. vm_compute. reflexivity.
Defined.

(** C6 (counterexample): a batch of 1001 codes created on an empty
    store, all storage working. The invocation writes four times: the
    batch row, two chunks, the progress. In the state between the two
    chunk writes the first chunk's thousand rows are stored and the
    batch's count is still zero. *)
Lemma create_batch_count_lags_chunk_writes :
  let o := CreateBatch.handler (Examples.create_env 1001) Store.empty
             (Examples.request 1001) in
  let w := nth 1 (CreateBatch.states o) Store.empty in
  length (CreateBatch.states o) = 4%nat
  /\ length (Store.codes w) = 1000%nat
  /\ (BatchRow.codes_generated <$> Store.batches w !! 0%nat) = Some 0.
Proof. vm_compute. repeat split. Qed.

End ProgressDurability.

(** ** The response of batch creation *)

Section CreateBatchResponse.

Import CreateBatch System.

(** C10: a request that passes validation and whose batch record is
    created is answered with 201 and the created batch whenever the
    generator returns, whatever happens to the code inserts: the
    [codes_generated] of the response is the number of rows actually
    inserted and the status is [generating] while that is short of the
    quantity. The batch the response names is stored: the batch table
    has the new row at its end, under the identifier of the response,
    carrying the same count and status when the progress update went
    through and count 0 and [generating] when it did not. In
    particular, when every chunk insert fails, no row is inserted and
    the response is still 201, with [codes_generated] 0 and status
    [generating], the batch row being stored as it was created. *)
Theorem create_batch_answers_201_whatever_the_inserts
    (e : env) (st : Store.t) (r : request) (userId : nat) (f : fields) (qty : Z)
    (batchId : string) (codes : list string) :
  accepted e st r userId f qty batchId ->
  batch_error e = false ->
  Generator.generateCodes (tape e) (Z.min qty SYNC_LIMIT) = Some codes ->
  let o := handler e st r in
  let inserted :=
    Z.of_nat (length (Store.codes (final st o)) - length (Store.codes st)) in
  let s := if inserted >=? qty then complete else generating in
  (exists msg,
      reply o
      = Some (respond 201
                (Created msg
                   (mkSummary (Store.fresh_batch_id st) batchId (productName f) qty
                      inserted s))))
  /\ (ids_ok st ->
      Store.batches (final st o)
      = Store.batches st
        ++ [if update_fault e then new_batch st userId f qty batchId
            else BatchRow.mk (Store.fresh_batch_id st) batchId userId (productName f)
                   (Js.or_null (productCode f)) (productCategory f) qty
                   (Js.or_null (manufacturingDate f)) (Js.or_null (expiringDate f))
                   inserted s])
  /\ ((forall k, insert_fault e k = true) ->
      Store.codes (final st o) = Store.codes st
      /\ (ids_ok st ->
          Store.batches (final st o)
          = Store.batches st ++ [new_batch st userId f qty batchId])
      /\ reply o
         = Some (respond 201
                   (Created (RemainingLater 0 qty)
                      (mkSummary (Store.fresh_batch_id st) batchId (productName f) qty
                         0 generating)))).
Proof.
  intros Hacc Hbe Hgen o inserted s.
  assert (Hq : 1 <= qty) by (by destruct Hacc as (_ & _ & _ & _ & _ & _ & [? _] & _)).
  unfold s, inserted, o. rewrite (handler_accepted _ _ _ _ _ _ _ Hacc).
  unfold create, final. rewrite Hbe, Hgen. cbn [states reply].
  rewrite app_assoc, last_last, update_batch_progress_codes.
  set (batch := new_batch st userId f qty batchId).
  match goal with
  | |- context [Executor.insertCodes ?fl ?rs ?s1] =>
      destruct (insertCodes_spec fl rs s1) as (_ & Hn & _ & _);
      pose proof (insertCodes_all_fail fl rs s1) as Hfail;
      destruct (insertCodes_leaves_batches fl rs s1) as [Hb _];
      set (p := Executor.insertCodes fl rs s1) in *
  end.
  change (Store.codes (Store.insert_batch batch st)) with (Store.codes st) in Hn.
  change (Store.batches (Store.insert_batch batch st))
    with (Store.batches st ++ [batch]) in Hb.
  rewrite <- Hn.
  assert (Hrows : ids_ok st ->
            Store.batches
              (Store.update_batch_progress (update_fault e) (BatchRow.id batch)
                 (Executor.inserted p)
                 (if Executor.inserted p >=? qty then complete else generating)
                 (Executor.store p))
            = Store.batches st
              ++ [if update_fault e then batch
                  else BatchRow.mk (Store.fresh_batch_id st) batchId userId (productName f)
                         (Js.or_null (productCode f)) (productCategory f) qty
                         (Js.or_null (manufacturingDate f)) (Js.or_null (expiringDate f))
                         (Executor.inserted p)
                         (if Executor.inserted p >=? qty then complete else generating)]).
  { intros Hids. destruct (update_fault e); [done |].
    by rewrite (update_batch_progress_last st (Executor.store p) batch _ _ Hids eq_refl Hb). }
  split; [| split; [done |]].
  - destruct (Executor.inserted p >=? qty); eauto.
  - intros Hall. destruct (Hfail Hall) as [Hst H0]. fold p in Hst, H0.
    assert (Hge : (0 >=? qty) = false).
    { rewrite Z.geb_leb. apply Z.leb_gt. lia. }
    rewrite Hst in *. rewrite H0 in *. rewrite Hge in *.
    split; [done |]. split; [| by rewrite Z.sub_0_r].
    intros Hids. rewrite (Hrows Hids). by destruct (update_fault e).
Qed.

Lemma create_batch_answers_201_whatever_the_inserts_witness :
  let o := handler (Examples.failing_env 2) Store.empty (Examples.request 2) in
  accepted (Examples.failing_env 2) Store.empty (Examples.request 2) 7
    (Examples.fields_of 2) 2 "BN20240102DEF456"
  /\ Store.codes (final Store.empty o) = []
  /\ Store.batches (final Store.empty o)
     = [BatchRow.mk 0 "BN20240102DEF456" 7 "Soap" None "Care" 2 None None 0 generating]
  /\ reply o
     = Some (respond 201
               (Created (RemainingLater 0 2)
                  (mkSummary 0 "BN20240102DEF456" "Soap" 2 0 generating))).
Proof.
  intros o.
  assert (Hacc : accepted (Examples.failing_env 2) Store.empty (Examples.request 2) 7
                   (Examples.fields_of 2) 2 "BN20240102DEF456").
  { unfold accepted. simpl. repeat split; (done || lia). }
  split; [done |].
  destruct (create_batch_answers_201_whatever_the_inserts
              (Examples.failing_env 2) Store.empty (Examples.request 2) 7
              (Examples.fields_of 2) 2 "BN20240102DEF456"
              ["AAAAAAAAAAAA"; "BAAAAAAAAAAA"]%string Hacc eq_refl)
    as (_ & _ & Hall); [vm_compute; reflexivity |].
  destruct (Hall (fun _ => eq_refl)) as (Hcodes & Hrows & Hreply).
  split; [exact Hcodes |]. split; [exact (Hrows eq_refl) | exact Hreply].
Defined.

End CreateBatchResponse.

(** ** The outcome of a verification call *)

Section VerifyOutcome.

Import Verify.

Lemma lookup_found e st r cleanCode codeRecord b :
  lookup e st r = Looked cleanCode (Some (codeRecord, b)) ->
  Store.select_code_single cleanCode st = Some codeRecord
  /\ b = Store.joined_batch codeRecord st.
Proof.
  unfold lookup. destruct (negb _ && negb _); [done |].
  destruct (code r) as [| | c]; [done | done |].
  case_bool_decide; [done |].
  destruct (lookup_fault e); [done |].
  destruct (Store.select_code_single _ st) as [rec|] eqn:Hsel; [| done].
  intros [= <- <- <-]. done.
Qed.

Lemma no_affected_rows c now st :
  Store.affected_rows c st = 0%nat ->
  map (fun r => if Store.still_active c r then Store.mark_verified now r else r)
    (Store.codes st) = Store.codes st.
Proof.
  unfold Store.affected_rows. intros Hnone%length_zero_iff_nil.
  induction (Store.codes st) as [|x l IH]; simpl in *; [done |].
  destruct (Store.still_active c x); [done |]. by rewrite IH.
Qed.

(** A call run alone always ends with a response. *)
Lemma lookup_phase e st r :
  (exists c found, lookup e st r = Looked c found) \/ (exists resp, lookup e st r = Done resp).
Proof.
  unfold lookup. destruct (negb _ && negb _); [eauto |].
  destruct (code r) as [| | c]; [eauto | eauto |].
  case_bool_decide; eauto.
Qed.

Lemma handler_returns e st r : exists resp, (handler e st r).2 = Done resp.
Proof.
  unfold handler. cbn [step].
  destruct (lookup_phase e st r) as [(c & [[rec b] |] & ->) | (resp & ->)]; cbn [step].
  - case_bool_decide; cbn [step]; [eauto |].
    destruct (Store.update_code_verified _ _ _ _). cbn [step]. eauto.
  - eauto.
  - eauto.
Qed.

(** Once a call has read an unverified record, nothing it meets later
    changes its answer: whatever the update returns and whatever the
    store holds by then, the attempt is logged and answered as a
    success. *)
Lemma read_unverified_answers_success e r st st' cleanCode codeRecord b :
  CodeRow.status codeRecord <> verified ->
  exists err,
    (step e r st (Looked cleanCode (Some (codeRecord, b)))).2
    = Marked cleanCode codeRecord b err
    /\ step e r st' (Marked cleanCode codeRecord b err)
       = (Store.insert_verification (log_fault e)
            (attempt e r cleanCode success
               (Some (CodeRow.manufacturer_id codeRecord))
               (Some (CodeRow.batch_id codeRecord))) st',
          Done (success_response e b)).
Proof.
  intros Hst. simpl. rewrite bool_decide_eq_false_2 by done.
  destruct (Store.update_code_verified _ _ _ _) as [st1 err]. by exists err.
Qed.

(** C1 (as the code has it): the handler never looks at how many rows
    its conditional update affected. A call that read the code as active
    and whose update then affects no row, because the stored status is
    no longer active, changes nothing in [codes], logs the attempt as a
    success and answers with the success outcome. *)
Theorem lost_race_is_answered_as_success
    (e : env) (r : request) (st : Store.t) (cleanCode : string)
    (codeRecord : CodeRow.t) (b : option BatchRow.t) :
  CodeRow.status codeRecord = active ->
  Store.affected_rows cleanCode st = 0%nat ->
  let w1 := step e r st (Looked cleanCode (Some (codeRecord, b))) in
  let w2 := step e r w1.1 w1.2 in
  Store.codes w1.1 = Store.codes st
  /\ w2.1 = Store.insert_verification (log_fault e)
              (attempt e r cleanCode success
                 (Some (CodeRow.manufacturer_id codeRecord))
                 (Some (CodeRow.batch_id codeRecord))) w1.1
  /\ w2.2 = Done (success_response e b)
  /\ status_of w2.2 = Some "success"%string.
Proof.
  intros Hact Hnone. cbv zeta.
  destruct (step e r st (Looked cleanCode (Some (codeRecord, b)))) as [st1 ph1] eqn:Hw1.
  simpl in Hw1. rewrite bool_decide_eq_false_2 in Hw1 by (by rewrite Hact).
  unfold Store.update_code_verified in Hw1.
  destruct (update_fault e); injection Hw1 as <- <-; simpl.
  - done.
  - split; [by apply no_affected_rows | done].
Qed.

Lemma lost_race_is_answered_as_success_witness :
  let st := Examples.store_scanned in
  let rec := Examples.fresh_record in
  let w1 := step (Examples.verify_env false) (Examples.scan "AAAAAAAAAAAA") st
              (Looked "AAAAAAAAAAAA" (Some (rec, None))) in
  let w2 := step (Examples.verify_env false) (Examples.scan "AAAAAAAAAAAA") w1.1 w1.2 in
  CodeRow.status rec = active
  /\ Store.affected_rows "AAAAAAAAAAAA" st = 0%nat
  /\ status_of w2.2 = Some "success"%string
  /\ logged success "AAAAAAAAAAAA" w2.1 = 2%nat.
Proof.
  cbv zeta. split; [reflexivity |]. split; [reflexivity |].
  destruct (lost_race_is_answered_as_success (Examples.verify_env false)
              (Examples.scan "AAAAAAAAAAAA") Examples.store_scanned "AAAAAAAAAAAA"
              Examples.fresh_record None eq_refl eq_refl) as (_ & Hlog & _ & Hstatus).
  split; [exact Hstatus |]. rewrite Hlog. vm_compute. reflexivity.
Defined.

(** C9: when the conditional update returns a storage error the call
    goes on as if it had not: the error is not propagated, the attempt
    is logged as a success, the answer is the success outcome, and the
    code row is unchanged in the store, still not verified. *)
Theorem update_error_is_answered_as_success
    (e : env) (r : request) (st : Store.t) (cleanCode : string)
    (codeRecord : CodeRow.t) (b : option BatchRow.t) :
  lookup e st r = Looked cleanCode (Some (codeRecord, b)) ->
  CodeRow.status codeRecord <> verified ->
  update_fault e = true ->
  handler e st r
  = (Store.insert_verification (log_fault e)
       (attempt e r cleanCode success
          (Some (CodeRow.manufacturer_id codeRecord))
          (Some (CodeRow.batch_id codeRecord))) st,
     Done (success_response e b))
  /\ Store.codes (handler e st r).1 = Store.codes st
  /\ Store.select_code_single cleanCode (handler e st r).1 = Some codeRecord.
Proof.
  intros Hlook Hst Hfault.
  assert (Hrun : handler e st r
                 = (Store.insert_verification (log_fault e)
                      (attempt e r cleanCode success
                         (Some (CodeRow.manufacturer_id codeRecord))
                         (Some (CodeRow.batch_id codeRecord))) st,
                    Done (success_response e b))).
  { unfold handler. cbn [step]. rewrite Hlook. cbn [step].
    rewrite bool_decide_eq_false_2 by done.
    unfold Store.update_code_verified. rewrite Hfault. done. }
  rewrite Hrun. split; [done |]. simpl.
  destruct (insert_verification_tables (log_fault e)
              (attempt e r cleanCode success
                 (Some (CodeRow.manufacturer_id codeRecord))
                 (Some (CodeRow.batch_id codeRecord))) st) as [Hc _].
  split; [done |].
  destruct (lookup_found _ _ _ _ _ _ Hlook) as [Hsel _].
  unfold Store.select_code_single in *. by rewrite Hc.
Qed.

Lemma update_error_is_answered_as_success_witness :
  let e := Examples.verify_env true in
  let r := Examples.scan " aaaaaaaaaaaa " in
  let st := Examples.store_complete in
  lookup e st r
  = Looked "AAAAAAAAAAAA"
      (Some (Examples.fresh_record, Store.joined_batch Examples.fresh_record st))
  /\ update_fault e = true
  /\ status_of (handler e st r).2 = Some "success"%string
  /\ logged success "AAAAAAAAAAAA" (handler e st r).1 = 1%nat
  /\ (CodeRow.status <$> Store.select_code_single "AAAAAAAAAAAA" (handler e st r).1)
     = Some active.
Proof.
  cbv zeta.
  assert (Hlook : lookup (Examples.verify_env true) Examples.store_complete
                    (Examples.scan " aaaaaaaaaaaa ")
                  = Looked "AAAAAAAAAAAA"
                      (Some (Examples.fresh_record,
                             Store.joined_batch Examples.fresh_record
                               Examples.store_complete)))
    by (vm_compute; reflexivity).
  split; [exact Hlook |]. split; [reflexivity |].
  destruct (update_error_is_answered_as_success _ _ _ _ _ _ Hlook) as (Hrun & _ & Hsel);
    [discriminate | reflexivity |].
  rewrite Hsel, Hrun. split; [reflexivity |]. split; [vm_compute; reflexivity | reflexivity].
Defined.

End VerifyOutcome.

(** ** The step-by-step workflow reads the result of its update *)

Section VerificationWorkflowFacts.

Import VerificationWorkflow.

Lemma update_first_active_none c change l :
  Forall (fun r => ~ (code r = c /\ status r = Workflow.active)) l ->
  update_first_active c change l = (l, false).
Proof.
  induction 1 as [|r l Hr _ IH]; simpl; [done |].
  destruct (bool_decide (code r = c) && bool_decide (status r = Workflow.active)) eqn:Hm.
  - apply andb_true_iff in Hm as [?%bool_decide_eq_true ?%bool_decide_eq_true]. tauto.
  - by rewrite IH.
Qed.

(** What the verification handler of the deployed functions misses: a
    call of the workflow that had found the code active and whose
    conditional update finds no active document any more is logged and
    answered as a duplicate. *)
Lemma workflow_lost_race_is_duplicate e d input method m c statusCheck :
  shouldUpdate statusCheck = true -> update_fault e = false ->
  Forall (fun r => ~ (code r = c /\ status r = Workflow.active)) (codes d) ->
  conclude e d input method m (Checked c statusCheck)
  = (logVerification e (Some c) method "duplicate" m d,
     mkResult false "duplicate" "Code was just verified by another request"
       (productInfo statusCheck) (Some (now e))).
Proof.
  intros Hupd Hfault Hnone. unfold conclude, markCodeAsVerified.
  rewrite Hupd, Hfault, (update_first_active_none _ _ _ Hnone). simpl.
  by destruct d.
Qed.

(** Two calls of the workflow that both find the code active before
    either updates it: one success, one duplicate. *)
Example workflow_concurrent_scans_one_success :
  let e := Examples.backend_env in
  let input := Some "AAAAAAAAAAAA"%string in
  let x1 := examine e Examples.backend_db input in
  let x2 := examine e Examples.backend_db input in
  let w1 := conclude e Examples.backend_db input "qr" Examples.backend_browser x1 in
  let w2 := conclude e w1.1 input "qr" Examples.backend_browser x2 in
  (r_status w1.2, r_status w2.2) = ("success", "duplicate")%string
  /\ map l_result (verifications w2.1) = ["success"; "duplicate"]%string.
Proof. vm_compute. split; reflexivity. Qed.

End VerificationWorkflowFacts.

(** ** Calls side by side *)

Section Concurrency.

Import Verify.

(** Two scans of a fresh code one after the other: the first is a
    success, the second a duplicate. *)
Example sequential_scans_second_is_duplicate :
  let e := Examples.verify_env false in
  let w := run [0; 0; 0; 1; 1; 1]%nat
             (Examples.store_complete,
              [spawn e (Examples.scan "AAAAAAAAAAAA");
               spawn e (Examples.scan "AAAAAAAAAAAA")]) in
  map (fun t => status_of (t_phase t)) w.2
  = [Some "success"; Some "duplicate"]%string
  /\ logged success "AAAAAAAAAAAA" w.1 = 1%nat
  /\ logged duplicate "AAAAAAAAAAAA" w.1 = 1%nat.
Proof. vm_compute. repeat split. Qed.

(** However the calls are scheduled, one that has read the code as
    unverified can answer nothing but success: what the other calls do
    to the store in the meantime does not reach its answer. *)
Lemma read_unverified_can_only_answer_success schedule st ts i t cleanCode codeRecord b :
  CodeRow.status codeRecord <> verified ->
  ts !! i = Some t ->
  after_read (t_env t) cleanCode codeRecord b (t_phase t) ->
  exists t', (run schedule (st, ts)).2 !! i = Some t'
             /\ t_env t' = t_env t
             /\ after_read (t_env t) cleanCode codeRecord b (t_phase t').
Proof.
  intros Hst. revert st ts t. induction schedule as [|j schedule IH];
    intros st ts t Hi Hph; simpl.
  { exists t. done. }
  unfold move. simpl.
  destruct (ts !! j) as [tj|] eqn:Hj; [| by apply IH].
  destruct (step (t_env tj) (t_request tj) st (t_phase tj)) as [st' ph'] eqn:Hstep.
  destruct (decide (j = i)) as [-> | Hne].
  - rewrite Hi in Hj. injection Hj as <-.
    apply (IH st' _ (mkThread (t_env t) (t_request t) ph')).
    + apply list_lookup_insert_eq. by eapply lookup_lt_Some.
    + simpl. destruct Hph as [Hph | [[err Hph] | Hph]]; rewrite Hph in Hstep; simpl in Hstep.
      * rewrite bool_decide_eq_false_2 in Hstep by done.
        destruct (Store.update_code_verified _ _ _ _) as [st1 err].
        injection Hstep as <- <-. right. left. by exists err.
      * injection Hstep as <- <-. by right; right.
      * injection Hstep as <- <-. by right; right.
  - apply (IH st' _ t); [| done]. by rewrite list_lookup_insert_ne.
Qed.

(** C2 (as the code has it): two calls scan the same active code and
    both look it up before either updates it. The first update affects
    one row, the second none, and both calls answer success: two success
    attempts and no duplicate attempt are logged, the code ending
    verified. *)
Theorem two_concurrent_scans_both_succeed :
  let e := Examples.verify_env false in
  let w := run [0; 1; 0; 1; 0; 1]%nat
             (Examples.store_complete,
              [spawn e (Examples.scan "AAAAAAAAAAAA");
               spawn e (Examples.scan "AAAAAAAAAAAA")]) in
  (CodeRow.status <$> Store.select_code_single "AAAAAAAAAAAA" Examples.store_complete)
  = Some active
  /\ map (fun t => status_of (t_phase t)) w.2
     = [Some "success"; Some "success"]%string
  /\ logged success "AAAAAAAAAAAA" w.1 = 2%nat
  /\ logged duplicate "AAAAAAAAAAAA" w.1 = 0%nat
  /\ (CodeRow.status <$> Store.select_code_single "AAAAAAAAAAAA" w.1) = Some verified.
Proof. vm_compute. repeat split. Qed.

End Concurrency.

(** ** The life of a code record *)

Section CodeLife.

Import System.

Lemma logVerification_codes e c codeId method res m msg batch manufacturer d :
  Workflow.codes
    (Workflow.logVerification e c codeId method res m msg batch manufacturer d)
  = Workflow.codes d.
Proof. unfold Workflow.logVerification. by destruct (Workflow.log_fault e). Qed.

(** What [verifyCode] may do to a stored code: nothing, flag it, or mark
    it verified. *)
Lemma verifyCode_codes e d input method m j c :
  Workflow.codes d !! j = Some c ->
  exists c', Workflow.codes (Workflow.verifyCode e d input method m).1 !! j = Some c'
             /\ Workflow.code c' = Workflow.code c
             /\ (c' = c \/ Workflow.code_status c' = Workflow.flagged
                 \/ Workflow.code_status c' = Workflow.verified).
Proof.
  intros Hc.
  assert (Hsame : forall d', Workflow.codes d' = Workflow.codes d ->
             exists c', Workflow.codes d' !! j = Some c'
                        /\ Workflow.code c' = Workflow.code c
                        /\ (c' = c \/ Workflow.code_status c' = Workflow.flagged
                            \/ Workflow.code_status c' = Workflow.verified)).
  { intros d' ->. exists c. split; [done |]. split; [done | by left]. }
  assert (Hupd : forall id change d',
             (forall x, Workflow.code (change x) = Workflow.code x
                        /\ (Workflow.code_status (change x) = Workflow.flagged
                            \/ Workflow.code_status (change x) = Workflow.verified)) ->
             Workflow.codes d' = Workflow.codes (Workflow.update_code id change d) ->
             exists c', Workflow.codes d' !! j = Some c'
                        /\ Workflow.code c' = Workflow.code c
                        /\ (c' = c \/ Workflow.code_status c' = Workflow.flagged
                            \/ Workflow.code_status c' = Workflow.verified)).
  { intros id change d' Hch ->. simpl. rewrite list_lookup_fmap, Hc. simpl.
    case_bool_decide; eexists; (split; [done |]).
    - destruct (Hch c) as [? ?]. split; [done | by right].
    - split; [done | by left]. }
  assert (Hflag : forall rec x,
             Workflow.code (Workflow.flag e rec x) = Workflow.code x
             /\ (Workflow.code_status (Workflow.flag e rec x) = Workflow.flagged
                 \/ Workflow.code_status (Workflow.flag e rec x) = Workflow.verified))
    by (intros; split; [done | by left]).
  assert (Hmark : forall x,
             Workflow.code (Workflow.mark e method x) = Workflow.code x
             /\ (Workflow.code_status (Workflow.mark e method x) = Workflow.flagged
                 \/ Workflow.code_status (Workflow.mark e method x) = Workflow.verified))
    by (intros; split; [done | by right]).
  unfold Workflow.verifyCode.
  destruct input as [s|]; [| by apply Hsame, logVerification_codes].
  destruct (bool_decide (s = "") || (Js.length s <? 8)%nat);
    [by apply Hsame, logVerification_codes |].
  destruct (find _ (Workflow.codes d)) as [rec|]; [| by apply Hsame, logVerification_codes].
  repeat match goal with
         | |- context [find ?g (Workflow.batches d)] =>
             destruct (find g (Workflow.batches d))
         | |- context [find ?g (Workflow.users d)] =>
             destruct (find g (Workflow.users d))
         | |- context [bool_decide ?P] => destruct (bool_decide P)
         end; cbn [fst];
    try (by apply Hsame; rewrite ?logVerification_codes);
    try (eapply Hupd; [apply Hflag | by rewrite ?logVerification_codes]);
    try (eapply Hupd; [apply Hmark | by rewrite ?logVerification_codes]).
Qed.

(** C3 (counterexample): in the Express workflow a repeat scan of a
    verified code changes the stored code: its status becomes flagged
    and its scan count goes up. *)
Lemma repeat_scan_changes_a_verified_code :
  let d' := (Workflow.verifyCode Examples.workflow_env Examples.workflow_db
               (Some "AAAAAAAAAAAA") "qr" Examples.browser).1 in
  ((fun c => (Workflow.code_status c, Workflow.verificationCount c))
     <$> Workflow.codes Examples.workflow_db !! 0%nat)
  = Some (Workflow.verified, 1)
  /\ ((fun c => (Workflow.code_status c, Workflow.verificationCount c))
        <$> Workflow.codes d' !! 0%nat)
     = Some (Workflow.flagged, 2).
Proof. vm_compute. split; reflexivity. Qed.

(** C3 (as the code has it): in the deployed functions a code row
    changes at most once, from active to verified by the verification
    handler's update, and a verified row never changes again, over any
    sequence of operations. The Express workflow does change a verified
    code on a repeat scan (it flags it), but neither ever puts a code
    back to active: a code that is active afterwards is the unchanged
    code. *)
Theorem verified_is_terminal_when_deployed_and_never_rearmed
    (st st' : Store.t) (i : nat) (row : CodeRow.t)
    (e : Workflow.env) (d : Workflow.db) (input : option string) (method : string)
    (m : Workflow.metadata) (j : nat) (c : Workflow.code_doc) :
  reachable st -> rtc transition st st' ->
  Store.codes st !! i = Some row ->
  Workflow.codes d !! j = Some c ->
  (exists row', Store.codes st' !! i = Some row'
                /\ (row' = row
                    \/ CodeRow.status row = active
                       /\ exists now, row' = Store.mark_verified now row)
                /\ (CodeRow.status row = verified -> row' = row)
                /\ (CodeRow.status row' = active -> row' = row))
  /\ (exists c', Workflow.codes (Workflow.verifyCode e d input method m).1 !! j = Some c'
                 /\ Workflow.code c' = Workflow.code c
                 /\ (Workflow.code_status c' = Workflow.active -> c' = c)).
Proof.
  intros Hreach Hsteps Hrow Hc. split.
  - apply reachable_invariant in Hreach.
    destruct (transitions_invariant _ _ Hreach Hsteps) as [_ [_ Hcodes]].
    destruct (Hcodes i row Hrow) as (row' & Hrow' & Hstep).
    exists row'. split; [done |]. split; [exact Hstep |].
    destruct Hstep as [-> | (Hact & now & ->)]; [done |]. split.
    + rewrite Hact. discriminate.
    + simpl. discriminate.
  - destruct (verifyCode_codes e d input method m j c Hc) as (c' & Hc' & Hcode & Hst).
    exists c'. split; [done |]. split; [done |].
    destruct Hst as [-> | [Hf | Hv]]; [done | |]; intros Ha; rewrite Ha in *; discriminate.
Qed.

Lemma verified_is_terminal_when_deployed_and_never_rearmed_witness :
  reachable Examples.store_complete
  /\ rtc transition Examples.store_complete Examples.store_scanned
  /\ Store.codes Examples.store_complete !! 0%nat = Some Examples.fresh_record
  /\ (CodeRow.status <$> Store.codes Examples.store_scanned !! 0%nat) = Some verified
  /\ (exists c',
         Workflow.codes
           (Workflow.verifyCode Examples.workflow_env Examples.workflow_db
              (Some "AAAAAAAAAAAA") "qr" Examples.browser).1 !! 0%nat = Some c'
         /\ Workflow.code_status c' <> Workflow.active).
Proof.
  assert (Hreach : reachable Examples.store_complete).
  { apply rtc_once.
    apply (create_batch (Examples.create_env 2) (Examples.request 2)).
    apply (list_elem_of_lookup_2 _ 2). vm_compute. reflexivity. }
  assert (Hsteps : rtc transition Examples.store_complete Examples.store_scanned).
  { apply (rtc_l _ _ _ _ (verification (Examples.verify_env false)
                            (Examples.scan "AAAAAAAAAAAA")
                            (Verify.Looked "AAAAAAAAAAAA"
                               (Some (Examples.fresh_record, None)))
                            Examples.store_complete)).
    apply rtc_once.
    apply (verification (Examples.verify_env false) (Examples.scan "AAAAAAAAAAAA")
             (Verify.Marked "AAAAAAAAAAAA" Examples.fresh_record None false)). }
  split; [done |]. split; [done |]. split; [reflexivity |]. split; [reflexivity |].
  destruct (verified_is_terminal_when_deployed_and_never_rearmed
              Examples.store_complete Examples.store_scanned 0 Examples.fresh_record
              Examples.workflow_env Examples.workflow_db (Some "AAAAAAAAAAAA"%string)
              "qr" Examples.browser 0
              (Workflow.mkCode 1 "AAAAAAAAAAAA" 10 20 Workflow.verified (Some 1000)
                 (Some "qr"%string) 1 (Some 1000))
              Hreach Hsteps eq_refl eq_refl) as [_ (c' & Hc' & _ & Hactive)].
  exists c'. split; [done |]. intros Ha. specialize (Hactive Ha). by subst c'.
Defined.

End CodeLife.

(** ** What the generators hand out *)

Section GeneratorOutput.

Import Generator.

Lemma assemble_chars_within (m : nat) (bytes : list byte) (n i : nat) (code : string)
    (c : ascii) :
  c ∈ list_ascii_of_string (assemble m bytes n i code) ->
  c ∈ list_ascii_of_string code
  \/ exists j, (i <= j < i + n)%nat /\ c ∈ list_ascii_of_string (symbol m bytes j).
Proof.
  revert i code. induction n as [|n IH]; intros i code; simpl; [by left |].
  intros [Hc | (j & Hj & Hc)]%IH.
  - rewrite chars_of_append in Hc. apply elem_of_app in Hc as [Hc | Hc]; [by left |].
    right. exists i. split; [lia | done].
  - right. exists j. split; [lia | done].
Qed.

(** Twelve symbols drawn from a buffer of twelve bytes are all of the
    alphabet, whatever the modulus up to its length. *)
Lemma assemble_alphabet (m : nat) (bytes : list byte) (c : ascii) :
  (0 < m <= 32)%nat -> length bytes = 12%nat ->
  c ∈ list_ascii_of_string (assemble m bytes 12 0 "") ->
  c ∈ list_ascii_of_string chars.
Proof.
  intros Hm Hlen [Hc | (j & Hj & Hc)]%assemble_chars_within.
  - by apply elem_of_nil in Hc.
  - destruct (symbol_in_alphabet m bytes j Hm) as (a & Heq & Ha); [lia |].
    rewrite Heq in Hc. simpl in Hc. by apply list_elem_of_singleton in Hc as ->.
Qed.

(** X1: [generateCode] of the background generator turns twelve random
    bytes into twelve characters of the alphabet, and every one of the
    32 symbols of the alphabet is the first character of some code. *)
Theorem generateCode_twelve_symbols_of_the_whole_alphabet (bytes : list byte) :
  length bytes = 12%nat ->
  String.length (generateCode bytes) = 12%nat
  /\ (forall c, c ∈ list_ascii_of_string (generateCode bytes) ->
                c ∈ list_ascii_of_string chars)
  /\ (forall k, (k < String.length chars)%nat ->
        exists bytes', length bytes' = 12%nat
                       /\ String.get 0 (generateCode bytes') = String.get k chars).
Proof.
  intros Hlen. split; [by apply generateCode_length |]. split.
  - intros c. apply assemble_alphabet; [vm_compute; lia | done].
  - intros k Hk. change (String.length chars) with 32%nat in Hk.
    do 32 (destruct k as [|k];
           [match goal with
            | |- context [String.get ?n chars] =>
                exists (Examples.byte_of n :: repeat x00 11)
            end; split; vm_compute; reflexivity |]).
    lia.
Qed.

Lemma generateCode_twelve_symbols_of_the_whole_alphabet_witness :
  String.length (generateCode (Examples.draw 31)) = 12%nat
  /\ (forall c, c ∈ list_ascii_of_string (generateCode (Examples.draw 31)) ->
                c ∈ list_ascii_of_string chars)
  /\ (forall k, (k < String.length chars)%nat ->
        exists bytes', length bytes' = 12%nat
                       /\ String.get 0 (generateCode bytes') = String.get k chars).
Proof.
  apply (generateCode_twelve_symbols_of_the_whole_alphabet (Examples.draw 31)).
  reflexivity.
Defined.

(** Every code the loop returns was in the set it started with or was
    built from one of the buffers. *)
Lemma generateCodes_loop_elems tape set qty codes code :
  generateCodes_loop tape set qty = Some codes -> code ∈ codes ->
  code ∈ set \/ exists bytes, bytes ∈ tape /\ code = generateCodes_one bytes.
Proof.
  revert set. induction tape as [|bytes tape IH]; intros set; simpl;
    destruct (Z.of_nat (length set) <? qty); try done.
  - intros [= <-] Hc. by left.
  - intros Hloop Hc. destruct (IH _ Hloop Hc) as [Hin | (b & Hb & ->)].
    + unfold Js.set_add in Hin. case_bool_decide; [by left |].
      apply elem_of_app in Hin as [Hin | ->%list_elem_of_singleton]; [by left |].
      right. exists bytes. split; [left | done].
    + right. exists b. split; [by right | done].
  - intros [= <-] Hc. by left.
Qed.

(** X2: when [generateCodes(qty)] returns, it returns exactly [qty]
    codes (none for a quantity below one), no two of them equal, each of
    twelve characters of the alphabet. *)
Theorem generateCodes_returns_qty_distinct_codes (tape : list (list byte)) (qty : Z)
    (codes : list string) :
  Forall (fun bytes => length bytes = 12%nat) tape ->
  generateCodes tape qty = Some codes ->
  Z.of_nat (length codes) = Z.max 0 qty
  /\ NoDup codes
  /\ Forall (fun code =>
               String.length code = 12%nat
               /\ forall c, c ∈ list_ascii_of_string code ->
                            c ∈ list_ascii_of_string chars) codes.
Proof.
  intros Htape Hgen. split; [by eapply generateCodes_length |].
  split; [by eapply generateCodes_NoDup |].
  apply Forall_forall. intros code Hcode.
  destruct (generateCodes_loop_elems _ _ _ _ _ Hgen Hcode) as [Hin | (bytes & Hb & ->)].
  { by apply elem_of_nil in Hin. }
  rewrite Forall_forall in Htape. specialize (Htape _ Hb).
  split; [by apply generateCodes_one_length |].
  intros c. apply assemble_alphabet; [lia | done].
Qed.

Lemma generateCodes_returns_qty_distinct_codes_witness :
  Z.of_nat (length Examples.three_codes) = Z.max 0 3
  /\ NoDup Examples.three_codes
  /\ Forall (fun code =>
               String.length code = 12%nat
               /\ forall c, c ∈ list_ascii_of_string code ->
                            c ∈ list_ascii_of_string chars) Examples.three_codes.
Proof.
  apply (generateCodes_returns_qty_distinct_codes (Examples.tape 3) 3).
  - vm_compute. repeat constructor.
  - vm_compute. reflexivity.
Defined.

End GeneratorOutput.

(** ** What the executor stores *)

Section ExecutorOutput.

Import Executor.

Lemma codes_code_unique_fresh rows tbl :
  NoDup (Store.code_values (tbl ++ rows)) -> Store.codes_code_unique rows tbl = true.
Proof.
  unfold Store.codes_code_unique, Store.code_values. rewrite map_app.
  intros (_ & Hdisj & Hrows)%NoDup_app. apply andb_true_iff. split.
  - by apply bool_decide_eq_true.
  - apply forallb_forall. intros r Hr%list_elem_of_In.
    apply negb_true_iff, bool_decide_eq_false. intros Hin.
    apply (Hdisj _ Hin). apply list_elem_of_fmap. eauto.
Qed.

Lemma run_chunks_fresh fault k cs p :
  (forall j, fault j = false) ->
  NoDup (Store.code_values (Store.codes (store p) ++ concat cs)) ->
  Store.codes (store (run_chunks fault k cs p)) = Store.codes (store p) ++ concat cs
  /\ inserted (run_chunks fault k cs p) = inserted p + Z.of_nat (length (concat cs))
  /\ length (written (run_chunks fault k cs p)) = (length (written p) + length cs)%nat.
Proof.
  intros Hf. revert k p. induction cs as [|c rest IH]; intros k p Hnd; simpl.
  - rewrite app_nil_r. split; [done |]. split; lia.
  - simpl in Hnd. rewrite app_assoc in Hnd.
    assert (Hu : Store.codes_code_unique c (Store.codes (store p)) = true).
    { apply codes_code_unique_fresh. unfold Store.code_values in *.
      rewrite map_app in Hnd. by apply NoDup_app in Hnd as (Hnd & _). }
    assert (Hstep : insert_chunk (fault k) c p
                    = mk (Store.with_codes (Store.codes (store p) ++ c) (store p))
                        (inserted p + Z.of_nat (length c))
                        (written p
                         ++ [Store.with_codes (Store.codes (store p) ++ c) (store p)])).
    { unfold insert_chunk, Store.insert_codes. by rewrite Hf, Hu. }
    rewrite Hstep.
    match goal with
    | |- context [run_chunks _ _ _ ?q] => destruct (IH (S k) q Hnd) as (Hc & Hn & Hw)
    end.
    simpl in *.
    rewrite Hc, Hn, Hw, !length_app, <- app_assoc. simpl. split; [done |]. split; lia.
Qed.

Lemma slices_from_sizes {A} (size fuel i : nat) (xs : list A) :
  (0 < size)%nat ->
  Forall (fun c => (0 < length c <= size)%nat) (Js.slices_from fuel i size xs).
Proof.
  intros Hsize. revert i. induction fuel as [|fuel IH]; intros i; simpl; [constructor |].
  destruct (i <? length xs)%nat eqn:Hi; [| constructor].
  apply Nat.ltb_lt in Hi. constructor; [| apply IH].
  unfold Js.slice. rewrite length_take, length_drop. lia.
Qed.

Lemma insertCodes_stores_all fault records st :
  (forall k, fault k = false) ->
  NoDup (Store.code_values (Store.codes st ++ records)) ->
  Store.codes (store (insertCodes fault records st)) = Store.codes st ++ records
  /\ inserted (insertCodes fault records st) = Z.of_nat (length records).
Proof.
  intros Hf Hnd. rewrite insertCodes_run.
  destruct (run_chunks_fresh fault 0 (Js.slices CHUNK_SIZE records) (mk st 0 []) Hf)
    as (Hc & Hn & _).
  { simpl. rewrite slices_concat by (unfold CHUNK_SIZE; lia). done. }
  rewrite slices_concat in Hc, Hn by (unfold CHUNK_SIZE; lia). done.
Qed.

(** X3: with working storage, and when the values of [records] are
    pairwise different and none is stored yet, [insertCodes] appends
    every record to [codes], in order, reports their number, and does so
    in statements of at least one and at most [CHUNK_SIZE] rows. *)
Theorem insertCodes_stores_every_fresh_record (fault : nat -> bool)
    (records : list CodeRow.t) (st : Store.t) :
  (forall k, fault k = false) ->
  NoDup (Store.code_values (Store.codes st ++ records)) ->
  Store.codes (store (insertCodes fault records st)) = Store.codes st ++ records
  /\ inserted (insertCodes fault records st) = Z.of_nat (length records)
  /\ length (written (insertCodes fault records st))
     = length (Js.slices CHUNK_SIZE records)
  /\ Forall (fun c => (0 < length c <= CHUNK_SIZE)%nat) (Js.slices CHUNK_SIZE records).
Proof.
  intros Hf Hnd. rewrite insertCodes_run.
  destruct (run_chunks_fresh fault 0 (Js.slices CHUNK_SIZE records) (mk st 0 []) Hf)
    as (Hc & Hn & Hw).
  { simpl. rewrite slices_concat by (unfold CHUNK_SIZE; lia). done. }
  rewrite slices_concat in Hc, Hn by (unfold CHUNK_SIZE; lia). simpl in *.
  split; [done |]. split; [done |]. split; [done |].
  apply slices_from_sizes. unfold CHUNK_SIZE. lia.
Qed.

Lemma insertCodes_stores_every_fresh_record_witness :
  let records := buildRecords Examples.three_codes 0 7 Examples.site in
  Store.codes (store (insertCodes Examples.no_fault records Store.empty)) = records
  /\ inserted (insertCodes Examples.no_fault records Store.empty) = 3
  /\ length (written (insertCodes Examples.no_fault records Store.empty)) = 1%nat.
Proof.
  cbv zeta.
  destruct (insertCodes_stores_every_fresh_record Examples.no_fault
              (buildRecords Examples.three_codes 0 7 Examples.site) Store.empty)
    as (Hc & Hn & Hw & _).
  - reflexivity.
  - apply (bool_decide_unpack _). vm_compute. exact I.
  - split; [exact Hc |]. split; [exact Hn |]. rewrite Hw. vm_compute. reflexivity.
Defined.

Lemma run_chunks_whole_chunks fault k cs p :
  exists kept,
    kept `sublist_of` cs
    /\ Store.codes (store (run_chunks fault k cs p)) = Store.codes (store p) ++ concat kept
    /\ inserted (run_chunks fault k cs p) = inserted p + Z.of_nat (length (concat kept)).
Proof.
  revert k p. induction cs as [|c rest IH]; intros k p; simpl.
  - exists []. rewrite app_nil_r. split; [done |]. split; [done | simpl; lia].
  - unfold insert_chunk, Store.insert_codes.
    destruct (fault k); [| destruct (Store.codes_code_unique c (Store.codes (store p)))];
      match goal with
      | |- context [run_chunks _ _ _ ?q] =>
          destruct (IH (S k) q) as (kept & Hsub & Hc & Hn)
      end; simpl in Hc, Hn.
    + exists kept. split; [by apply sublist_cons | done].
    + exists (c :: kept). split; [by apply sublist_skip |]. simpl.
      rewrite Hc, Hn, length_app, <- app_assoc. split; [done | lia].
    + exists kept. split; [by apply sublist_cons | done].
Qed.

(** X4: whatever faults and constraint violations the statements meet,
    [insertCodes] stores whole chunks only: the rows it has added are
    some of the chunks of [records], each complete, in order, and
    [inserted] is their number of rows. *)
Theorem insertCodes_stores_whole_chunks_only (fault : nat -> bool)
    (records : list CodeRow.t) (st : Store.t) :
  exists kept,
    kept `sublist_of` Js.slices CHUNK_SIZE records
    /\ Store.codes (store (insertCodes fault records st)) = Store.codes st ++ concat kept
    /\ inserted (insertCodes fault records st) = Z.of_nat (length (concat kept)).
Proof.
  rewrite insertCodes_run.
  destruct (run_chunks_whole_chunks fault 0 (Js.slices CHUNK_SIZE records) (mk st 0 []))
    as (kept & Hsub & Hc & Hn).
  exists kept. simpl in *. split; [done |]. split; [done | lia].
Qed.

End ExecutorOutput.

(** ** What batch creation leaves behind *)

Section CreateBatchOutcome.

Import CreateBatch System.

(** X5: unless the answer is 201, batch creation has written nothing:
    a request turned away for its method, its token, its body, its
    quantity or its batch identifier, or one whose batch record could
    not be created, leaves the store as it was. *)
Theorem only_a_201_answer_has_written (e : env) (st : Store.t) (r : request)
    (resp : response) :
  reply (handler e st r) = Some resp -> statusCode resp <> 201 ->
  states (handler e st r) = [] /\ final st (handler e st r) = st.
Proof.
  intros Hreply Hcode.
  destruct (handler_states e st r) as [Hnone | (userId & f & qty & batchId & Hacc)].
  { unfold final. by rewrite Hnone. }
  rewrite (handler_accepted _ _ _ _ _ _ _ Hacc) in Hreply |- *.
  unfold create in Hreply |- *. destruct (batch_error e); [done |].
  destruct (Generator.generateCodes _ _) as [codes|]; [| done].
  simpl in Hreply. injection Hreply as <-. simpl in Hcode. done.
Qed.

Lemma only_a_201_answer_has_written_witness :
  reply (handler (Examples.create_env 2) Examples.store_complete (Examples.request 100001))
  = Some (respond 400 (Error "Quantity must be between 1 and 100,000"))
  /\ final Examples.store_complete
       (handler (Examples.create_env 2) Examples.store_complete (Examples.request 100001))
     = Examples.store_complete.
Proof.
  split; [reflexivity |].
  apply (only_a_201_answer_has_written (Examples.create_env 2) Examples.store_complete
           (Examples.request 100001)
           (respond 400 (Error "Quantity must be between 1 and 100,000"))).
  - reflexivity.
  - simpl. lia.
Defined.

Lemma filter_batch_id_length s l :
  length (List.filter (fun b => bool_decide (BatchRow.batch_id b = s)) l)
  = length (List.filter (fun x => bool_decide (x = s)) (map BatchRow.batch_id l)).
Proof.
  induction l as [|b l IH]; simpl; [done |]. case_bool_decide; simpl; by rewrite IH.
Qed.

Lemma select_batch_maybe_single_one s st :
  Store.select_batch_maybe_single s st <> None
  <-> length (List.filter (fun b => bool_decide (BatchRow.batch_id b = s))
                (Store.batches st)) = 1%nat.
Proof.
  unfold Store.select_batch_maybe_single.
  destruct (List.filter _ (Store.batches st)) as [|b [|b' l]]; simpl; split; done.
Qed.

(** X6: the check of a custom batch identifier. A request whose custom
    identifier, trimmed, fits the pattern is turned away with 400 and
    nothing written when the look-up works and finds the one batch that
    holds the identifier. When the look-up fails, or when two batches
    hold the identifier already, the request goes on as for a free
    identifier: the batch record is created, and in every state the
    invocation leaves behind one more batch holds the identifier. *)
Theorem taken_batch_id_is_refused_only_if_the_lookup_answers (e : env) (st : Store.t)
    (r : request) (userId : nat) (f : fields) (qty : Z) (custom : string) :
  httpMethod r = "POST" -> decoded r = Some userId -> body r = Some f ->
  quantity f = Parsed qty -> productName f <> "" -> productCategory f <> "" ->
  1 <= qty <= 100000 ->
  customBatchId f = Some custom -> batch_id_ok (Js.trim custom) = true ->
  let batchId := Js.trim custom in
  let holders (w : Store.t) :=
    length (List.filter (fun b => bool_decide (BatchRow.batch_id b = batchId))
              (Store.batches w)) in
  (exists_fault e = false -> holders st = 1%nat ->
   handler e st r
   = mkOutcome []
       (Some (respond 400
                (Error ("Batch ID " ++ Js.quote ++ batchId ++ Js.quote
                        ++ " already exists. Use a different ID or leave empty to auto-generate.")))))
  /\ (exists_fault e = true \/ holders st <> 1%nat ->
      batch_error e = false ->
      head (states (handler e st r))
      = Some (Store.insert_batch (new_batch st userId f qty batchId) st)
      /\ forall w, w ∈ states (handler e st r) -> holders w = S (holders st)).
Proof.
  intros Hm Hd Hb Hq Hn Hc Hr Hcustom Hok batchId holders.
  assert (Htrim : Js.trim custom <> "").
  { unfold batch_id_ok in Hok. apply andb_prop in Hok as [Hne _].
    apply negb_true_iff in Hne. by apply bool_decide_eq_false in Hne. }
  assert (Hne : custom <> "") by (intros ->; by apply Htrim).
  assert (Hid : choose_batch_id e st f
                = match (if exists_fault e then None
                         else Store.select_batch_maybe_single batchId st) with
                  | Some _ =>
                      inr (respond 400
                             (Error ("Batch ID " ++ Js.quote ++ batchId ++ Js.quote
                                     ++ " already exists. Use a different ID or leave empty to auto-generate.")))
                  | None => inl batchId
                  end).
  { unfold choose_batch_id. rewrite Hcustom.
    rewrite !bool_decide_eq_false_2 by done. simpl. by rewrite Hok. }
  split.
  - intros Hfault Hone. apply select_batch_maybe_single_one in Hone.
    unfold handler. rewrite Hm, Hd, Hb, Hq, Hid, Hfault. simpl.
    rewrite !bool_decide_eq_false_2 by done. simpl.
    destruct (qty <? 1) eqn:H1; [apply Z.ltb_lt in H1; lia |].
    destruct (qty >? 100000) eqn:H2; [rewrite Z.gtb_ltb in H2; apply Z.ltb_lt in H2; lia |].
    simpl. by destruct (Store.select_batch_maybe_single batchId st).
  - intros Hfree Hbe.
    assert (Hacc : accepted e st r userId f qty batchId).
    { repeat (split; [done |]). rewrite Hid.
      destruct Hfree as [-> | Hfree]; [done |].
      destruct (exists_fault e); [done |].
      destruct (Store.select_batch_maybe_single batchId st) eqn:Hsel; [| done].
      exfalso. apply Hfree, select_batch_maybe_single_one. by rewrite Hsel. }
    rewrite (handler_accepted _ _ _ _ _ _ _ Hacc). unfold create. rewrite Hbe.
    set (batch := new_batch st userId f qty batchId).
    assert (Hnew : forall w,
              map BatchRow.batch_id (Store.batches w)
              = map BatchRow.batch_id (Store.batches st ++ [batch]) ->
              holders w = S (holders st)).
    { intros w Hw. unfold holders. rewrite !filter_batch_id_length, Hw, map_app.
      rewrite List.filter_app, length_app. simpl.
      rewrite bool_decide_eq_true_2 by done. simpl. lia. }
    destruct (Generator.generateCodes _ _) as [codes|]; simpl.
    2:{ split; [done |]. intros w ->%list_elem_of_singleton. by apply Hnew. }
    split; [done |]. intros w Hw.
    match type of Hw with
    | context [Executor.insertCodes ?fl ?rs ?s1] =>
        destruct (insertCodes_leaves_batches fl rs s1) as [Hlast Hmid]
    end.
    apply Hnew.
    apply elem_of_cons in Hw as [-> | [Hw | ->%list_elem_of_singleton]%elem_of_app].
    + done.
    + by rewrite (Hmid _ Hw).
    + by rewrite update_batch_progress_batch_ids, Hlast.
Qed.

Lemma taken_batch_id_is_refused_only_if_the_lookup_answers_witness :
  let r := CreateBatch.mkRequest "POST" (Some 7%nat)
             (Some (CreateBatch.mkFields "Soap" "Care" (CreateBatch.Parsed 1)
                      (Some " BN20240101ABC123 ") None None None)) in
  let e := CreateBatch.mkEnv Examples.site "BN20240103GHI789" true false (Examples.tape 1)
             Examples.no_fault false in
  map BatchRow.batch_id (Store.batches Examples.store_complete) = ["BN20240101ABC123"]
  /\ statusCode <$> reply (handler (Examples.create_env 1) Examples.store_complete r)
     = Some 400
  /\ map BatchRow.batch_id (Store.batches (final Examples.store_complete
                                             (handler e Examples.store_complete r)))
     = ["BN20240101ABC123"; "BN20240101ABC123"]
  /\ Forall (fun w =>
               length (List.filter
                         (fun b => bool_decide (BatchRow.batch_id b = "BN20240101ABC123"))
                         (Store.batches w)) = 2%nat)
       (states (handler e Examples.store_complete r)).
Proof.
  intros r e. split; [reflexivity |].
  destruct (taken_batch_id_is_refused_only_if_the_lookup_answers (Examples.create_env 1)
              Examples.store_complete r 7
              (CreateBatch.mkFields "Soap" "Care" (CreateBatch.Parsed 1)
                 (Some " BN20240101ABC123 ") None None None) 1 " BN20240101ABC123 ")
    as [Hrefused _]; [reflexivity | reflexivity | reflexivity | reflexivity | discriminate
                     | discriminate | lia | reflexivity | reflexivity |].
  destruct (taken_batch_id_is_refused_only_if_the_lookup_answers e
              Examples.store_complete r 7
              (CreateBatch.mkFields "Soap" "Care" (CreateBatch.Parsed 1)
                 (Some " BN20240101ABC123 ") None None None) 1 " BN20240101ABC123 ")
    as [_ Hthrough]; [reflexivity | reflexivity | reflexivity | reflexivity | discriminate
                      | discriminate | lia | reflexivity | reflexivity |].
  split; [by rewrite (Hrefused eq_refl eq_refl) |].
  split; [vm_compute; reflexivity |].
  apply Forall_forall. intros w Hw.
  destruct (Hthrough (or_introl eq_refl) eq_refl) as [_ Hall].
  exact (Hall w Hw).
Defined.

(** X7: an accepted request whose storage works and whose generated
    codes are not stored yet gets its first [min(quantity, 10000)] codes
    in the one invocation: they are appended as active rows of the new
    batch, the batch row carries their number, it is [complete] exactly
    when the quantity is at most 10000, and the answer says the same.
    The optional fields of the row are those of the request, an empty
    one stored as [null]. *)
Theorem create_batch_generates_the_first_ten_thousand (e : env) (st : Store.t)
    (r : request) (userId : nat) (f : fields) (qty : Z) (batchId : string)
    (codes : list string) :
  ids_ok st ->
  accepted e st r userId f qty batchId ->
  batch_error e = false -> update_fault e = false ->
  (forall k, insert_fault e k = false) ->
  Generator.generateCodes (tape e) (Z.min qty SYNC_LIMIT) = Some codes ->
  NoDup (Store.code_values (Store.codes st) ++ codes) ->
  let o := handler e st r in
  let n := Z.min qty SYNC_LIMIT in
  let s := if qty <=? SYNC_LIMIT then complete else generating in
  Z.of_nat (length codes) = n
  /\ Store.codes (final st o)
     = Store.codes st
       ++ Executor.buildRecords codes (Store.fresh_batch_id st) userId (siteUrl e)
  /\ Store.batches (final st o)
     = Store.batches st
       ++ [BatchRow.mk (Store.fresh_batch_id st) batchId userId (productName f)
             (Js.or_null (productCode f)) (productCategory f) qty
             (Js.or_null (manufacturingDate f)) (Js.or_null (expiringDate f)) n s]
  /\ reply o
     = Some (respond 201
               (Created
                  (if qty <=? SYNC_LIMIT then AllGenerated
                   else RemainingLater n (qty - n))
                  (mkSummary (Store.fresh_batch_id st) batchId (productName f) qty n s))).
Proof.
  intros Hids Hacc Hbe Hupd Hins Hgen Hnd o n s.
  assert (Hq : 1 <= qty) by (destruct Hacc as (_ & _ & _ & _ & _ & _ & [? _] & _); done).
  assert (Hlen : Z.of_nat (length codes) = n).
  { rewrite (generateCodes_length _ _ _ Hgen). unfold n, SYNC_LIMIT. lia. }
  split; [done |].
  unfold o. rewrite (handler_accepted _ _ _ _ _ _ _ Hacc).
  unfold final, create. rewrite Hbe, Hgen, Hupd. cbn [states reply].
  rewrite app_assoc, last_last.
  set (batch := new_batch st userId f qty batchId).
  set (records := Executor.buildRecords codes (BatchRow.id batch) userId (siteUrl e)).
  destruct (insertCodes_stores_all (insert_fault e) records (Store.insert_batch batch st))
    as (Hc & Hn); [done | |].
  { simpl. unfold Store.code_values, records in *.
    rewrite map_app. fold (Store.code_values
                             (Executor.buildRecords codes (BatchRow.id batch) userId
                                (siteUrl e))).
    by rewrite buildRecords_values. }
  destruct (insertCodes_leaves_batches (insert_fault e) records
              (Store.insert_batch batch st)) as [Hb _].
  set (p := Executor.insertCodes (insert_fault e) records (Store.insert_batch batch st)) in *.
  assert (Hin : Executor.inserted p = n).
  { rewrite Hn. unfold records. by rewrite buildRecords_length. }
  assert (Hge : (Executor.inserted p >=? qty) = (qty <=? SYNC_LIMIT)).
  { rewrite Hin, Z.geb_leb. unfold n.
    destruct (qty <=? SYNC_LIMIT) eqn:Hle.
    - apply Z.leb_le in Hle. apply Z.leb_le. lia.
    - apply Z.leb_gt in Hle. apply Z.leb_gt. lia. }
  rewrite Hge, Hin. fold s. split; [| split].
  - by rewrite update_batch_progress_codes, Hc.
  - by rewrite (update_batch_progress_last st (Executor.store p) batch n s Hids eq_refl Hb).
  - by destruct (qty <=? SYNC_LIMIT).
Qed.

Lemma create_batch_generates_the_first_ten_thousand_witness :
  let f := CreateBatch.mkFields "Soap" "Care" (CreateBatch.Parsed 3) None (Some "")
             (Some "2024-01-01") None in
  let r := CreateBatch.mkRequest "POST" (Some 7%nat) (Some f) in
  let o := handler (Examples.create_env 3) Store.empty r in
  Store.codes (final Store.empty o)
  = Executor.buildRecords Examples.three_codes 0 7 Examples.site
  /\ Store.batches (final Store.empty o)
     = [BatchRow.mk 0 "BN20240101ABC123" 7 "Soap" None "Care" 3 (Some "2024-01-01") None
          3 complete]
  /\ statusCode <$> reply o = Some 201.
Proof.
  cbv zeta.
  destruct (create_batch_generates_the_first_ten_thousand (Examples.create_env 3)
              Store.empty
              (CreateBatch.mkRequest "POST" (Some 7%nat)
                 (Some (CreateBatch.mkFields "Soap" "Care" (CreateBatch.Parsed 3) None
                          (Some "") (Some "2024-01-01") None)))
              7
              (CreateBatch.mkFields "Soap" "Care" (CreateBatch.Parsed 3) None (Some "")
                 (Some "2024-01-01") None)
              3 "BN20240101ABC123" Examples.three_codes)
    as (_ & Hc & Hb & Hr).
  - reflexivity.
  - unfold accepted. simpl. repeat split; try done; lia.
  - reflexivity.
  - reflexivity.
  - reflexivity.
  - vm_compute. reflexivity.
  - apply (bool_decide_unpack _). vm_compute. exact I.
  - split; [exact Hc |]. split; [exact Hb |]. by rewrite Hr.
Defined.

End CreateBatchOutcome.

(** ** What a scheduled run leaves behind *)

Section SchedulerOutcome.

Import Scheduler System.

Lemma create_final_reachable e st r :
  reachable st -> reachable (CreateBatch.final st (CreateBatch.handler e st r)).
Proof.
  intros Hreach. unfold CreateBatch.final.
  destruct (last_cases (CreateBatch.states (CreateBatch.handler e st r)) st) as [-> | Hin];
    [done |].
  eapply rtc_r; [exact Hreach |]. by eapply create_batch.
Qed.

Lemma backlog_reachable n : reachable (Examples.backlog n).
Proof.
  induction n as [|n IH]; [apply rtc_refl |]. by apply create_final_reachable.
Qed.

(** The progress update of one batch row, the others left alone. *)
Lemma update_batch_progress_at st i b g s :
  ids_ok st -> Store.batches st !! i = Some b ->
  Store.batches (Store.update_batch_progress false i g s st) !! i
  = Some (BatchRow.mk (BatchRow.id b) (BatchRow.batch_id b) (BatchRow.manufacturer_id b)
            (BatchRow.product_name b) (BatchRow.product_code b)
            (BatchRow.product_category b) (BatchRow.quantity b)
            (BatchRow.manufacturing_date b) (BatchRow.expiring_date b) g s)
  /\ forall j, j <> i ->
       Store.batches (Store.update_batch_progress false i g s st) !! j
       = Store.batches st !! j.
Proof.
  intros Hids Hb. unfold Store.update_batch_progress. simpl. split.
  - rewrite list_lookup_fmap, Hb. simpl.
    by rewrite bool_decide_eq_true_2 by (by eapply ids_ok_lookup).
  - intros j Hj. rewrite list_lookup_fmap.
    destruct (Store.batches st !! j) as [x|] eqn:Hx; [| done]. simpl.
    rewrite bool_decide_eq_false_2; [done |].
    by rewrite (ids_ok_lookup st j x Hids Hx).
Qed.

(** X8: a run that finds one batch short of its quantity, with working
    storage and generated codes that are not stored yet, adds
    [min(10000, remaining)] codes to it: the rows are appended for that
    batch, its count goes up by their number, it becomes [complete]
    exactly when nothing remains, no other batch row changes, and the
    answer reports the one batch. *)
Theorem scheduled_run_generates_the_next_ten_thousand (e : env) (st : Store.t)
    (batch : BatchRow.t) (codes : list string) :
  ids_ok st ->
  fetch_error e = false ->
  incompleteBatches (Store.select_generating st) = [batch] ->
  update_fault (per_batch e 0) = false ->
  (forall k, insert_fault (per_batch e 0) k = false) ->
  Generator.generateCodes (tape (per_batch e 0))
    (Z.min CODES_PER_RUN (BatchRow.quantity batch - BatchRow.codes_generated batch))
  = Some codes ->
  NoDup (Store.code_values (Store.codes st) ++ codes) ->
  let o := handler e st in
  let n := Z.min CODES_PER_RUN (BatchRow.quantity batch - BatchRow.codes_generated batch) in
  let finished :=
    BatchRow.quantity batch - BatchRow.codes_generated batch <=? CODES_PER_RUN in
  Z.of_nat (length codes) = n
  /\ Store.codes (final st o)
     = Store.codes st
       ++ Executor.buildRecords codes (BatchRow.id batch) (BatchRow.manufacturer_id batch)
            (siteUrl e)
  /\ Store.batches (final st o) !! BatchRow.id batch
     = Some (BatchRow.mk (BatchRow.id batch) (BatchRow.batch_id batch)
               (BatchRow.manufacturer_id batch) (BatchRow.product_name batch)
               (BatchRow.product_code batch) (BatchRow.product_category batch)
               (BatchRow.quantity batch) (BatchRow.manufacturing_date batch)
               (BatchRow.expiring_date batch) (BatchRow.codes_generated batch + n)
               (if finished then complete else generating))
  /\ (forall j, j <> BatchRow.id batch ->
        Store.batches (final st o) !! j = Store.batches st !! j)
  /\ reply o
     = Some (respond 200
               (Processed 1 n
                  [mkResult (BatchRow.batch_id batch) n (BatchRow.codes_generated batch + n)
                     (BatchRow.quantity batch) finished])).
Proof.
  intros Hids Hfetch Htodo Hupd Hins Hgen Hnd o n finished.
  assert (Hin : batch ∈ incompleteBatches (Store.select_generating st))
    by (rewrite Htodo; left).
  assert (Hrow : Store.batches st !! BatchRow.id batch = Some batch).
  { apply ids_ok_elem; [done |].
    eapply sublist_subseteq; [apply incompleteBatches_sublist | done]. }
  assert (Hlt : BatchRow.codes_generated batch < BatchRow.quantity batch).
  { unfold incompleteBatches in Hin.
    apply (sublist_subseteq _ _ (sublist_take _ _)) in Hin.
    apply list_elem_of_In, filter_In in Hin as [_ Hlt]. by apply Z.ltb_lt in Hlt. }
  assert (Hsome : Store.select_generating st <> []).
  { intros Hnil. rewrite Hnil in Htodo. done. }
  assert (Hlen : Z.of_nat (length codes) = n).
  { rewrite (generateCodes_length _ _ _ Hgen). unfold n, CODES_PER_RUN. lia. }
  split; [done |].
  unfold o, handler, final. rewrite Hfetch.
  rewrite bool_decide_eq_false_2 by (destruct (Store.select_generating st); done).
  rewrite Htodo. simpl. unfold process_batch. rewrite Hgen. simpl.
  set (records := Executor.buildRecords codes (BatchRow.id batch)
                    (BatchRow.manufacturer_id batch) (siteUrl e)).
  destruct (insertCodes_stores_all (insert_fault (per_batch e 0)) records st) as (Hc & Hn);
    [done | |].
  { unfold Store.code_values, records in *. rewrite map_app.
    fold (Store.code_values
            (Executor.buildRecords codes (BatchRow.id batch)
               (BatchRow.manufacturer_id batch) (siteUrl e))).
    by rewrite buildRecords_values. }
  destruct (insertCodes_leaves_batches (insert_fault (per_batch e 0)) records st)
    as [Hb _].
  set (p := Executor.insertCodes (insert_fault (per_batch e 0)) records st) in *.
  assert (Hinserted : Executor.inserted p = n).
  { rewrite Hn. unfold records. by rewrite buildRecords_length. }
  assert (Hge : (BatchRow.codes_generated batch + n >=? BatchRow.quantity batch)
                = finished).
  { rewrite Z.geb_leb. unfold finished, n.
    destruct (_ - _ <=? CODES_PER_RUN) eqn:Hle.
    - apply Z.leb_le in Hle. apply Z.leb_le. lia.
    - apply Z.leb_gt in Hle. apply Z.leb_gt. lia. }
  rewrite Hupd, Hinserted, Hge. cbn [o_states reply states totalGenerated results].
  rewrite ?app_nil_l, last_last.
  assert (Hids' : ids_ok (Executor.store p)) by (unfold ids_ok; by rewrite Hb).
  rewrite <- Hb in Hrow.
  destruct (update_batch_progress_at (Executor.store p) (BatchRow.id batch) batch
              (BatchRow.codes_generated batch + n)
              (if finished then complete else generating) Hids' Hrow) as [Hat Hother].
  split; [by rewrite update_batch_progress_codes, Hc |].
  split; [done |]. split; [| done].
  intros j Hj. by rewrite (Hother j Hj), Hb.
Qed.

Lemma scheduled_run_generates_the_next_ten_thousand_witness :
  let o := handler (Examples.tick_env 2) Examples.store_pending in
  Store.codes (final Examples.store_pending o)
  = Executor.buildRecords Examples.two_codes 0 7 Examples.site
  /\ (BatchRow.codes_generated <$> Store.batches (final Examples.store_pending o) !! 0%nat)
     = Some 2
  /\ (BatchRow.status <$> Store.batches (final Examples.store_pending o) !! 0%nat)
     = Some complete.
Proof.
  cbv zeta.
  destruct (scheduled_run_generates_the_next_ten_thousand (Examples.tick_env 2)
              Examples.store_pending Examples.pending_batch Examples.two_codes)
    as (_ & Hc & Hb & _).
  - reflexivity.
  - reflexivity.
  - reflexivity.
  - reflexivity.
  - reflexivity.
  - vm_compute. reflexivity.
  - apply (bool_decide_unpack _). vm_compute. exact I.
  - split; [exact Hc |]. change (BatchRow.id Examples.pending_batch) with 0%nat in Hb.
    rewrite Hb. split; reflexivity.
Defined.

(** X9: a run works on the ten oldest batches that are short of their
    quantity and on no other: in every state it leaves behind, the row
    and the codes of any other batch are as they were. *)
Theorem scheduled_run_works_on_ten_batches_at_most (e : env) (st : Store.t) (c : nat)
    (w : Store.t) :
  reachable st ->
  Forall (fun s => BatchRow.id s <> c) (incompleteBatches (Store.select_generating st)) ->
  w ∈ o_states (handler e st) ->
  (length (incompleteBatches (Store.select_generating st)) <= 10)%nat
  /\ keeps c st w.
Proof.
  intros Hinv%reachable_invariant Hc Hw. split.
  { unfold incompleteBatches. rewrite length_take. lia. }
  revert Hw. unfold handler.
  destruct (fetch_error e); [by intros ?%elem_of_nil |].
  case_bool_decide; [by intros ?%elem_of_nil |].
  case_bool_decide; [by intros ?%elem_of_nil |].
  set (todo := incompleteBatches (Store.select_generating st)) in *.
  destruct (process_batches e 0 todo (mkRun st [] 0 [])) as [r fin] eqn:Hloop.
  simpl. intros Hw.
  assert (Hnd : NoDup (map BatchRow.id todo)).
  { apply (sublist_NoDup _ (map BatchRow.id (Store.batches st))).
    - apply ids_ok_NoDup, Hinv.
    - apply fmap_sublist, incompleteBatches_sublist. }
  destruct (process_batches_spec e 0 todo (mkRun st [] 0 []) r fin Hinv Hnd) as (ws & Hst & Hws);
    [| done |].
  { apply Forall_forall. intros s Hs. by apply incompleteBatches_current. }
  simpl in Hst. rewrite Hst in Hw. rewrite Forall_forall in Hws.
  destruct (Hws w Hw) as (_ & _ & Hk). by apply Hk.
Qed.

Lemma scheduled_run_works_on_ten_batches_at_most_witness :
  let st := Examples.backlog 11 in
  length (Store.select_generating st) = 11%nat
  /\ forall w, w ∈ o_states (handler (Examples.tick_env 1) st) -> keeps 10 st w.
Proof.
  cbv zeta. split; [vm_compute; reflexivity |]. intros w Hw.
  apply (scheduled_run_works_on_ten_batches_at_most (Examples.tick_env 1)
           (Examples.backlog 11) 10 w).
  - apply backlog_reachable.
  - vm_compute. repeat constructor; discriminate.
  - exact Hw.
Defined.

End SchedulerOutcome.

(** ** Scans one after the other *)

Section VerifyScans.

Import Verify.

(** A request with an allowed method and a non-empty code gets as far as
    the lookup, with the code trimmed and upper-cased. *)
Lemma lookup_given e st r c :
  httpMethod r = "GET" \/ httpMethod r = "POST" -> code r = Given c -> c <> "" ->
  lookup e st r
  = Looked (Js.toUpperCase (Js.trim c))
      (if lookup_fault e then None
       else match Store.select_code_single (Js.toUpperCase (Js.trim c)) st with
            | Some codeRecord => Some (codeRecord, Store.joined_batch codeRecord st)
            | None => None
            end).
Proof.
  intros Hm Hc Hne. unfold lookup.
  destruct (negb (bool_decide (httpMethod r = "GET"))
            && negb (bool_decide (httpMethod r = "POST"))) eqn:Hmeth.
  { apply andb_true_iff in Hmeth as [H1 H2].
    apply negb_true_iff, bool_decide_eq_false in H1, H2. tauto. }
  rewrite Hc. by rewrite bool_decide_eq_false_2.
Qed.

Lemma filter_map_same {A} (p : A -> bool) (g : A -> A) (l : list A) :
  (forall x, p (g x) = p x) -> List.filter p (map g l) = map g (List.filter p l).
Proof.
  intros Hp. induction l as [|x l IH]; simpl; [done |].
  rewrite Hp. destruct (p x); simpl; by rewrite IH.
Qed.

Lemma select_code_single_code c st codeRecord :
  Store.select_code_single c st = Some codeRecord -> CodeRow.code codeRecord = c.
Proof.
  unfold Store.select_code_single.
  destruct (List.filter _ (Store.codes st)) as [|x [|y l]] eqn:Hf; [done | | done].
  intros [= <-].
  assert (Hin : In x (List.filter (fun r => bool_decide (CodeRow.code r = c))
                        (Store.codes st))) by (rewrite Hf; by left).
  apply filter_In in Hin as [_ Hx]. by apply bool_decide_eq_true in Hx.
Qed.

(** The conditional update, seen through the lookup by code. *)
Lemma select_after_update c c' now st codeRecord :
  Store.select_code_single c st = Some codeRecord ->
  Store.select_code_single c (Store.update_code_verified false c' now st).1
  = Some (if Store.still_active c' codeRecord
          then Store.mark_verified now codeRecord else codeRecord).
Proof.
  unfold Store.select_code_single, Store.update_code_verified. simpl.
  rewrite filter_map_same by (intros x; by destruct (Store.still_active c' x)).
  destruct (List.filter _ (Store.codes st)) as [|x [|y l]]; [done | | done].
  by intros [= <-].
Qed.

Lemma select_after_log c fault row st :
  Store.select_code_single c (Store.insert_verification fault row st)
  = Store.select_code_single c st.
Proof. unfold Store.insert_verification. by destruct fault. Qed.

Lemma joined_after_log r fault row st :
  Store.joined_batch r (Store.insert_verification fault row st) = Store.joined_batch r st.
Proof. unfold Store.insert_verification. by destruct fault. Qed.

(** The three ways a call run alone can go once it has a code to look
    up. *)
Lemma scan_of_unknown e st r c :
  httpMethod r = "GET" \/ httpMethod r = "POST" -> code r = Given c -> c <> "" ->
  lookup_fault e = true \/ Store.select_code_single (Js.toUpperCase (Js.trim c)) st = None ->
  handler e st r
  = (Store.insert_verification (log_fault e)
       (attempt e r (Js.toUpperCase (Js.trim c)) invalid None None) st,
     Done (respond 200 (Outcome false "invalid" invalid_message None))).
Proof.
  intros Hm Hc Hne Hnone. unfold handler. cbn [step].
  rewrite (lookup_given e st r c Hm Hc Hne).
  destruct Hnone as [-> | Hsel]; [done |]. rewrite Hsel. by destruct (lookup_fault e).
Qed.

Lemma scan_of_verified e st r c codeRecord :
  httpMethod r = "GET" \/ httpMethod r = "POST" -> code r = Given c -> c <> "" ->
  lookup_fault e = false ->
  Store.select_code_single (Js.toUpperCase (Js.trim c)) st = Some codeRecord ->
  CodeRow.status codeRecord = verified ->
  handler e st r
  = (Store.insert_verification (log_fault e)
       (attempt e r (Js.toUpperCase (Js.trim c)) duplicate
          (Some (CodeRow.manufacturer_id codeRecord))
          (Some (CodeRow.batch_id codeRecord))) st,
     Done (duplicate_response codeRecord (Store.joined_batch codeRecord st))).
Proof.
  intros Hm Hc Hne Hlook Hsel Hver. unfold handler. cbn [step].
  rewrite (lookup_given e st r c Hm Hc Hne), Hlook, Hsel. cbn [step].
  by rewrite bool_decide_eq_true_2.
Qed.

Lemma scan_of_active e st r c codeRecord :
  httpMethod r = "GET" \/ httpMethod r = "POST" -> code r = Given c -> c <> "" ->
  lookup_fault e = false ->
  Store.select_code_single (Js.toUpperCase (Js.trim c)) st = Some codeRecord ->
  CodeRow.status codeRecord = active ->
  handler e st r
  = (Store.insert_verification (log_fault e)
       (attempt e r (Js.toUpperCase (Js.trim c)) success
          (Some (CodeRow.manufacturer_id codeRecord))
          (Some (CodeRow.batch_id codeRecord)))
       (Store.update_code_verified (update_fault e) (Js.toUpperCase (Js.trim c))
          (now e) st).1,
     Done (success_response e (Store.joined_batch codeRecord st))).
Proof.
  intros Hm Hc Hne Hlook Hsel Hact. unfold handler. cbn [step].
  rewrite (lookup_given e st r c Hm Hc Hne), Hlook, Hsel. cbn [step].
  rewrite bool_decide_eq_false_2 by (by rewrite Hact).
  by destruct (Store.update_code_verified _ _ _ _).
Qed.

Lemma upper_char_ascii (a : ascii) :
  (nat_of_ascii (Js.upper_char a) <? 128)%nat = (nat_of_ascii a <? 128)%nat.
Proof. by destruct a as [[] [] [] [] [] [] [] []]. Qed.

(** Texts that differ in the case of their letters only are ASCII
    together. *)
Lemma toUpperCase_ascii (s t : string) :
  Js.toUpperCase s = Js.toUpperCase t -> Js.is_ascii t = true -> Js.is_ascii s = true.
Proof.
  unfold Js.is_ascii. revert t.
  induction s as [|a s IH]; intros [|b t]; simpl; try done.
  intros [= Hab Hrest] [Hb Ht]%andb_prop. rewrite (IH t Hrest Ht), andb_true_r.
  by rewrite <- upper_char_ascii, Hab, upper_char_ascii.
Qed.

(** X10: the first scan of an active code, storage working, answers
    success and leaves the row verified at the time of the call; the
    next scan of the same code, in whatever case its letters are typed
    and with whatever white space around it, answers duplicate with
    that time as the first verification, and changes no code row. The
    code is one of ASCII characters, as every generated code is. *)
Theorem first_scan_verifies_and_the_next_is_a_duplicate (e e' : env) (st : Store.t)
    (r r' : request) (c c' : string) (codeRecord : CodeRow.t) :
  httpMethod r = "GET" \/ httpMethod r = "POST" -> code r = Given c -> c <> "" ->
  httpMethod r' = "GET" \/ httpMethod r' = "POST" -> code r' = Given c' -> c' <> "" ->
  Js.is_ascii (Js.trim c) = true ->
  Js.toUpperCase (Js.trim c') = Js.toUpperCase (Js.trim c) ->
  lookup_fault e = false -> update_fault e = false -> lookup_fault e' = false ->
  Store.select_code_single (Js.toUpperCase (Js.trim c)) st = Some codeRecord ->
  CodeRow.status codeRecord = active ->
  let w1 := handler e st r in
  let w2 := handler e' w1.1 r' in
  w1.2 = Done (success_response e (Store.joined_batch codeRecord st))
  /\ Store.select_code_single (Js.toUpperCase (Js.trim c)) w1.1
     = Some (Store.mark_verified (now e) codeRecord)
  /\ Js.is_ascii (Js.trim c') = true
  /\ w2.2 = Done (duplicate_response (Store.mark_verified (now e) codeRecord)
                    (Store.joined_batch codeRecord st))
  /\ Store.codes w2.1 = Store.codes w1.1.
Proof.
  intros Hm Hc Hne Hm' Hc' Hne' Hascii Hsame Hlook Hupd Hlook' Hsel Hact w1 w2.
  assert (Hcode : CodeRow.code codeRecord = Js.toUpperCase (Js.trim c))
    by (by eapply select_code_single_code).
  assert (H1 : w1 = handler e st r) by done.
  rewrite (scan_of_active e st r c codeRecord) in H1 by done.
  assert (Hsel1 : Store.select_code_single (Js.toUpperCase (Js.trim c)) w1.1
                  = Some (Store.mark_verified (now e) codeRecord)).
  { rewrite H1. cbn [fst]. rewrite select_after_log, Hupd.
    rewrite (select_after_update _ _ _ _ codeRecord Hsel).
    unfold Store.still_active. by rewrite !bool_decide_eq_true_2. }
  assert (Hjoin : Store.joined_batch (Store.mark_verified (now e) codeRecord) w1.1
                  = Store.joined_batch codeRecord st).
  { rewrite H1. cbn [fst]. rewrite joined_after_log, Hupd. done. }
  assert (H2 : w2 = handler e' w1.1 r') by done.
  rewrite (scan_of_verified e' w1.1 r' c' (Store.mark_verified (now e) codeRecord)) in H2
    by (done || by rewrite Hsame).
  split; [by rewrite H1 |]. split; [done |].
  split; [by eapply toUpperCase_ascii |].
  rewrite H2. cbn [fst snd]. rewrite Hjoin. split; [done |].
  by destruct (insert_verification_tables (log_fault e')
                 (attempt e' r' (Js.toUpperCase (Js.trim c')) duplicate
                    (Some (CodeRow.manufacturer_id (Store.mark_verified (now e) codeRecord)))
                    (Some (CodeRow.batch_id (Store.mark_verified (now e) codeRecord))))
                 w1.1) as [-> _].
Qed.

Lemma first_scan_verifies_and_the_next_is_a_duplicate_witness :
  let e := Examples.verify_env false in
  let typed := (Examples.nbsp ++ "aaaaaaaaaaaa" ++ Examples.em_space)%string in
  let w1 := handler e Examples.store_complete (Examples.scan "AAAAAAAAAAAA") in
  let w2 := handler e w1.1 (Examples.scan typed) in
  status_of w1.2 = Some "success"%string
  /\ (CodeRow.verified_at <$> Store.select_code_single "AAAAAAAAAAAA" w1.1)
     = Some (Some (now e))
  /\ status_of w2.2 = Some "duplicate"%string
  /\ Store.codes w2.1 = Store.codes w1.1.
Proof.
  cbv zeta.
  destruct (first_scan_verifies_and_the_next_is_a_duplicate
              (Examples.verify_env false) (Examples.verify_env false)
              Examples.store_complete
              (Examples.scan "AAAAAAAAAAAA")
              (Examples.scan (Examples.nbsp ++ "aaaaaaaaaaaa" ++ Examples.em_space)%string)
              "AAAAAAAAAAAA" (Examples.nbsp ++ "aaaaaaaaaaaa" ++ Examples.em_space)%string
              Examples.fresh_record)
    as (H1 & Hsel & _ & H2 & Hcodes).
  - by left.
  - reflexivity.
  - discriminate.
  - by left.
  - reflexivity.
  - discriminate.
  - reflexivity.
  - vm_compute. reflexivity.
  - reflexivity.
  - reflexivity.
  - reflexivity.
  - vm_compute. reflexivity.
  - reflexivity.
  - change (Js.toUpperCase (Js.trim "AAAAAAAAAAAA")) with "AAAAAAAAAAAA" in Hsel.
    split; [by rewrite H1 |]. split; [by rewrite Hsel |].
    split; [by rewrite H2 | exact Hcodes].
Defined.

(** X11: a code that no row holds, and equally a lookup that fails with
    a storage error, is answered as invalid; nothing changes in [codes]
    or [batches], and the one attempt that is logged carries neither a
    manufacturer nor a batch. The code is taken with the white space
    around it removed and its letters in upper case; it is one of ASCII
    characters, where [Js.toUpperCase] is the engine's. *)
Theorem unknown_code_or_failed_lookup_is_invalid (e : env) (st : Store.t) (r : request)
    (c : string) :
  httpMethod r = "GET" \/ httpMethod r = "POST" -> code r = Given c -> c <> "" ->
  Js.is_ascii (Js.trim c) = true ->
  lookup_fault e = true
  \/ Forall (fun row => CodeRow.code row <> Js.toUpperCase (Js.trim c)) (Store.codes st) ->
  status_of (handler e st r).2 = Some "invalid"%string
  /\ Store.codes (handler e st r).1 = Store.codes st
  /\ Store.batches (handler e st r).1 = Store.batches st
  /\ (log_fault e = false ->
      Store.verifications (handler e st r).1
      = Store.verifications st
        ++ [AttemptRow.mk (Js.toUpperCase (Js.trim c)) "qr" invalid (ipAddress r)
              (getIpLocation e (ipAddress r)) None None]).
Proof.
  intros Hm Hc Hne _ Hnone.
  rewrite (scan_of_unknown e st r c Hm Hc Hne).
  - cbn [fst snd]. unfold Store.insert_verification.
    split; [done |]. split; [by destruct (log_fault e) |].
    split; [by destruct (log_fault e) |]. by intros ->.
  - destruct Hnone as [Hf | Hall]; [by left | right].
    unfold Store.select_code_single. rewrite filter_nothing; [done |].
    eapply Forall_impl; [exact Hall |]. intros row Hrow. by apply bool_decide_eq_false.
Qed.

Lemma unknown_code_or_failed_lookup_is_invalid_witness :
  let e := Verify.mkEnv "2024-01-01T00:00:00.000Z" (fun _ => None) true false false in
  let typed := (Examples.nbsp ++ "aaaaaaaaaaaa" ++ Examples.em_space)%string in
  let w := handler e Examples.store_complete (Examples.scan typed) in
  let u := handler (Examples.verify_env false) Examples.store_complete
             (Examples.scan "AAAAAAAAAAAB") in
  status_of w.2 = Some "invalid"%string
  /\ Store.codes w.1 = Store.codes Examples.store_complete
  /\ logged invalid "AAAAAAAAAAAA" w.1 = 1%nat
  /\ status_of u.2 = Some "invalid"%string
  /\ status_of (handler (Examples.verify_env false) Examples.store_complete
                  (Examples.scan typed)).2 = Some "success"%string.
Proof.
  cbv zeta.
  destruct (unknown_code_or_failed_lookup_is_invalid
              (Verify.mkEnv "2024-01-01T00:00:00.000Z" (fun _ => None) true false false)
              Examples.store_complete
              (Examples.scan (Examples.nbsp ++ "aaaaaaaaaaaa" ++ Examples.em_space)%string)
              (Examples.nbsp ++ "aaaaaaaaaaaa" ++ Examples.em_space)%string)
    as (Hs & Hc & _ & Hlog).
  - by left.
  - reflexivity.
  - discriminate.
  - reflexivity.
  - by left.
  - destruct (unknown_code_or_failed_lookup_is_invalid (Examples.verify_env false)
                Examples.store_complete (Examples.scan "AAAAAAAAAAAB") "AAAAAAAAAAAB")
      as (Hu & _).
    + by left.
    + reflexivity.
    + discriminate.
    + reflexivity.
    + right. vm_compute. repeat constructor; discriminate.
    + split; [exact Hs |]. split; [exact Hc |]. split; [| split; [exact Hu | reflexivity]].
      unfold logged. rewrite (Hlog eq_refl). vm_compute. reflexivity.
Defined.

(** X12: a call that gets as far as the lookup logs exactly one attempt,
    whatever its outcome: the rows logged before are kept, the new row
    is for the cleaned code and the caller's address, and its result is
    the outcome the call answers with. The cleaned code is the code
    without the white space around it and with its letters in upper
    case; it is one of ASCII characters, where [Js.toUpperCase] is the
    engine's. *)
Theorem every_scan_is_logged_once_with_its_outcome (e : env) (st : Store.t) (r : request)
    (c : string) :
  httpMethod r = "GET" \/ httpMethod r = "POST" -> code r = Given c -> c <> "" ->
  Js.is_ascii (Js.trim c) = true ->
  log_fault e = false ->
  exists a,
    Store.verifications (handler e st r).1 = Store.verifications st ++ [a]
    /\ AttemptRow.code a = Js.toUpperCase (Js.trim c)
    /\ AttemptRow.ip_address a = ipAddress r
    /\ status_of (handler e st r).2
       = Some (match AttemptRow.result a with
               | invalid => "invalid"
               | duplicate => "duplicate"
               | success => "success"
               end)%string.
Proof.
  intros Hm Hc Hne _ Hlog.
  destruct (lookup_fault e) eqn:Hlook.
  { rewrite (scan_of_unknown e st r c Hm Hc Hne) by (by left).
    rewrite Hlog. eexists. split; [reflexivity |]. done. }
  destruct (Store.select_code_single (Js.toUpperCase (Js.trim c)) st) as [codeRecord|] eqn:Hsel.
  2:{ rewrite (scan_of_unknown e st r c Hm Hc Hne) by (by right).
      rewrite Hlog. eexists. split; [reflexivity |]. done. }
  destruct (CodeRow.status codeRecord) eqn:Hst.
  - rewrite (scan_of_active e st r c codeRecord) by done.
    rewrite Hlog. cbn [fst snd]. eexists. split.
    + unfold Store.insert_verification, Store.update_code_verified.
      destruct (update_fault e); reflexivity.
    + done.
  - rewrite (scan_of_verified e st r c codeRecord) by done.
    rewrite Hlog. eexists. split; [reflexivity |]. done.
Qed.

Lemma every_scan_is_logged_once_with_its_outcome_witness :
  let typed := (Examples.nbsp ++ "aaaaaaaaaaaa" ++ Examples.em_space)%string in
  let w := handler (Examples.verify_env false) Examples.store_scanned
             (Examples.scan typed) in
  exists a,
    Store.verifications w.1 = Store.verifications Examples.store_scanned ++ [a]
    /\ AttemptRow.code a = "AAAAAAAAAAAA"%string
    /\ AttemptRow.result a = duplicate
    /\ status_of w.2 = Some "duplicate"%string.
Proof.
  cbv zeta.
  destruct (every_scan_is_logged_once_with_its_outcome (Examples.verify_env false)
              Examples.store_scanned
              (Examples.scan (Examples.nbsp ++ "aaaaaaaaaaaa" ++ Examples.em_space)%string)
              (Examples.nbsp ++ "aaaaaaaaaaaa" ++ Examples.em_space)%string)
    as (a & Hv & Hcode & _ & Hs).
  - by left.
  - reflexivity.
  - discriminate.
  - reflexivity.
  - reflexivity.
  - exists a. split; [exact Hv |]. split; [exact Hcode |].
    assert (Hres : Store.verifications
                     (handler (Examples.verify_env false) Examples.store_scanned
                        (Examples.scan
                           (Examples.nbsp ++ "aaaaaaaaaaaa" ++ Examples.em_space)%string)).1
                   = Store.verifications Examples.store_scanned ++ [a]) by exact Hv.
    vm_compute in Hres. injection Hres as <-. split; reflexivity.
Defined.

(** X13: a request that does not get as far as the lookup (a method
    other than GET and POST, a body that does not parse, no code or an
    empty one) is answered with an error status and touches nothing, not
    even the log. *)
Theorem request_without_a_code_touches_nothing (e : env) (st : Store.t) (r : request) :
  (httpMethod r <> "GET" /\ httpMethod r <> "POST")
  \/ code r = Unparsable \/ code r = Missing \/ code r = Given "" ->
  (handler e st r).1 = st
  /\ exists resp, (handler e st r).2 = Done resp
                  /\ (statusCode resp = 405 \/ statusCode resp = 500
                      \/ statusCode resp = 400).
Proof.
  intros Hbad. unfold handler. cbn [step]. unfold lookup.
  destruct (negb (bool_decide (httpMethod r = "GET"))
            && negb (bool_decide (httpMethod r = "POST"))) eqn:Hmeth.
  { cbn [step]. split; [done |]. eexists. split; [done |]. simpl. by left. }
  destruct Hbad as [[H1 H2] | Hbad].
  { rewrite !bool_decide_eq_false_2 in Hmeth by done. done. }
  destruct Hbad as [-> | [-> | ->]]; cbn [step];
    (split; [done |]); eexists; (split; [done |]); simpl; auto.
Qed.

Lemma request_without_a_code_touches_nothing_witness :
  let r := Verify.mkRequest "DELETE" (Verify.Given "AAAAAAAAAAAA") None None in
  (handler (Examples.verify_env false) Examples.store_complete r).1
  = Examples.store_complete
  /\ exists resp,
       (handler (Examples.verify_env false) Examples.store_complete r).2 = Done resp
       /\ (statusCode resp = 405 \/ statusCode resp = 500 \/ statusCode resp = 400).
Proof.
  cbv zeta.
  apply (request_without_a_code_touches_nothing (Examples.verify_env false)
           Examples.store_complete
           (Verify.mkRequest "DELETE" (Verify.Given "AAAAAAAAAAAA") None None)).
  left. split; discriminate.
Defined.

End VerifyScans.

(** ** Repeat scans in the Express workflow ([verifyCode]) *)

Section WorkflowScans.

Import Workflow.

Lemma find_map_same {A} (p : A -> bool) (g : A -> A) (l : list A) :
  (forall x, p (g x) = p x) -> List.find p (map g l) = g <$> List.find p l.
Proof.
  intros Hp. induction l as [|x l IH]; simpl; [done |].
  rewrite Hp. by destruct (p x).
Qed.

Lemma find_holds {A} (p : A -> bool) (l : list A) (x : A) :
  List.find p l = Some x -> p x = true.
Proof. intros H. by apply find_some in H as [_ ?]. Qed.

(** The code, batch and user documents a scan of [c] finds after the
    code and batch updates of an earlier scan. *)
Lemma find_code_updated c id change d :
  (forall x, code (change x) = code x) ->
  List.find (fun r => bool_decide (code r = c)) (codes (update_code id change d))
  = (fun x => if bool_decide (_id x = id) then change x else x)
      <$> List.find (fun r => bool_decide (code r = c)) (codes d).
Proof.
  intros Hch. unfold update_code. simpl. apply find_map_same.
  intros x. destruct (bool_decide (_id x = id)); [by rewrite Hch | done].
Qed.

Lemma find_batch_updated i id change d :
  (forall x, b_id (change x) = b_id x) ->
  List.find (fun b => bool_decide (b_id b = i)) (batches (update_batch id change d))
  = (fun x => if bool_decide (b_id x = id) then change x else x)
      <$> List.find (fun b => bool_decide (b_id b = i)) (batches d).
Proof.
  intros Hch. unfold update_batch. simpl. apply find_map_same.
  intros x. destruct (bool_decide (b_id x = id)); [by rewrite Hch | done].
Qed.

Lemma logVerification_tables e c codeId method res m msg batch manufacturer d :
  codes (logVerification e c codeId method res m msg batch manufacturer d) = codes d
  /\ batches (logVerification e c codeId method res m msg batch manufacturer d) = batches d
  /\ users (logVerification e c codeId method res m msg batch manufacturer d) = users d.
Proof. unfold logVerification. by destruct (log_fault e). Qed.

(** X14: three scans of an active code through [verifyCode], one after
    the other. The first answers success and marks the code verified;
    the second answers duplicate with the first verification's time and
    method, and flags the code, counting the scan; the third answers
    duplicate without changing the code any more. The batch has counted
    one verified and one flagged code. *)
Theorem three_scans_success_then_flagged (e1 e2 e3 : env) (d : db) (c method : string)
    (m : metadata) (rec : code_doc) (b : batch_doc) (u : user_doc) :
  (8 <= Js.length c)%nat ->
  List.find (fun r => bool_decide (code r = c)) (codes d) = Some rec ->
  code_status rec = active ->
  List.find (fun x => bool_decide (b_id x = batchId rec)) (batches d) = Some b ->
  List.find (fun x => bool_decide (u_id x = manufacturerId rec)) (users d) = Some u ->
  let w1 := verifyCode e1 d (Some c) method m in
  let w2 := verifyCode e2 w1.1 (Some c) method m in
  let w3 := verifyCode e3 w2.1 (Some c) method m in
  let flagged_doc :=
    mkCode (_id rec) (code rec) (batchId rec) (manufacturerId rec) flagged
      (Some (now e1)) (Some method) 2 (Some (now e2)) in
  (exists r1, w1.2 = Returned r1 /\ r_result r1 = "success"%string
              /\ r_isAuthentic r1 = true /\ r_verifiedAt r1 = Some (now e1))
  /\ (exists r2, w2.2 = Returned r2 /\ r_result r2 = "duplicate"%string
                 /\ r_isAuthentic r2 = false
                 /\ r_previousVerification r2 = Some (Some (now e1), Some method))
  /\ (exists r3, w3.2 = Returned r3 /\ r_result r3 = "duplicate"%string
                 /\ r_isAuthentic r3 = false /\ r_previousVerification r3 = None)
  /\ List.find (fun r => bool_decide (code r = c)) (codes w2.1) = Some flagged_doc
  /\ codes w3.1 = codes w2.1
  /\ List.find (fun x => bool_decide (b_id x = batchId rec)) (batches w3.1)
     = Some (mkBatch (b_id b) (b_batchId b) (productName b) (codesVerified b + 1)
               (codesFlagged b + 1)).
Proof.
  intros Hlen Hrec Hact Hb Hu w1 w2 w3 flagged_doc.
  assert (Hne : c <> "") by (intros ->; simpl in Hlen; lia).
  assert (Hshort : (Js.length c <? 8)%nat = false) by (apply Nat.ltb_ge; lia).
  assert (Hbid : b_id b = batchId rec).
  { apply find_holds in Hb. by apply bool_decide_eq_true in Hb. }
  (* first scan *)
  assert (H1 : w1 = verifyCode e1 d (Some c) method m) by done.
  unfold verifyCode in H1.
  rewrite bool_decide_eq_false_2, Hshort, Hrec in H1 by done. cbn [orb] in H1.
  rewrite Hb, Hu, Hact in H1.
  rewrite !bool_decide_eq_false_2 in H1 by done.
  set (d1 := update_batch (b_id b)
               (fun x => mkBatch (b_id x) (b_batchId x) (productName x)
                           (codesVerified x + 1) (codesFlagged x))
               (update_code (_id rec) (mark e1 method) d)) in H1.
  assert (Hrec1 : List.find (fun r => bool_decide (code r = c)) (codes d1)
                  = Some (mark e1 method rec)).
  { unfold d1. change (codes (update_batch ?i ?f ?x)) with (codes x).
    rewrite find_code_updated by done. rewrite Hrec. simpl.
    by rewrite bool_decide_eq_true_2. }
  assert (Hb1 : List.find (fun x => bool_decide (b_id x = batchId rec)) (batches d1)
                = Some (mkBatch (b_id b) (b_batchId b) (productName b)
                          (codesVerified b + 1) (codesFlagged b))).
  { unfold d1. rewrite find_batch_updated by done.
    change (batches (update_code ?i ?f ?x)) with (batches x).
    rewrite Hb. simpl. by rewrite bool_decide_eq_true_2. }
  assert (Hu1 : users d1 = users d) by done.
  (* second scan *)
  assert (H2 : w2 = verifyCode e2 w1.1 (Some c) method m) by done.
  rewrite H1 in H2. cbn [fst] in H2. unfold verifyCode in H2.
  rewrite bool_decide_eq_false_2, Hshort in H2 by done. cbn [orb] in H2.
  match type of H2 with
  | context [logVerification ?a1 ?a2 ?a3 ?a4 ?a5 ?a6 ?a7 ?a8 ?a9 d1] =>
      destruct (logVerification_tables a1 a2 a3 a4 a5 a6 a7 a8 a9 d1) as (Hlc & Hlb & Hlu);
      set (l1 := logVerification a1 a2 a3 a4 a5 a6 a7 a8 a9 d1) in *
  end.
  rewrite Hlc, Hlb, Hlu, Hrec1 in H2.
  change (batchId (mark e1 method rec)) with (batchId rec) in H2.
  change (manufacturerId (mark e1 method rec)) with (manufacturerId rec) in H2.
  change (code_status (mark e1 method rec)) with verified in H2.
  rewrite Hb1, Hu1, Hu in H2. rewrite bool_decide_eq_true_2 in H2 by done.
  cbn [b_id b_batchId productName] in H2.
  set (d2 := update_batch (b_id b)
               (fun x => mkBatch (b_id x) (b_batchId x) (productName x)
                           (codesVerified x) (codesFlagged x + 1))
               (update_code (_id (mark e1 method rec))
                  (flag e2 (mark e1 method rec)) l1)) in H2.
  assert (Hrec2 : List.find (fun r => bool_decide (code r = c)) (codes d2)
                  = Some flagged_doc).
  { unfold d2. change (codes (update_batch ?i ?f ?x)) with (codes x).
    rewrite find_code_updated by done. rewrite Hlc, Hrec1. simpl.
    by rewrite bool_decide_eq_true_2. }
  assert (Hb2 : List.find (fun x => bool_decide (b_id x = batchId rec)) (batches d2)
                = Some (mkBatch (b_id b) (b_batchId b) (productName b)
                          (codesVerified b + 1) (codesFlagged b + 1))).
  { unfold d2. rewrite find_batch_updated by done.
    change (batches (update_code ?i ?f ?x)) with (batches x).
    rewrite Hlb, Hb1. simpl. by rewrite bool_decide_eq_true_2. }
  assert (Hu2 : users d2 = users d) by (unfold d2; simpl; by rewrite Hlu).
  (* third scan *)
  assert (H3 : w3 = verifyCode e3 w2.1 (Some c) method m) by done.
  rewrite H2 in H3. cbn [fst] in H3. unfold verifyCode in H3.
  rewrite bool_decide_eq_false_2, Hshort in H3 by done. cbn [orb] in H3.
  match type of H3 with
  | context [logVerification ?a1 ?a2 ?a3 ?a4 ?a5 ?a6 ?a7 ?a8 ?a9 d2] =>
      destruct (logVerification_tables a1 a2 a3 a4 a5 a6 a7 a8 a9 d2) as (Hmc & Hmb & Hmu);
      set (l2 := logVerification a1 a2 a3 a4 a5 a6 a7 a8 a9 d2) in *
  end.
  rewrite Hmc, Hmb, Hmu, Hrec2 in H3.
  change (batchId flagged_doc) with (batchId rec) in H3.
  change (manufacturerId flagged_doc) with (manufacturerId rec) in H3.
  change (code_status flagged_doc) with flagged in H3.
  rewrite Hb2, Hu2, Hu in H3.
  rewrite bool_decide_eq_false_2 in H3 by done.
  rewrite bool_decide_eq_true_2 in H3 by done.
  match type of H3 with
  | context [logVerification ?a1 ?a2 ?a3 ?a4 ?a5 ?a6 ?a7 ?a8 ?a9 l2] =>
      destruct (logVerification_tables a1 a2 a3 a4 a5 a6 a7 a8 a9 l2) as (Hnc & Hnb & Hnu)
  end.
  split; [rewrite H1; eexists; split; [reflexivity | done] |].
  split; [rewrite H2; eexists; split; [reflexivity | done] |].
  split; [rewrite H3; eexists; split; [reflexivity | done] |].
  rewrite H3, H2. cbn [fst]. rewrite Hnc, Hnb, Hmc, Hmb. done.
Qed.

Lemma three_scans_success_then_flagged_witness :
  let d := Workflow.mkDb
             [Workflow.mkCode 1 "AAAAAAAAAAAA" 10 20 active None None 0 None]
             [Workflow.mkBatch 10 "BN20240101ABC123" "Soap" 0 0]
             [Workflow.mkUser 20 "Acme"] [] in
  let e := Examples.workflow_env in
  let w1 := verifyCode e d (Some "AAAAAAAAAAAA") "qr" Examples.browser in
  let w2 := verifyCode e w1.1 (Some "AAAAAAAAAAAA") "qr" Examples.browser in
  let w3 := verifyCode e w2.1 (Some "AAAAAAAAAAAA") "qr" Examples.browser in
  map code_status (codes w1.1) = [verified]
  /\ map code_status (codes w3.1) = [flagged]
  /\ map verificationCount (codes w3.1) = [2]
  /\ List.find (fun x => bool_decide (b_id x = 10%nat)) (batches w3.1)
     = Some (Workflow.mkBatch 10 "BN20240101ABC123" "Soap" 1 1).
Proof.
  cbv zeta.
  destruct (three_scans_success_then_flagged Examples.workflow_env Examples.workflow_env
              Examples.workflow_env
              (Workflow.mkDb
                 [Workflow.mkCode 1 "AAAAAAAAAAAA" 10 20 active None None 0 None]
                 [Workflow.mkBatch 10 "BN20240101ABC123" "Soap" 0 0]
                 [Workflow.mkUser 20 "Acme"] [])
              "AAAAAAAAAAAA" "qr" Examples.browser
              (Workflow.mkCode 1 "AAAAAAAAAAAA" 10 20 active None None 0 None)
              (Workflow.mkBatch 10 "BN20240101ABC123" "Soap" 0 0)
              (Workflow.mkUser 20 "Acme"))
    as (_ & _ & _ & _ & _ & Hb).
  - simpl. lia.
  - reflexivity.
  - reflexivity.
  - reflexivity.
  - reflexivity.
  - split; [vm_compute; reflexivity |]. split; [vm_compute; reflexivity |].
    split; [vm_compute; reflexivity |]. exact Hb.
Defined.

End WorkflowScans.

(** ** One success per code in the step-by-step workflow *)

Section VerificationWorkflowOnce.

Import VerificationWorkflow.

Lemma update_first_active_done c change l l' :
  (forall r, code (change r) = code r) ->
  (forall r, status (change r) <> Workflow.active) ->
  NoDup (map code l) ->
  update_first_active c change l = (l', true) ->
  Forall (fun r => ~ (code r = c /\ status r = Workflow.active)) l'
  /\ map code l' = map code l.
Proof.
  intros Hcode Hstat. revert l'. induction l as [|r l IH]; intros l'; simpl; [done |].
  intros [Hr Hnd]%NoDup_cons.
  destruct (bool_decide (code r = c) && bool_decide (status r = Workflow.active)) eqn:Hm.
  - intros [= <-]. apply andb_true_iff in Hm as [Hc%bool_decide_eq_true _]. split.
    + constructor.
      * intros [_ Ha]. by apply (Hstat r).
      * apply Forall_forall. intros x Hx [Hxc _]. apply Hr. rewrite Hc, <- Hxc.
        apply list_elem_of_fmap. eauto.
    + simpl. by rewrite Hcode.
  - destruct (update_first_active c change l) as [rest found] eqn:Hrest.
    intros [= <- ->]. destruct (IH rest Hnd eq_refl) as [Hall Hmap]. split.
    + constructor; [| done]. intros [Hc Ha].
      by rewrite !bool_decide_eq_true_2 in Hm.
    + simpl. by rewrite Hmap.
Qed.

Lemma logVerification_codes_same e c method res m d :
  codes (logVerification e c method res m d) = codes d.
Proof. unfold logVerification. by destruct (log_fault e). Qed.

(** What [checkCodeStatus] answers with [success] is what it asks to
    update. *)
Lemma examine_success e d input c sc :
  examine e d input = Checked c sc ->
  validateCodeFormat input = inl c
  /\ (shouldUpdate sc = false -> c_status sc <> "success"%string).
Proof.
  unfold examine. destruct (validateCodeFormat input) as [c0 | err]; [| done].
  destruct (lookup_fault e); [done |]. intros [= <- <-]. split; [done |].
  unfold checkCodeStatus. destruct (lookupCode d c0) as [[[r b] u] |]; [| done].
  repeat case_bool_decide; done.
Qed.

(** X15: in the step-by-step workflow a code is answered with success
    at most once. With the code values pairwise different (the schema's
    unique index), once a call for a code has concluded with success,
    any call for the same code that concludes afterwards does not,
    whatever store it had examined. *)
Theorem workflow_success_at_most_once (e1 e2 e0 : env) (d d0 : db)
    (input1 input2 : option string) (method1 method2 : string) (m1 m2 : metadata)
    (x1 : examined) (c : string) :
  NoDup (map code (codes d)) ->
  validateCodeFormat input1 = inl c -> validateCodeFormat input2 = inl c ->
  (exists dx ex, x1 = examine ex dx input1) ->
  let w1 := conclude e1 d input1 method1 m1 x1 in
  let w2 := conclude e2 w1.1 input2 method2 m2 (examine e0 d0 input2) in
  success w1.2 = true ->
  success w2.2 = false
  /\ r_status w2.2 <> "success"%string
  /\ codes w2.1 = codes w1.1.
Proof.
  intros Hnd Hv1 Hv2 (dx & ex & Hx1) w1 w2 Hok.
  (* the first call has used the code up *)
  assert (Hused : Forall (fun r => ~ (code r = c /\ status r = Workflow.active))
                    (codes w1.1)).
  { unfold w1 in *. clear w2. destruct x1 as [err | | c1 sc1]; simpl in Hok; try done.
    symmetry in Hx1. destruct (examine_success _ _ _ _ _ Hx1) as [Hc1 Hsc1].
    rewrite Hv1 in Hc1. injection Hc1 as <-.
    unfold conclude in *. destruct (shouldUpdate sc1) eqn:Hsu.
    2:{ simpl in Hok. apply bool_decide_eq_true in Hok. by destruct (Hsc1 eq_refl). }
    destruct (update_fault e1); [done |].
    unfold markCodeAsVerified in *.
    destruct (update_first_active c _ (codes d)) as [codes' updated] eqn:Hupd.
    destruct updated; [| done].
    cbn [fst]. rewrite logVerification_codes_same. simpl.
    apply update_first_active_done in Hupd as [Hall _];
      [done | done | by intros r | done]. }
  subst w2. clearbody w1.
  destruct (examine e0 d0 input2) as [err | | c2 sc2] eqn:Hx2.
  - simpl. rewrite logVerification_codes_same. done.
  - simpl. rewrite logVerification_codes_same. done.
  - destruct (examine_success _ _ _ _ _ Hx2) as [Hc2 Hsc2].
    rewrite Hv2 in Hc2. injection Hc2 as <-.
    destruct (shouldUpdate sc2) eqn:Hsu.
    + destruct (update_fault e2) eqn:Hf.
      * unfold conclude. rewrite Hsu, Hf. simpl. by rewrite logVerification_codes_same.
      * rewrite (workflow_lost_race_is_duplicate e2 w1.1 input2 method2 m2 c sc2 Hsu Hf Hused).
        simpl. by rewrite logVerification_codes_same.
    + unfold conclude. rewrite Hsu. simpl. rewrite logVerification_codes_same.
      specialize (Hsc2 eq_refl). split; [by apply bool_decide_eq_false | done].
Qed.

Lemma workflow_success_at_most_once_witness :
  let e := Examples.backend_env in
  let input := Some "AAAAAAAAAAAA"%string in
  let x := examine e Examples.backend_db input in
  let w1 := conclude e Examples.backend_db input "qr" Examples.backend_browser x in
  let w2 := conclude e w1.1 input "qr" Examples.backend_browser x in
  success w1.2 = true /\ success w2.2 = false /\ r_status w2.2 = "duplicate"%string.
Proof.
  cbv zeta. split; [reflexivity |].
  destruct (workflow_success_at_most_once Examples.backend_env Examples.backend_env
              Examples.backend_env Examples.backend_db Examples.backend_db
              (Some "AAAAAAAAAAAA"%string) (Some "AAAAAAAAAAAA"%string) "qr" "qr"
              Examples.backend_browser Examples.backend_browser
              (examine Examples.backend_env Examples.backend_db (Some "AAAAAAAAAAAA"%string))
              "AAAAAAAAAAAA")
    as (Hs & _ & _).
  - apply (bool_decide_unpack _). vm_compute. exact I.
  - vm_compute. reflexivity.
  - vm_compute. reflexivity.
  - eexists _, _. reflexivity.
  - reflexivity.
  - split; [exact Hs | vm_compute; reflexivity].
Defined.

End VerificationWorkflowOnce.

(** ** What the background generator writes *)

Section BackgroundOutput.

Import Background System.

Lemma insert_step_total e batch offset i codeRecords r :
  totalGenerated r <= totalGenerated (insert_step e batch offset i codeRecords r)
  /\ totalGenerated (insert_step e batch offset i codeRecords r)
     <= totalGenerated r
        + Z.of_nat (length (Js.slice i (i + insertChunkSize) codeRecords)).
Proof.
  unfold insert_step. destruct (Store.insert_codes _ _ _) as [st1 err].
  destruct err; simpl; lia.
Qed.

Lemma insert_loop_total fuel e batch offset i codeRecords r :
  totalGenerated r <= totalGenerated (insert_loop fuel e batch offset i codeRecords r)
  /\ totalGenerated (insert_loop fuel e batch offset i codeRecords r)
     <= totalGenerated r + Z.of_nat (length codeRecords - i).
Proof.
  revert i r. induction fuel as [|fuel IH]; intros i r; simpl; [lia |].
  destruct (i <? length codeRecords)%nat eqn:Hi; [| lia].
  apply Nat.ltb_lt in Hi.
  destruct (insert_step_total e batch offset i codeRecords r) as [Hlo Hhi].
  destruct (IH (i + insertChunkSize)%nat (insert_step e batch offset i codeRecords r))
    as [Hlo' Hhi'].
  unfold Js.slice in Hhi. rewrite length_take, length_drop in Hhi.
  unfold insertChunkSize in *. lia.
Qed.

Lemma fill_set_length left tp set n arr tp' :
  fill_set left tp set n = Some (arr, tp') ->
  Z.of_nat (length set) <= Z.max 0 n -> Z.of_nat (length arr) <= Z.max 0 n.
Proof.
  revert tp set. induction left as [|left IH]; intros tp set; simpl.
  { by intros [= <- <-]. }
  destruct (Z.of_nat (length set) <? n) eqn:Hlt; [| by intros [= <- <-]].
  destruct tp as [|bytes tp]; [done |]. intros Hfill Hle. apply (IH _ _ Hfill).
  apply Z.ltb_lt in Hlt.
  pose proof (set_add_length (Generator.generateCode bytes) set). lia.
Qed.

(** The replacement loop: what it returns starts with the codes it was
    given, has no code twice and none of the codes found in the store,
    and is as long as the chunk. *)
Lemma replacements_spec tp finalCodes existing n out tp' :
  replacements tp finalCodes existing n = Some (out, tp') ->
  NoDup finalCodes -> Forall (fun c => c ∉ existing) finalCodes ->
  finalCodes `prefix_of` out
  /\ NoDup out /\ Forall (fun c => c ∉ existing) out
  /\ n <= Z.of_nat (length out)
  /\ (Z.of_nat (length finalCodes) <= Z.max 0 n -> Z.of_nat (length out) <= Z.max 0 n).
Proof.
  revert finalCodes. induction tp as [|bytes tp IH]; intros finalCodes; simpl;
    destruct (Z.of_nat (length finalCodes) <? n) eqn:Hlt; try done.
  - intros [= <- <-] Hnd Hex. apply Z.ltb_ge in Hlt. done.
  - apply Z.ltb_lt in Hlt. intros Hloop Hnd Hex.
    destruct (negb (bool_decide (Generator.generateCode bytes ∈ finalCodes))
              && negb (bool_decide (Generator.generateCode bytes ∈ existing))) eqn:Hnew.
    + apply andb_true_iff in Hnew as [H1 H2].
      apply negb_true_iff, bool_decide_eq_false in H1, H2.
      destruct (IH _ Hloop) as (Hpre & Hnd' & Hex' & Hge & Hle).
      * apply NoDup_app. split; [done |]. split; [| apply NoDup_singleton].
        by intros x Hx ->%list_elem_of_singleton.
      * apply Forall_app. split; [done |]. by constructor.
      * split; [| split; [done | split; [done | split; [done |]]]].
        -- etrans; [| exact Hpre]. by apply prefix_app_r.
        -- intros Hlen. apply Hle. rewrite length_app. simpl. lia.
    + destruct (IH _ Hloop Hnd Hex) as (Hpre & Hnd' & Hex' & Hge & Hle). done.
  - intros [= <- <-] Hnd Hex. apply Z.ltb_ge in Hlt. done.
Qed.

Lemma filter_length_le {A} (f : A -> bool) (l : list A) :
  (length (List.filter f l) <= length l)%nat.
Proof. induction l as [|x l IH]; simpl; [lia |]. destruct (f x); simpl; lia. Qed.

Lemma filter_NoDup {A} (f : A -> bool) (l : list A) : NoDup l -> NoDup (List.filter f l).
Proof. intros H. eapply sublist_NoDup; [exact H | apply filter_sublist]. Qed.

Lemma fill_set_NoDup left tp set n arr tp' :
  fill_set left tp set n = Some (arr, tp') -> NoDup set -> NoDup arr.
Proof.
  revert tp set. induction left as [|left IH]; intros tp set; simpl.
  { by intros [= <- <-]. }
  destruct (Z.of_nat (length set) <? n); [| by intros [= <- <-]].
  destruct tp as [|bytes tp]; [done |]. intros Hfill Hnd. apply (IH _ _ Hfill).
  by apply set_add_NoDup.
Qed.

(** The records one pass of the outer loop hands to the inner one. *)
Lemma chunk_records e batch quantity userId offset r r' :
  offset < quantity ->
  chunk e batch quantity userId offset r = Some r' ->
  exists finalCodes tp,
    r' = insert_loop (length finalCodes) e (BatchRow.id batch) offset 0
           (Executor.buildRecords finalCodes (BatchRow.id batch) userId (siteUrl e))
           (mkRun (store r) (totalGenerated r) tp (boundaries r))
    /\ Z.of_nat (length finalCodes) = Z.min chunkSize (quantity - offset)
    /\ NoDup finalCodes.
Proof.
  intros Hoff. unfold chunk.
  destruct (fill_set _ _ _ _) as [[codesArray tp1]|] eqn:Hfill; [| done].
  destruct (replacements _ _ _ _) as [[finalCodes tp2]|] eqn:Hrep; [| done].
  intros [= <-]. exists finalCodes, tp2. rewrite buildRecords_length.
  split; [done |].
  pose proof (fill_set_length _ _ _ _ _ _ Hfill) as Hlen.
  pose proof (fill_set_NoDup _ _ _ _ _ _ Hfill) as Hnd.
  destruct (replacements_spec _ _ _ _ _ _ Hrep) as (_ & Hnd' & _ & Hge & Hle).
  - apply filter_NoDup, Hnd. constructor.
  - apply Forall_forall. intros c Hc%list_elem_of_In%filter_In.
    destruct Hc as [_ Hc]. by apply negb_true_iff, bool_decide_eq_false in Hc.
  - split; [| done].
    assert (Z.of_nat (length finalCodes) <= Z.max 0 (Z.min chunkSize (quantity - offset))).
    { apply Hle.
      pose proof (filter_length_le
                    (fun code => negb (bool_decide
                                         (code ∈ (if select_fault e offset then []
                                                  else Store.select_codes_in codesArray
                                                         (store r)))))
                    codesArray).
      simpl in Hlen. lia. }
    unfold chunkSize in *. lia.
Qed.

Lemma chunk_total e batch quantity userId offset r r' :
  offset < quantity ->
  chunk e batch quantity userId offset r = Some r' ->
  totalGenerated r <= totalGenerated r'
  /\ totalGenerated r' <= totalGenerated r + Z.min chunkSize (quantity - offset).
Proof.
  intros Hoff Hchunk.
  destruct (chunk_records _ _ _ _ _ _ _ Hoff Hchunk) as (finalCodes & tp & -> & Hlen & _).
  match goal with
  | |- context [insert_loop ?fuel ?e ?b ?o ?i ?cr ?r0] =>
      destruct (insert_loop_total fuel e b o i cr r0) as [Hlo Hhi]
  end.
  rewrite buildRecords_length in Hhi. simpl in *. lia.
Qed.

Lemma chunks_total fuel e batch quantity userId offset r :
  totalGenerated r <= totalGenerated (chunks fuel e batch quantity userId offset r).1
  /\ totalGenerated (chunks fuel e batch quantity userId offset r).1
     <= totalGenerated r + Z.max 0 (quantity - offset).
Proof.
  revert offset r. induction fuel as [|fuel IH]; intros offset r; simpl; [lia |].
  destruct (offset <? quantity) eqn:Hoff; [| simpl; lia].
  apply Z.ltb_lt in Hoff.
  destruct (chunk e batch quantity userId offset r) as [r'|] eqn:Hc; [| simpl; lia].
  destruct (chunk_total _ _ _ _ _ _ _ Hoff Hc) as [Hlo Hhi].
  destruct (IH (offset + chunkSize) r') as [Hlo' Hhi'].
  unfold chunkSize in *. lia.
Qed.

(** X16: the total the background generator reports is the number of
    rows it has added to [codes], whatever went wrong on the way, and it
    never goes beyond the quantity asked for; the rows stored before are
    kept, in place. *)
Theorem background_total_is_rows_added_within_quantity (e : env) (st : Store.t)
    (batch : BatchRow.t) (quantity : Z) (userId : nat) :
  let run := (generateCodesInBackground e st batch quantity userId).1 in
  (exists added, Store.codes (store run) = Store.codes st ++ added
                 /\ totalGenerated run = Z.of_nat (length added))
  /\ 0 <= totalGenerated run <= Z.max 0 quantity.
Proof.
  intros run. split.
  - pose (I := fun (s : Store.t) (total : Z) (bs : list Store.t) =>
                 exists added, Store.codes s = Store.codes st ++ added
                               /\ total = Z.of_nat (length added)).
    apply (generateCodesInBackground_keeps I).
    + intros offset i codeRecords r (added & Hc & Ht). unfold insert_step.
      pose proof (insert_codes_spec (insert_fault e offset i)
                    (Js.slice i (i + insertChunkSize) codeRecords) (store r)) as Hins.
      destruct (Store.insert_codes _ _ _) as [st1 err]. destruct Hins as (_ & Herr & _).
      destruct err; simpl.
      * subst st1. by exists added.
      * exists (added ++ Js.slice i (i + insertChunkSize) codeRecords).
        rewrite update_batch_count_codes, Herr, Hc, Ht, length_app, <- app_assoc.
        split; [done | lia].
    + exists []. by rewrite app_nil_r.
  - unfold run, generateCodesInBackground.
    destruct (chunks_total (Z.to_nat quantity) e batch quantity userId 0
                (mkRun st 0 (tape e) [])) as [Hlo Hhi].
    simpl in *. lia.
Qed.

(** X17: every pass of the outer loop hands the inner one exactly
    [min(5000, quantity - offset)] records, of pairwise different
    values, for the batch and the issuer, all active. *)
Theorem background_chunk_is_full_and_distinct (e : env) (batch : BatchRow.t)
    (quantity : Z) (userId : nat) (offset : Z) (r r' : run) :
  offset < quantity ->
  chunk e batch quantity userId offset r = Some r' ->
  exists codeRecords tp,
    r' = insert_loop (length codeRecords) e (BatchRow.id batch) offset 0 codeRecords
           (mkRun (store r) (totalGenerated r) tp (boundaries r))
    /\ Z.of_nat (length codeRecords) = Z.min chunkSize (quantity - offset)
    /\ NoDup (Store.code_values codeRecords)
    /\ Forall (fun row => CodeRow.batch_id row = BatchRow.id batch
                          /\ CodeRow.manufacturer_id row = userId
                          /\ CodeRow.status row = active) codeRecords.
Proof.
  intros Hoff Hchunk.
  destruct (chunk_records _ _ _ _ _ _ _ Hoff Hchunk) as (finalCodes & tp & Hr & Hlen & Hnd).
  exists (Executor.buildRecords finalCodes (BatchRow.id batch) userId (siteUrl e)), tp.
  rewrite buildRecords_length, buildRecords_values. split; [done |].
  split; [done |]. split; [done |].
  unfold Executor.buildRecords. apply Forall_forall.
  by intros row (c & -> & _)%list_elem_of_fmap.
Qed.

Lemma background_chunk_is_full_and_distinct_witness :
  exists r' codeRecords,
    chunk (Examples.background_env 3) Examples.pending_batch 3 7 0
      (mkRun Examples.store_pending 0 (Examples.tape 3) []) = Some r'
    /\ length codeRecords = 3%nat
    /\ NoDup (Store.code_values codeRecords)
    /\ totalGenerated r' = 3.
Proof.
  destruct (chunk (Examples.background_env 3) Examples.pending_batch 3 7 0
              (mkRun Examples.store_pending 0 (Examples.tape 3) [])) as [r'|] eqn:Hc;
    [| by vm_compute in Hc].
  destruct (background_chunk_is_full_and_distinct (Examples.background_env 3)
              Examples.pending_batch 3 7 0
              (mkRun Examples.store_pending 0 (Examples.tape 3) []) r')
    as (codeRecords & tp & _ & Hlen & Hnd & _).
  - lia.
  - exact Hc.
  - exists r', codeRecords. split; [reflexivity |].
    split; [unfold chunkSize in Hlen; lia |]. split; [exact Hnd |].
    vm_compute in Hc. injection Hc as <-. reflexivity.
Defined.

End BackgroundOutput.

(** ** Accounts *)

Section AccountFacts.

Lemma single_spec (p : UserRow.t -> bool) (users : Users.t) (u : UserRow.t) :
  Users.single p users = Some u ->
  u ∈ users /\ p u = true /\ forall v, v ∈ users -> p v = true -> v = u.
Proof.
  unfold Users.single.
  destruct (List.filter p users) as [|x [|y l]] eqn:Hf; [done | | done].
  intros [= <-].
  assert (Hin : forall v, v ∈ users /\ p v = true <-> v = x).
  { intros v. rewrite list_elem_of_In, <- filter_In, Hf. simpl. split; [| by left].
    by intros [-> | []]. }
  destruct (proj2 (Hin x) eq_refl) as [Hx Hp]. split; [done |]. split; [done |].
  intros v Hv Hpv. by apply Hin.
Qed.

Lemma single_none_of_all_false (p : UserRow.t -> bool) (users : Users.t) :
  (forall v, v ∈ users -> p v = false) -> Users.single p users = None.
Proof.
  intros Hall. unfold Users.single. rewrite filter_nothing; [done |].
  by apply Forall_forall.
Qed.

Lemma update_by_id_lookup i g (users : Users.t) k u :
  users !! k = Some u ->
  Users.update_by_id i g users !! k = Some (if Users.by_id i u then g u else u).
Proof. intros Hk. unfold Users.update_by_id. by rewrite list_lookup_fmap, Hk. Qed.

Lemma update_by_id_elem i g (users : Users.t) v :
  v ∈ Users.update_by_id i g users ->
  exists u, u ∈ users /\ v = (if Users.by_id i u then g u else u).
Proof.
  unfold Users.update_by_id. intros (u & -> & Hu)%list_elem_of_fmap. eauto.
Qed.

(** After an update by [id] that makes [p] hold of the one row with
    that [id], and with [p] holding of no other row, the lookup by [p]
    finds the updated row. *)
Lemma single_after_update (p : UserRow.t -> bool) i g (users : Users.t) user :
  NoDup (map UserRow.id users) -> user ∈ users -> UserRow.id user = i ->
  p (g user) = true ->
  (forall v, v ∈ users -> UserRow.id v <> i -> p v = false) ->
  Users.single p (Users.update_by_id i g users) = Some (g user).
Proof.
  intros Hnd Hin Hid Hp Hother. unfold Users.single, Users.update_by_id.
  assert (Hrest : forall l : Users.t,
             (forall v, v ∈ l -> UserRow.id v <> i) ->
             (forall v, v ∈ l -> UserRow.id v <> i -> p v = false) ->
             List.filter p (map (fun u => if Users.by_id i u then g u else u) l) = []).
  { intros l Hids Hps. apply filter_nothing, Forall_fmap, Forall_forall.
    intros v Hv. unfold compose, Users.by_id.
    rewrite bool_decide_eq_false_2 by (by apply Hids). by apply Hps; [| apply Hids]. }
  induction users as [|x l IH]; [by apply elem_of_nil in Hin |].
  simpl in Hnd. apply NoDup_cons in Hnd as [Hx Hnd]. simpl.
  destruct (Users.by_id i x) eqn:Hxi; unfold Users.by_id in Hxi.
  - apply bool_decide_eq_true in Hxi. assert (x = user) as ->.
    { apply elem_of_cons in Hin as [-> | Hin]; [done |]. exfalso. apply Hx.
      rewrite Hxi, <- Hid. apply list_elem_of_fmap. eauto. }
    rewrite Hp, Hrest; [done | |].
    + intros v Hv Hvi. apply Hx. rewrite Hid, <- Hvi. apply list_elem_of_fmap. eauto.
    + intros v Hv. apply Hother. by right.
  - apply bool_decide_eq_false in Hxi. rewrite (Hother x) by (done || by left).
    apply elem_of_cons in Hin as [-> | Hin]; [done |].
    apply IH; [done | done |]. intros v Hv. apply Hother. by right.
Qed.

(** X18: a verification link works once. Followed in time, the link of
    an unverified account marks that account verified and clears its
    token, leaving every other account as it was; the same link followed
    again is answered as invalid, not as already verified, and changes
    nothing. *)
Theorem verification_link_works_once (e e' : VerifyEmail.env) (users : Users.t)
    (r : VerifyEmail.request) (tk : string) (user : UserRow.t) :
  VerifyEmail.httpMethod r = "GET" -> VerifyEmail.token r = Some tk -> tk <> "" ->
  VerifyEmail.fetch_error e = false -> VerifyEmail.update_error e = false ->
  Users.single (Users.by_token tk) users = Some user ->
  UserRow.email_verified user = false ->
  VerifyEmail.now e <= VerifyEmail.tokenExpiry user ->
  let w := VerifyEmail.handler e users r in
  w.2 = VerifyEmail.respond 200
          (VerifyEmail.Verified "Email verified successfully! You can now login."
             (UserRow.email user))
  /\ (forall k u, users !! k = Some u ->
        w.1 !! k = Some (if bool_decide (UserRow.id u = UserRow.id user)
                         then VerifyEmail.verified u else u))
  /\ VerifyEmail.handler e' w.1 r
     = (w.1, VerifyEmail.respond 400
               (VerifyEmail.Error "Invalid or expired verification token")).
Proof.
  intros Hm Htk Hne Hfetch Hupd Hsel Hunv Hexp w.
  destruct (single_spec _ _ _ Hsel) as (Hin & Hp & Huniq).
  assert (Hw : w = (Users.update_by_id (UserRow.id user) VerifyEmail.verified users,
                    VerifyEmail.respond 200
                      (VerifyEmail.Verified
                         "Email verified successfully! You can now login."
                         (UserRow.email user)))).
  { unfold w, VerifyEmail.handler.
    rewrite Hm, Htk, Hfetch, Hsel, Hunv, Hupd.
    rewrite bool_decide_eq_true_2 by done. rewrite bool_decide_eq_false_2 by done.
    simpl. destruct (VerifyEmail.now e >? VerifyEmail.tokenExpiry user) eqn:Hgt; [| done].
    rewrite Z.gtb_ltb in Hgt. apply Z.ltb_lt in Hgt. lia. }
  rewrite Hw. cbn [fst snd]. split; [done |]. split.
  { intros k u Hk. by apply update_by_id_lookup. }
  unfold VerifyEmail.handler. rewrite Hm, Htk.
  rewrite bool_decide_eq_true_2 by done. rewrite bool_decide_eq_false_2 by done. simpl.
  assert (Hnone : Users.single (Users.by_token tk)
                    (Users.update_by_id (UserRow.id user) VerifyEmail.verified users)
                  = None).
  { apply single_none_of_all_false. intros v (u & Hu & ->)%update_by_id_elem.
    unfold Users.by_id. case_bool_decide as Hid; [done |].
    destruct (Users.by_token tk u) eqn:Hpu; [| done].
    by rewrite (Huniq u Hu Hpu) in Hid. }
  rewrite Hnone. by destruct (VerifyEmail.fetch_error e').
Qed.

Lemma verification_link_works_once_witness :
  let tk := "9f86d081884c7d659a2feaa0c55ad015"%string in
  let w := VerifyEmail.handler (Examples.verify_email_env 1000) Examples.users_registered
             (Examples.click tk) in
  VerifyEmail.statusCode w.2 = 200
  /\ map UserRow.email_verified w.1 = [true; true]
  /\ VerifyEmail.statusCode
       (VerifyEmail.handler (Examples.verify_email_env 2000) w.1 (Examples.click tk)).2
     = 400.
Proof.
  cbv zeta.
  destruct (verification_link_works_once (Examples.verify_email_env 1000)
              (Examples.verify_email_env 2000) Examples.users_registered
              (Examples.click "9f86d081884c7d659a2feaa0c55ad015")
              "9f86d081884c7d659a2feaa0c55ad015" Examples.ada_row eq_refl eq_refl)
    as (H1 & _ & H3).
  - discriminate.
  - reflexivity.
  - reflexivity.
  - vm_compute. reflexivity.
  - reflexivity.
  - vm_compute. discriminate.
  - rewrite H1, H3. split; [reflexivity |]. split; [vm_compute; reflexivity | reflexivity].
Defined.

(** A registration that is answered 201 has appended the new account:
    unverified, not approved, a manufacturer, with the token and the
    expiry of the invocation. *)
Lemma register_created e users r :
  Register.statusCode (Register.handler e users r).2 = 201 ->
  exists f,
    Register.body r = Some f
    /\ Users.single (Users.by_email (Js.toLowerCase (Register.email f))) users = None
    /\ (Register.new_id e ∉ map UserRow.id users)
    /\ (Register.handler e users r).1
       = users
         ++ [UserRow.mk (Register.new_id e) (Js.toLowerCase (Register.email f))
               (Register.hash e (Register.password f)) (Register.companyName f)
               (Js.toLowerCase (Register.companyDomain f)) "manufacturer" false
               (Some (Register.verificationToken e)) (Some (Register.tokenExpiry e))
               false].
Proof.
  unfold Register.handler.
  destruct (negb _); [done |].
  destruct (Register.body r) as [f|]; [| done].
  destruct (_ || _); [done |].
  destruct (match Js.toLowerCase <$> Js.after_at (Register.email f) with
            | Some d => _
            | None => false
            end); [done |].
  destruct (negb _); [done |].
  destruct (Users.single _ users) eqn:Hsel; [done |].
  destruct (Register.insert_fault e); [done |].
  unfold Users.insert. case_bool_decide as Hid; [done |].
  intros _. exists f. done.
Qed.


(** X19: the link of a registration verifies the new account up to and
    including the instant it expires, and not after: followed in time
    it marks the new account, and no other, verified; followed later it
    is answered as expired and nothing changes. *)
Theorem registration_link_verifies_until_it_expires (er : Register.env)
    (ev : VerifyEmail.env) (users : Users.t) (r : Register.request) :
  Register.statusCode (Register.handler er users r).2 = 201 ->
  Register.verificationToken er <> "" ->
  (forall u, u ∈ users ->
             UserRow.verification_token u <> Some (Register.verificationToken er)) ->
  VerifyEmail.fetch_error ev = false -> VerifyEmail.update_error ev = false ->
  let users' := (Register.handler er users r).1 in
  let w := VerifyEmail.handler ev users'
             (VerifyEmail.mkRequest "GET" (Some (Register.verificationToken er))) in
  (VerifyEmail.now ev <= Register.tokenExpiry er ->
   VerifyEmail.statusCode w.2 = 200
   /\ exists row, users' = users ++ [row] /\ w.1 = users ++ [VerifyEmail.verified row])
  /\ (Register.tokenExpiry er < VerifyEmail.now ev ->
      w = (users',
           VerifyEmail.respond 400
             (VerifyEmail.Expired
                "Verification token has expired. Please request a new verification email."))).
Proof.
  intros Hreg Hne Hfresh Hfetch Hupd users' w.
  destruct (register_created er users r Hreg) as (f & _ & _ & Hid & Husers).
  set (row := UserRow.mk _ _ _ _ _ _ _ _ _ _) in Husers.
  assert (Hsel : Users.single (Users.by_token (Register.verificationToken er)) users'
                 = Some row).
  { unfold users', Users.single. rewrite Husers, List.filter_app.
    rewrite (filter_nothing _ users).
    - simpl. unfold Users.by_token. simpl. by rewrite bool_decide_eq_true_2.
    - apply Forall_forall. intros u Hu. apply bool_decide_eq_false. by apply Hfresh. }
  unfold w, VerifyEmail.handler. cbn [VerifyEmail.httpMethod VerifyEmail.token].
  rewrite bool_decide_eq_true_2 by done. rewrite bool_decide_eq_false_2 by done.
  rewrite Hfetch, Hsel, Hupd. cbn [negb UserRow.email_verified row].
  change (VerifyEmail.tokenExpiry row) with (Register.tokenExpiry er).
  split.
  - intros Hle.
    destruct (VerifyEmail.now ev >? Register.tokenExpiry er) eqn:Hgt.
    { rewrite Z.gtb_ltb in Hgt. apply Z.ltb_lt in Hgt. lia. }
    split; [done |]. exists row. split; [done |]. cbn [fst].
    unfold users', Users.update_by_id. rewrite Husers, map_app. simpl.
    unfold Users.by_id at 2. rewrite bool_decide_eq_true_2 by done. f_equal.
    rewrite <- (map_id users) at 2. apply map_ext_in. intros u Hu%list_elem_of_In.
    unfold Users.by_id. rewrite bool_decide_eq_false_2; [done |].
    intros Hu'. apply Hid. change (UserRow.id row) with (Register.new_id er) in Hu'.
    rewrite <- Hu'. apply list_elem_of_fmap. eauto.
  - intros Hlt.
    destruct (VerifyEmail.now ev >? Register.tokenExpiry er) eqn:Hgt; [done |].
    rewrite Z.gtb_ltb in Hgt. apply Z.ltb_ge in Hgt. lia.
Qed.

Lemma registration_link_verifies_until_it_expires_witness :
  let tk := "9f86d081884c7d659a2feaa0c55ad015"%string in
  let users' := (Register.handler Examples.register_env [Examples.admin_row]
                   Examples.signup).1 in
  VerifyEmail.statusCode
    (VerifyEmail.handler (Examples.verify_email_env 86400000) users' (Examples.click tk)).2
  = 200
  /\ VerifyEmail.statusCode
       (VerifyEmail.handler (Examples.verify_email_env 86400001) users'
          (Examples.click tk)).2
     = 400.
Proof.
  cbv zeta.
  destruct (registration_link_verifies_until_it_expires Examples.register_env
              (Examples.verify_email_env 86400000) [Examples.admin_row] Examples.signup)
    as [Hin _].
  - reflexivity.
  - discriminate.
  - intros u ->%list_elem_of_singleton. discriminate.
  - reflexivity.
  - reflexivity.
  - destruct (registration_link_verifies_until_it_expires Examples.register_env
                (Examples.verify_email_env 86400001) [Examples.admin_row] Examples.signup)
      as [_ Hout].
    + reflexivity.
    + discriminate.
    + intros u ->%list_elem_of_singleton. discriminate.
    + reflexivity.
    + reflexivity.
    + split.
      * apply Hin. simpl. lia.
      * change (Examples.click "9f86d081884c7d659a2feaa0c55ad015")
          with (VerifyEmail.mkRequest "GET"
                  (Some (Register.verificationToken Examples.register_env))).
        rewrite Hout; [reflexivity | simpl; lia].
Defined.

(** X20: asking for a new link replaces the token before the mail is
    sent. Whether or not the mail goes out, the old link is dead from
    then on, and the new one verifies the account until it expires. *)
Theorem resend_replaces_the_link (e : ResendVerification.env) (ev : VerifyEmail.env)
    (users : Users.t) (r : ResendVerification.request) (email old : string)
    (user : UserRow.t) :
  NoDup (map UserRow.id users) ->
  ResendVerification.httpMethod r = "POST" ->
  ResendVerification.body r = Some email -> email <> "" ->
  ResendVerification.fetch_error e = false -> ResendVerification.update_error e = false ->
  Users.single (Users.by_email (Js.toLowerCase email)) users = Some user ->
  UserRow.email_verified user = false ->
  Users.single (Users.by_token old) users = Some user -> old <> "" ->
  ResendVerification.verificationToken e <> old ->
  ResendVerification.verificationToken e <> "" ->
  (forall u, u ∈ users ->
             UserRow.verification_token u
             <> Some (ResendVerification.verificationToken e)) ->
  VerifyEmail.fetch_error ev = false -> VerifyEmail.update_error ev = false ->
  let users' := (ResendVerification.handler e users r).1 in
  users' = Users.update_by_id (UserRow.id user) (ResendVerification.renewed e) users
  /\ VerifyEmail.handler ev users' (VerifyEmail.mkRequest "GET" (Some old))
     = (users', VerifyEmail.respond 400
                  (VerifyEmail.Error "Invalid or expired verification token"))
  /\ (VerifyEmail.now ev <= ResendVerification.tokenExpiry e ->
      (VerifyEmail.handler ev users'
         (VerifyEmail.mkRequest "GET"
            (Some (ResendVerification.verificationToken e)))).2
      = VerifyEmail.respond 200
          (VerifyEmail.Verified "Email verified successfully! You can now login."
             (UserRow.email user))).
Proof.
  intros Hnd Hm Hbody Hne Hfetch Hupd Hsel Hunv Hold Holdne Hdiff Hnewne Hfresh Hvf Hvu users'.
  destruct (single_spec _ _ _ Hsel) as (Hin & _ & _).
  assert (Husers : users'
                   = Users.update_by_id (UserRow.id user) (ResendVerification.renewed e)
                       users).
  { unfold users', ResendVerification.handler.
    rewrite Hm, Hbody, Hfetch, Hsel, Hunv, Hupd.
    rewrite bool_decide_eq_true_2 by done. rewrite bool_decide_eq_false_2 by done.
    simpl. by destruct (ResendVerification.emailSent e). }
  split; [done |]. rewrite Husers.
  destruct (single_spec _ _ _ Hold) as (_ & _ & Huniq).
  split.
  - unfold VerifyEmail.handler. cbn [VerifyEmail.httpMethod VerifyEmail.token].
    rewrite bool_decide_eq_true_2 by done. rewrite bool_decide_eq_false_2 by done.
    rewrite Hvf. simpl.
    rewrite single_none_of_all_false; [done |].
    intros v (u & Hu & ->)%update_by_id_elem. unfold Users.by_id.
    case_bool_decide as Hid.
    + unfold Users.by_token. simpl. apply bool_decide_eq_false. congruence.
    + destruct (Users.by_token old u) eqn:Hpu; [| done].
      by rewrite (Huniq u Hu Hpu) in Hid.
  - intros Hle. unfold VerifyEmail.handler.
    cbn [VerifyEmail.httpMethod VerifyEmail.token].
    rewrite bool_decide_eq_true_2 by done. rewrite bool_decide_eq_false_2 by done.
    rewrite Hvf.
    rewrite (single_after_update _ _ _ _ user Hnd Hin eq_refl).
    + cbn [negb UserRow.email_verified ResendVerification.renewed]. rewrite Hunv, Hvu.
      change (VerifyEmail.tokenExpiry (ResendVerification.renewed e user))
        with (ResendVerification.tokenExpiry e).
      destruct (VerifyEmail.now ev >? ResendVerification.tokenExpiry e) eqn:Hgt; [| done].
      rewrite Z.gtb_ltb in Hgt. apply Z.ltb_lt in Hgt. lia.
    + unfold Users.by_token. simpl. by apply bool_decide_eq_true.
    + intros v Hv _. unfold Users.by_token. apply bool_decide_eq_false. by apply Hfresh.
Qed.

Lemma resend_replaces_the_link_witness :
  let e := ResendVerification.mkEnv "0b5c4a1d7e3f4c2a8d9e6f7a1b2c3d4e" 172800000
             false false false in
  let w := ResendVerification.handler e Examples.users_registered
             (ResendVerification.mkRequest "POST" (Some "Ada@Acme.com")) in
  ResendVerification.statusCode w.2 = 500
  /\ VerifyEmail.statusCode
       (VerifyEmail.handler (Examples.verify_email_env 1000) w.1
          (Examples.click "9f86d081884c7d659a2feaa0c55ad015")).2 = 400
  /\ VerifyEmail.statusCode
       (VerifyEmail.handler (Examples.verify_email_env 1000) w.1
          (Examples.click "0b5c4a1d7e3f4c2a8d9e6f7a1b2c3d4e")).2 = 200.
Proof.
  cbv zeta. split; [reflexivity |].
  destruct (resend_replaces_the_link
              (ResendVerification.mkEnv "0b5c4a1d7e3f4c2a8d9e6f7a1b2c3d4e" 172800000
                 false false false)
              (Examples.verify_email_env 1000) Examples.users_registered
              (ResendVerification.mkRequest "POST" (Some "Ada@Acme.com"))
              "Ada@Acme.com" "9f86d081884c7d659a2feaa0c55ad015" Examples.ada_row)
    as (_ & Hold & Hnew).
  - apply (bool_decide_unpack _). vm_compute. exact I.
  - reflexivity.
  - reflexivity.
  - discriminate.
  - reflexivity.
  - reflexivity.
  - vm_compute. reflexivity.
  - reflexivity.
  - vm_compute. reflexivity.
  - discriminate.
  - discriminate.
  - discriminate.
  - intros u Hu. apply (bool_decide_unpack _).
    revert u Hu. apply Forall_forall. vm_compute. repeat constructor.
  - reflexivity.
  - reflexivity.
  - split.
    + change (Examples.click "9f86d081884c7d659a2feaa0c55ad015")
        with (VerifyEmail.mkRequest "GET" (Some "9f86d081884c7d659a2feaa0c55ad015")).
      by rewrite Hold.
    + change (Examples.click "0b5c4a1d7e3f4c2a8d9e6f7a1b2c3d4e")
        with (VerifyEmail.mkRequest "GET"
                (Some (ResendVerification.verificationToken
                         (ResendVerification.mkEnv "0b5c4a1d7e3f4c2a8d9e6f7a1b2c3d4e"
                            172800000 false false false)))).
      rewrite Hnew; [reflexivity | simpl; lia].
Defined.






Lemma is_admin_spec (users : Users.t) (a : nat) :
  Users.is_admin users a = true ->
  exists u, u ∈ users /\ UserRow.id u = a /\ UserRow.role u = "admin".
Proof.
  unfold Users.is_admin. destruct (Users.single _ users) as [u|] eqn:Hsel; [| done].
  intros Hrole%bool_decide_eq_true.
  destruct (single_spec _ _ _ Hsel) as (Hin & Hid%bool_decide_eq_true & _). eauto.
Qed.

(** X23: the two administrator functions serve administrators only. The
    list of accounts is answered 200, and an account is deleted, only
    when the token names an account that is stored once and whose role
    is [admin]; any other request leaves [users] as it is. *)
Theorem administrator_functions_serve_admins_only (el : AdminUsers.env)
    (ed : AdminDeleteUser.env) (users : Users.t) (rl : AdminUsers.request)
    (rd : AdminDeleteUser.request) :
  (AdminUsers.statusCode (AdminUsers.handler el users rl) = 200 ->
   exists a u, AdminUsers.decoded rl = Some a
               /\ u ∈ users /\ UserRow.id u = a /\ UserRow.role u = "admin")
  /\ (AdminDeleteUser.statusCode (AdminDeleteUser.handler ed users rd).2 = 200
      \/ (AdminDeleteUser.handler ed users rd).1 <> users ->
      exists a u, AdminDeleteUser.decoded rd = Some a
                  /\ u ∈ users /\ UserRow.id u = a /\ UserRow.role u = "admin").
Proof.
  split.
  - unfold AdminUsers.handler. destruct (negb _); [done |].
    destruct (AdminUsers.decoded rl) as [a|]; [| done].
    destruct (Users.is_admin users a) eqn:Hadmin; [| done]. intros _.
    destruct (is_admin_spec _ _ Hadmin) as (u & Hu). eauto.
  - unfold AdminDeleteUser.handler. destruct (negb _); [by intros [? | ?] |].
    destruct (AdminDeleteUser.decoded rd) as [a|]; [| by intros [? | ?]].
    destruct (Users.is_admin users a) eqn:Hadmin; [| by intros [? | ?]]. intros _.
    destruct (is_admin_spec _ _ Hadmin) as (u & Hu). eauto.
Qed.

Lemma administrator_functions_serve_admins_only_witness :
  AdminUsers.statusCode
    (AdminUsers.handler (AdminUsers.mkEnv false false) Examples.users_registered
       (AdminUsers.mkRequest "GET" (Some 2%nat))) = 403
  /\ (AdminDeleteUser.handler (AdminDeleteUser.mkEnv false) Examples.users_registered
        (AdminDeleteUser.mkRequest "DELETE" (Some 1%nat) (Some (Some 2%nat)))).1
     = [Examples.admin_row]
  /\ exists a u, a = 1%nat /\ u ∈ Examples.users_registered
                 /\ UserRow.id u = a /\ UserRow.role u = "admin"%string.
Proof.
  split; [reflexivity |]. split; [reflexivity |].
  destruct (administrator_functions_serve_admins_only (AdminUsers.mkEnv false false)
              (AdminDeleteUser.mkEnv false) Examples.users_registered
              (AdminUsers.mkRequest "GET" (Some 2%nat))
              (AdminDeleteUser.mkRequest "DELETE" (Some 1%nat) (Some (Some 2%nat))))
    as [_ Hdel].
  destruct Hdel as (a & u & Ha & Hu); [left; reflexivity |].
  exists a, u. split; [| exact Hu]. simpl in Ha. by injection Ha as <-.
Defined.

(** X24: a deletion that is answered 200 has removed the accounts with
    the named identifier and no other, the rest staying in order; naming
    an identifier that is not stored is answered 200 all the same and
    changes nothing; and an administrator who names their own account
    is deleted like any other, after which their token is refused by
    both administrator functions. *)
Theorem delete_removes_the_named_account_only (e : AdminDeleteUser.env) (users : Users.t)
    (r : AdminDeleteUser.request) (a userId : nat) :
  AdminDeleteUser.httpMethod r = "DELETE" ->
  AdminDeleteUser.decoded r = Some a -> Users.is_admin users a = true ->
  AdminDeleteUser.body r = Some (Some userId) ->
  AdminDeleteUser.delete_error e = false ->
  let w := AdminDeleteUser.handler e users r in
  AdminDeleteUser.statusCode w.2 = 200
  /\ (forall u, u ∈ w.1 <-> u ∈ users /\ UserRow.id u <> userId)
  /\ w.1 `sublist_of` users
  /\ (userId ∉ map UserRow.id users -> w.1 = users)
  /\ (userId = a ->
      forall e' r' el rl,
        AdminDeleteUser.httpMethod r' = "DELETE" -> AdminDeleteUser.decoded r' = Some a ->
        AdminUsers.httpMethod rl = "GET" -> AdminUsers.decoded rl = Some a ->
        AdminDeleteUser.handler e' w.1 r'
        = (w.1, AdminDeleteUser.respond 403
                  (AdminDeleteUser.Error "Access denied. Admin only."))
        /\ AdminUsers.handler el w.1 rl
           = AdminUsers.respond 403 (AdminUsers.Error "Access denied. Admin only.")).
Proof.
  intros Hm Hdec Hadmin Hbody Hdel w.
  assert (Hw : w = (Users.delete_by_id userId users,
                    AdminDeleteUser.respond 200
                      (AdminDeleteUser.Deleted "User deleted successfully"))).
  { unfold w, AdminDeleteUser.handler. rewrite Hm, Hdec, Hadmin, Hbody, Hdel.
    by rewrite bool_decide_eq_true_2. }
  rewrite Hw. cbn [fst snd]. split; [done |].
  assert (Hin : forall u, u ∈ Users.delete_by_id userId users
                          <-> u ∈ users /\ UserRow.id u <> userId).
  { intros u. unfold Users.delete_by_id. rewrite !list_elem_of_In, filter_In.
    unfold Users.by_id. split; intros [Hu Hid]; (split; [done |]).
    - by apply negb_true_iff, bool_decide_eq_false in Hid.
    - by apply negb_true_iff, bool_decide_eq_false. }
  split; [done |]. split; [apply filter_sublist |]. split.
  - intros Hnot. unfold Users.delete_by_id. clear -Hnot.
    induction users as [|x l IH]; [done |]. simpl in *.
    apply not_elem_of_cons in Hnot as [Hx Hl]. unfold Users.by_id at 1.
    rewrite bool_decide_eq_false_2 by (intros Heq; by apply Hx). simpl. f_equal.
    by apply IH.
  - intros -> e' r' el rl Hm' Hdec' Hml Hdecl.
    assert (Hgone : Users.is_admin (Users.delete_by_id a users) a = false).
    { unfold Users.is_admin. rewrite single_none_of_all_false; [done |].
      intros v [_ Hv]%Hin. unfold Users.by_id. by apply bool_decide_eq_false. }
    unfold AdminDeleteUser.handler, AdminUsers.handler.
    rewrite Hm', Hdec', Hml, Hdecl, Hgone.
    by rewrite !bool_decide_eq_true_2.
Qed.

Lemma delete_removes_the_named_account_only_witness :
  let w := AdminDeleteUser.handler (AdminDeleteUser.mkEnv false) Examples.users_registered
             (AdminDeleteUser.mkRequest "DELETE" (Some 1%nat) (Some (Some 1%nat))) in
  AdminDeleteUser.statusCode w.2 = 200
  /\ w.1 = [Examples.ada_row]
  /\ AdminUsers.statusCode
       (AdminUsers.handler (AdminUsers.mkEnv false false) w.1
          (AdminUsers.mkRequest "GET" (Some 1%nat))) = 403.
Proof.
  cbv zeta.
  destruct (delete_removes_the_named_account_only (AdminDeleteUser.mkEnv false)
              Examples.users_registered
              (AdminDeleteUser.mkRequest "DELETE" (Some 1%nat) (Some (Some 1%nat)))
              1%nat 1%nat)
    as (Hok & _ & _ & _ & Hself).
  - reflexivity.
  - reflexivity.
  - reflexivity.
  - reflexivity.
  - reflexivity.
  - split; [exact Hok |]. split; [reflexivity |].
    destruct (Hself eq_refl (AdminDeleteUser.mkEnv false)
                (AdminDeleteUser.mkRequest "DELETE" (Some 1%nat) None)
                (AdminUsers.mkEnv false false) (AdminUsers.mkRequest "GET" (Some 1%nat)))
      as [_ Hlist]; [reflexivity .. |].
    by rewrite Hlist.
Defined.

End AccountFacts.

(** ** How a scanned code is cleaned *)

Section CodeCleaning.

Import Verify.

Lemma string_of_chars (s : string) : string_of_list_ascii (list_ascii_of_string s) = s.
Proof. apply string_of_list_ascii_of_string. Qed.

Lemma chars_of_string (l : list ascii) : list_ascii_of_string (string_of_list_ascii l) = l.
Proof. apply list_ascii_of_string_of_list_ascii. Qed.

(** The encoding of a white space code point of two or three bytes
    neither starts nor ends with a byte that is white space by itself,
    nor with the encoding of a shorter one. *)
Lemma is_space2_bytes a b :
  Js.is_space2 a b = true -> Js.is_space a = false /\ Js.is_space b = false.
Proof.
  unfold Js.is_space2, Js.is_space.
  generalize (nat_of_ascii a) (nat_of_ascii b). intros x y.
  rewrite andb_true_iff, !Nat.eqb_eq. intros [-> ->]. done.
Qed.

Lemma is_space3_bytes a b c :
  Js.is_space3 a b c = true ->
  Js.is_space a = false /\ Js.is_space c = false
  /\ Js.is_space2 a b = false /\ Js.is_space2 b c = false.
Proof.
  unfold Js.is_space3, Js.is_space2, Js.is_space.
  generalize (nat_of_ascii a) (nat_of_ascii b) (nat_of_ascii c). intros x y z.
  rewrite !orb_true_iff, !andb_true_iff, !orb_true_iff, !andb_true_iff, !Nat.eqb_eq,
    !Nat.leb_le.
  intros H. repeat split; apply not_true_is_false;
    rewrite ?orb_true_iff, ?andb_true_iff, ?Nat.eqb_eq, ?Nat.leb_le; lia.
Qed.

(** A byte of ASCII that is not white space is no part of the encoding
    of a white space code point. *)
Lemma ascii_byte_no_space a b c :
  (nat_of_ascii a <? 128)%nat = true ->
  Js.is_space2 a b = false /\ Js.is_space2 b a = false
  /\ Js.is_space3 a b c = false /\ Js.is_space3 c b a = false.
Proof.
  unfold Js.is_space3, Js.is_space2.
  generalize (nat_of_ascii a) (nat_of_ascii b) (nat_of_ascii c). intros x y z.
  rewrite Nat.ltb_lt. intros H. repeat split; apply not_true_is_false;
    rewrite ?orb_true_iff, ?andb_true_iff, ?orb_true_iff, ?andb_true_iff, ?Nat.eqb_eq,
      ?Nat.leb_le; lia.
Qed.

Lemma strip_white_space back w l :
  Js.white_space w = true ->
  Js.strip back ((if back then rev w else w) ++ l) = Js.strip back l.
Proof.
  destruct w as [|a [|b [|c [|d w]]]]; try done; simpl Js.white_space; intros Hw.
  - destruct back; simpl; by rewrite Hw.
  - destruct (is_space2_bytes a b Hw) as [Ha Hb].
    destruct back; simpl; by rewrite ?Ha, ?Hb, Hw.
  - destruct (is_space3_bytes a b c Hw) as (Ha & Hc & Hab & Hbc).
    destruct back; simpl; by rewrite ?Ha, ?Hc, ?Hab, ?Hbc, Hw.
Qed.

Lemma strip_white_spaces back ws l :
  Forall (fun w => Js.white_space w = true) ws ->
  Js.strip back (concat (map (fun w => if back then rev w else w) ws) ++ l)
  = Js.strip back l.
Proof.
  induction 1 as [|w ws Hw _ IH]; simpl; [done |].
  by rewrite <- app_assoc, (strip_white_space back w _ Hw).
Qed.

Lemma strip_ascii back a l :
  (nat_of_ascii a <? 128)%nat = true -> Js.is_space a = false ->
  Js.strip back (a :: l) = a :: l.
Proof.
  intros Ha Hs. simpl. rewrite Hs.
  destruct l as [|b [|c l]]; [done | |].
  - destruct (ascii_byte_no_space a b b Ha) as (H1 & H2 & _). by destruct back; rewrite ?H1, ?H2.
  - destruct (ascii_byte_no_space a b c Ha) as (H1 & H2 & H3 & H4).
    by destruct back; rewrite ?H1, ?H2, ?H3, ?H4.
Qed.

Lemma rev_concat {A} (ls : list (list A)) : rev (concat ls) = concat (map (@rev A) (rev ls)).
Proof.
  induction ls as [|l ls IH]; simpl; [done |].
  by rewrite rev_app_distr, IH, map_app, concat_app; simpl; rewrite app_nil_r.
Qed.

(** [trim] takes the white space off both ends of an ASCII text that
    has none inside. *)
Lemma trim_padded (pad_l pad_r : list (list ascii)) (c : string) :
  c <> "" ->
  Js.is_ascii c = true ->
  Forall (fun a => Js.is_space a = false) (list_ascii_of_string c) ->
  Forall (fun w => Js.white_space w = true) pad_l ->
  Forall (fun w => Js.white_space w = true) pad_r ->
  Js.trim (string_of_list_ascii (concat pad_l) ++ c ++ string_of_list_ascii (concat pad_r))
  = c.
Proof.
  intros Hne Hascii Hc Hl Hr. unfold Js.trim.
  rewrite !chars_of_append, !chars_of_string.
  transitivity (string_of_list_ascii (list_ascii_of_string c)); [| apply string_of_chars].
  assert (Hnil : list_ascii_of_string c <> []) by (by destruct c).
  unfold Js.is_ascii in Hascii. rewrite forallb_forall in Hascii.
  revert Hnil Hascii Hc. generalize (list_ascii_of_string c). clear c Hne.
  intros l Hne Hascii Hc. f_equal.
  rewrite <- (map_id pad_l) at 1.
  rewrite (strip_white_spaces false pad_l _ Hl).
  destruct l as [|a l]; [done |].
  rewrite <- app_comm_cons, strip_ascii;
    [| apply Hascii; by left | by apply Forall_inv in Hc].
  rewrite app_comm_cons, rev_app_distr, rev_concat.
  rewrite (strip_white_spaces true (rev pad_r) _ (Forall_rev Hr)).
  destruct (rev (a :: l)) as [|z l'] eqn:Hrev.
  { apply (f_equal (@length _)) in Hrev. rewrite length_rev in Hrev. done. }
  assert (Hz : z ∈ a :: l).
  { apply list_elem_of_In, in_rev. rewrite Hrev. by left. }
  rewrite strip_ascii.
  - by rewrite <- Hrev, rev_involutive.
  - apply Hascii. by apply list_elem_of_In.
  - rewrite Forall_forall in Hc. by apply Hc.
Qed.

Lemma upper_char_space (a : ascii) : Js.is_space (Js.upper_char a) = Js.is_space a.
Proof. by destruct a as [[] [] [] [] [] [] [] []]. Qed.

Lemma toUpperCase_chars (s : string) :
  list_ascii_of_string (Js.toUpperCase s) = map Js.upper_char (list_ascii_of_string s).
Proof. induction s as [|a s IH]; simpl; [done | by rewrite IH]. Qed.

(** Texts that differ in the case of their letters only are ASCII, and
    free of white space, together. *)
Lemma toUpperCase_same_kind (s t : string) :
  Js.toUpperCase s = Js.toUpperCase t ->
  Js.is_ascii t = true ->
  Forall (fun a => Js.is_space a = false) (list_ascii_of_string t) ->
  Js.is_ascii s = true /\ Forall (fun a => Js.is_space a = false) (list_ascii_of_string s).
Proof.
  intros Heq. unfold Js.is_ascii.
  assert (Hmap : map Js.upper_char (list_ascii_of_string s)
                 = map Js.upper_char (list_ascii_of_string t))
    by (by rewrite <- !toUpperCase_chars, Heq).
  revert Hmap. generalize (list_ascii_of_string t) as lt.
  induction (list_ascii_of_string s) as [|a ls IH]; intros [|b lt]; simpl; try done.
  intros [= Hab Hrest] [Hb Hlt]%andb_prop [Hsb Hslt]%Forall_cons.
  destruct (IH lt Hrest Hlt Hslt) as [IH1 IH2]. split.
  - by rewrite IH1, <- upper_char_ascii, Hab, upper_char_ascii, Hb.
  - constructor; [| done]. by rewrite <- upper_char_space, Hab, upper_char_space.
Qed.

(** After the lookup a call uses its request for the caller's address
    only. *)
Lemma step_same_headers e st ph m c c' xf xr :
  ph <> Start ->
  step e (mkRequest m c xf xr) st ph = step e (mkRequest m c' xf xr) st ph.
Proof. by destruct ph as [| cleanCode [[codeRecord b] |] | | ]. Qed.

(** X25: a scan does not depend on how the code is typed. For a code of
    ASCII characters without white space, the white space around it
    (any of the code points that [trim] removes) and the case of its
    letters make no difference to what the call does or answers. *)
Theorem scan_ignores_case_and_padding (e : env) (st : Store.t) (m : string)
    (xf xr : option string) (c c' : string) (pad_l pad_r : list (list ascii)) :
  c <> "" ->
  Js.is_ascii c = true ->
  Forall (fun a => Js.is_space a = false) (list_ascii_of_string c) ->
  Js.toUpperCase c' = Js.toUpperCase c ->
  Forall (fun w => Js.white_space w = true) pad_l ->
  Forall (fun w => Js.white_space w = true) pad_r ->
  handler e st
    (mkRequest m
       (Given (string_of_list_ascii (concat pad_l) ++ c'
               ++ string_of_list_ascii (concat pad_r))%string) xf xr)
  = handler e st (mkRequest m (Given c) xf xr).
Proof.
  intros Hne Hascii Hc Hsame Hl Hr.
  destruct (toUpperCase_same_kind c' c Hsame Hascii Hc) as [Hascii' Hc'].
  assert (Hne' : c' <> "").
  { intros ->. destruct c; [done | discriminate]. }
  set (typed := (string_of_list_ascii (concat pad_l) ++ c'
                 ++ string_of_list_ascii (concat pad_r))%string).
  assert (Hclean' : Js.trim typed = c') by (by apply trim_padded).
  assert (Hclean : Js.trim c = c).
  { assert (H := trim_padded [] [] c Hne Hascii Hc (List.Forall_nil _) (List.Forall_nil _)).
    simpl in H. change ("" ++ c ++ "")%string with (c ++ "")%string in H.
    rewrite <- (string_of_chars (c ++ "")), chars_of_append in H. simpl in H.
    by rewrite app_nil_r, string_of_chars in H. }
  assert (Htyped : typed <> "").
  { intros Hnil. rewrite Hnil in Hclean'. apply Hne'. by rewrite <- Hclean'. }
  assert (Hlook : lookup e st (mkRequest m (Given typed) xf xr)
                  = lookup e st (mkRequest m (Given c) xf xr)).
  { unfold lookup. cbn [httpMethod code].
    rewrite !(bool_decide_eq_false_2 (_ = "")) by done.
    by rewrite Hclean', Hclean, Hsame. }
  unfold handler. cbn [step]. rewrite Hlook.
  destruct (lookup e st (mkRequest m (Given c) xf xr)) as [| cc found | cc rec b err | resp]
    eqn:Hph.
  - exfalso. revert Hph. unfold lookup. destruct (negb _ && negb _); [done |].
    cbn [code]. by case_bool_decide.
  - rewrite (step_same_headers e st (Looked cc found) m _ (Given c)) by done.
    destruct (step e (mkRequest m (Given c) xf xr) st (Looked cc found)) as [st2 p2] eqn:H2.
    destruct p2 as [| cc2 found2 | cc2 rec2 b2 err2 | resp2].
    + exfalso. revert H2. simpl. destruct found as [[rec0 b0] |]; [| done].
      case_bool_decide; [done |]. by destruct (Store.update_code_verified _ _ _ _).
    + by apply step_same_headers.
    + by apply step_same_headers.
    + by apply step_same_headers.
  - by rewrite !(step_same_headers e _ _ m _ (Given c)).
  - done.
Qed.

Lemma scan_ignores_case_and_padding_witness :
  let e := Examples.verify_env false in
  let typed := (Examples.nbsp ++ "aaaaaaaaaaaa" ++ Examples.em_space ++ " ")%string in
  String.length typed = 18%nat
  /\ handler e Examples.store_complete
       (Verify.mkRequest "GET" (Given typed) (Some "203.0.113.7") None)
     = handler e Examples.store_complete (Examples.scan "AAAAAAAAAAAA")
  /\ status_of
       (handler e Examples.store_complete
          (Verify.mkRequest "GET" (Given typed) (Some "203.0.113.7") None)).2
     = Some "success"%string.
Proof.
  cbv zeta. split; [reflexivity |].
  assert (H := scan_ignores_case_and_padding (Examples.verify_env false)
                 Examples.store_complete "GET" (Some "203.0.113.7") None
                 "AAAAAAAAAAAA" "aaaaaaaaaaaa"
                 [list_ascii_of_string Examples.nbsp]
                 [list_ascii_of_string Examples.em_space; list_ascii_of_string " "]).
  split.
  - apply H.
    + discriminate.
    + reflexivity.
    + vm_compute. repeat constructor.
    + reflexivity.
    + vm_compute. repeat constructor.
    + vm_compute. repeat constructor.
  - vm_compute. reflexivity.
Defined.

End CodeCleaning.

(** ** The Express generator *)

Section BatchGenerationFacts.

Import BatchGeneration.

Lemma generateUniqueCode_fresh tp stored code tp' :
  generateUniqueCode tp stored = Some (code, tp') -> code ∉ stored.
Proof.
  induction tp as [|bytes tp IH]; simpl; [done |].
  case_bool_decide as Hin; [done |]. by intros [= <- <-].
Qed.

(** What the passes done so far have made of the store [d] they
    started from: the documents added are those of [generatedCodes], in
    order, all active and of the batch and the issuer; every pass has
    added a document or an error; the batches are untouched; and the
    code values are distinct if they were. *)
Let sound (d : db) (batchId manufacturerId : nat) (i : nat) (r : run) : Prop :=
  (exists added,
      codes (store r) = codes d ++ added
      /\ map Workflow.code added = map fst (generatedCodes r)
      /\ Forall (fun c => Workflow.batchId c = batchId
                          /\ Workflow.manufacturerId c = manufacturerId
                          /\ Workflow.code_status c = Workflow.active) added)
  /\ (length (generatedCodes r) + length (errs r) = i)%nat
  /\ batches (store r) = batches d
  /\ (NoDup (map Workflow.code (codes d)) -> NoDup (map Workflow.code (codes (store r)))).

Lemma pass_sound e batch d batchId manufacturerId i r r' :
  sound d batchId manufacturerId i r ->
  pass e batch batchId manufacturerId i r = Some r' ->
  sound d batchId manufacturerId (S i) r'.
Proof.
  intros ((added & Hc & Hm & Hall) & Hlen & Hb & Hnd). unfold pass.
  assert (Hfail : forall tp,
             sound d batchId manufacturerId (S i)
               (mkRun (store r) tp (generatedCodes r) (errs r ++ [(S i, message e i)]))).
  { intros tp. split; [by exists added |]. simpl. rewrite length_app. simpl.
    split; [lia | done]. }
  destruct (rest r) as [|bytes tp0]; [done |].
  destruct (unique_fault e i); [intros [= <-]; apply Hfail |].
  destruct (generateUniqueCode _ _) as [[code tp]|] eqn:Hgen; [| done].
  apply generateUniqueCode_fresh in Hgen.
  destruct (qr_fault e i); [intros [= <-]; apply Hfail |].
  destruct (create_fault e i); [intros [= <-]; apply Hfail |].
  intros [= <-]. unfold create. simpl. split; [| split; [| split; [done |]]].
  - eexists (added ++ [_]). rewrite Hc, <- app_assoc. split; [done |].
    simpl. rewrite !map_app, Hm. split; [done |].
    apply Forall_app. split; [done |]. by constructor.
  - simpl. rewrite length_app. simpl. lia.
  - simpl. intros Hd. rewrite map_app. apply NoDup_app. split; [by apply Hnd |].
    split; [| apply NoDup_singleton]. simpl. by intros x Hx ->%list_elem_of_singleton.
Qed.

Lemma passes_sound e batch d batchId manufacturerId n i r r' :
  sound d batchId manufacturerId i r ->
  passes e batch batchId manufacturerId n i r = Some r' ->
  sound d batchId manufacturerId (i + n) r'.
Proof.
  revert i r. induction n as [|n IH]; intros i r Hr; simpl.
  - intros [= <-]. by rewrite Nat.add_0_r.
  - destruct (pass e batch batchId manufacturerId i r) as [r1|] eqn:Hp; [| done].
    intros Hloop. replace (i + S n)%nat with (S i + n)%nat by lia.
    eapply IH; [| exact Hloop]. by eapply pass_sound.
Qed.

Lemma generateCodesForBatch_returned e d batchId manufacturerId quantity d' res :
  generateCodesForBatch e d batchId manufacturerId quantity = Some (d', Returned res) ->
  exists batch r,
    List.find (fun b => bool_decide (b_id b = batchId)) (batches d) = Some batch
    /\ sound d batchId manufacturerId quantity r
    /\ d' = update_batch batchId (Z.of_nat (length (generatedCodes r))) (store r)
    /\ res = mkResult true (BatchGeneration.batchId batch) quantity
               (length (generatedCodes r)) (generatedCodes r)
               (if bool_decide (errs r = []) then None else Some (errs r)).
Proof.
  unfold generateCodesForBatch.
  destruct (List.find _ (batches d)) as [batch|]; [| done].
  destruct (passes _ _ _ _ _ _ _) as [r|] eqn:Hloop; [| done].
  intros [= <- <-]. exists batch, r. split; [done |]. split; [| done].
  apply (passes_sound e batch d batchId manufacturerId quantity 0
           (mkRun d (tape e) [] []) r); [| done].
  split; [| done]. exists []. by rewrite app_nil_r.
Qed.



(** X27: the generator never stores a code value twice. Each code is
    looked up right before it is stored, so that, with the stored values
    pairwise different before the call, they are so after it, and no
    generated code is one that was stored. *)
Theorem generateCodesForBatch_keeps_codes_distinct (e : env) (d d' : db)
    (batchId manufacturerId quantity : nat) (res : result) :
  NoDup (map Workflow.code (codes d)) ->
  generateCodesForBatch e d batchId manufacturerId quantity = Some (d', Returned res) ->
  NoDup (map Workflow.code (codes d'))
  /\ NoDup (map fst (r_codes res))
  /\ Forall (fun c => c ∉ map Workflow.code (codes d)) (map fst (r_codes res)).
Proof.
  intros Hnd Hret.
  destruct (generateCodesForBatch_returned _ _ _ _ _ _ _ Hret)
    as (batch & r & _ & ((added & Hc & Hm & _) & _ & _ & Hkeep) & -> & ->).
  simpl. specialize (Hkeep Hnd). rewrite Hc, map_app, Hm in Hkeep.
  apply NoDup_app in Hkeep as (_ & Hdisj & Hnew).
  split; [| split; [done |]].
  - rewrite Hc, map_app, Hm. apply NoDup_app. done.
  - apply Forall_forall. intros c Hc' Hin. by apply (Hdisj c).
Qed.

Lemma generateCodesForBatch_keeps_codes_distinct_witness :
  exists d1 res1 d2 res2,
    generateCodesForBatch Examples.generation_env Examples.generation_db 10 20 3
    = Some (d1, Returned res1)
    /\ generateCodesForBatch Examples.generation_env d1 10 20 1 = Some (d2, Returned res2)
    /\ map fst (r_codes res2) = ["BAAAAAAAAAAA"%string]
    /\ NoDup (map Workflow.code (codes d2)).
Proof.
  destruct (generateCodesForBatch Examples.generation_env Examples.generation_db 10 20 3)
    as [[d1 [res1 | err1]] |] eqn:Hrun1; [| by vm_compute in Hrun1 | by vm_compute in Hrun1].
  destruct (generateCodesForBatch Examples.generation_env d1 10 20 1)
    as [[d2 [res2 | err2]] |] eqn:Hrun2.
  - exists d1, res1, d2, res2. split; [reflexivity |]. split; [exact Hrun2 |].
    destruct (generateCodesForBatch_keeps_codes_distinct _ _ _ _ _ _ _
                (NoDup_nil_2 : NoDup (map Workflow.code (codes Examples.generation_db)))
                Hrun1) as (Hnd1 & _).
    destruct (generateCodesForBatch_keeps_codes_distinct _ _ _ _ _ _ _ Hnd1 Hrun2)
      as (Hnd2 & _).
    split; [| exact Hnd2].
    vm_compute in Hrun1. injection Hrun1 as <- <-.
    vm_compute in Hrun2. injection Hrun2 as <- <-. reflexivity.
  - vm_compute in Hrun1. injection Hrun1 as <- <-. by vm_compute in Hrun2.
  - vm_compute in Hrun1. injection Hrun1 as <- <-. by vm_compute in Hrun2.
Defined.

End BatchGenerationFacts.
